(** * database.py: the calendar's persistence layer

    A shallow embedding of the event and tag store of [database.py]: the
    two SQLite tables are lists of rows, a connection is a pair of the
    committed database and the working copy of the open transaction, and
    every public function maps the database on disk to the database it
    leaves behind together with what the call returns or raises.

    Timestamps are stored as TEXT and compared by SQLite as byte strings;
    the aggregation parses them with [datetime.strptime].  Both views are
    modelled, and related by the lemmas of [CalendarFacts] and
    [TimestampFacts]. *)

From Stdlib Require Import ZArith QArith Lia List Bool Ascii String Sorted.
From Stdlib Require Import DecimalString.
From Stdlib Require Import Floats.PrimFloat Numbers.Cyclic.Int63.Uint63.
From stdpp Require Import gmap strings.

Local Open Scope string_scope.
Local Open Scope list_scope.
Local Open Scope Z_scope.

(** ** Fixed-width decimal fields

    [strftime] writes every field of a timestamp as a zero-padded decimal
    number of fixed width and [strptime] reads it back. *)

Module Digits.

Definition digit_char (d : Z) : ascii := ascii_of_N (Z.to_N (48 + d)).

Definition digit_val (c : ascii) : option Z :=
  let n := Z.of_N (N_of_ascii c) in
  if (48 <=? n) && (n <=? 57) then Some (n - 48) else None.

(** [zpad w n] is ["%0wd" % n] for [0 <= n < 10^w], most significant digit
    first. *)
Fixpoint zpad (w : nat) (n : Z) : string :=
  match w with
  | O => ""
  | S w' => String (digit_char (n / 10 ^ Z.of_nat w'))
                   (zpad w' (n mod 10 ^ Z.of_nat w'))
  end.

(** Reads exactly [w] decimal digits, most significant first. *)
Fixpoint read_digits (w : nat) (acc : Z) (s : string) : option (Z * string) :=
  match w with
  | O => Some (acc, s)
  | S w' =>
      match s with
      | String c s' =>
          match digit_val c with
          | Some d => read_digits w' (10 * acc + d) s'
          | None => None
          end
      | EmptyString => None
      end
  end.

(** Reads the literal character [c]. *)
Definition expect (c : ascii) (s : string) : option string :=
  match s with
  | String c' s' => if Ascii.eqb c c' then Some s' else None
  | EmptyString => None
  end.

Definition at_end (s : string) : option unit :=
  match s with EmptyString => Some tt | String _ _ => None end.

End Digits.

(** ** The proleptic Gregorian calendar of [datetime]

    The day arithmetic of CPython's [datetime] module, which numbers the
    days from 1 = 0001-01-01 ([date.toordinal]). *)

Module Calendar.

Definition MINYEAR : Z := 1.
Definition MAXYEAR : Z := 9999.
Definition MAXORDINAL : Z := 3652059.
Definition DI400Y : Z := 146097.
Definition DI100Y : Z := 36524.
Definition DI4Y : Z := 1461.

Definition is_leap (year : Z) : bool :=
  (year mod 4 =? 0) && (negb (year mod 100 =? 0) || (year mod 400 =? 0)).

Definition days_before_year (year : Z) : Z :=
  let y := year - 1 in y * 365 + y / 4 - y / 100 + y / 400.

Definition DAYS_IN_MONTH (month : Z) : Z :=
  match month with
  | 1 => 31 | 2 => 28 | 3 => 31 | 4 => 30 | 5 => 31 | 6 => 30
  | 7 => 31 | 8 => 31 | 9 => 30 | 10 => 31 | 11 => 30 | 12 => 31
  | _ => -1
  end.

Definition DAYS_BEFORE_MONTH (month : Z) : Z :=
  match month with
  | 1 => 0 | 2 => 31 | 3 => 59 | 4 => 90 | 5 => 120 | 6 => 151
  | 7 => 181 | 8 => 212 | 9 => 243 | 10 => 273 | 11 => 304 | 12 => 334
  | _ => -1
  end.

Definition days_in_month (year month : Z) : Z :=
  if (month =? 2) && is_leap year then 29 else DAYS_IN_MONTH month.

Definition days_before_month (year month : Z) : Z :=
  DAYS_BEFORE_MONTH month + (if (2 <? month) && is_leap year then 1 else 0).

Definition ymd2ord (year month day : Z) : Z :=
  days_before_year year + days_before_month year month + day.

Definition ord2ymd (n : Z) : Z * Z * Z :=
  let n := n - 1 in
  let n400 := n / DI400Y in
  let n := n mod DI400Y in
  let year := n400 * 400 + 1 in
  let n100 := n / DI100Y in
  let n := n mod DI100Y in
  let n4 := n / DI4Y in
  let n := n mod DI4Y in
  let n1 := n / 365 in
  let n := n mod 365 in
  let year := year + n100 * 100 + n4 * 4 + n1 in
  if (n1 =? 4) || (n100 =? 4) then (year - 1, 12, 31)
  else
    let leapyear := (n1 =? 3) && (negb (n4 =? 24) || (n100 =? 3)) in
    let month := Z.shiftr (n + 50) 5 in
    let preceding :=
      DAYS_BEFORE_MONTH month + (if (2 <? month) && leapyear then 1 else 0) in
    if n <? preceding then
      let month := month - 1 in
      let preceding :=
        preceding
        - (DAYS_IN_MONTH month + (if (month =? 2) && leapyear then 1 else 0)) in
      (year, month, n - preceding + 1)
    else (year, month, n - preceding + 1).

(** What the [date] constructor accepts. *)
Definition valid_date (year month day : Z) : bool :=
  (MINYEAR <=? year) && (year <=? MAXYEAR)
  && (1 <=? month) && (month <=? 12)
  && (1 <=? day) && (day <=? days_in_month year month).

End Calendar.

(** ** Naive datetimes and timedeltas

    A [datetime] is kept as its day ordinal and the microsecond within the
    day, the two quantities CPython's comparison, subtraction and addition
    are defined by.  A [timedelta] is its exact length in microseconds. *)

Module Datetime.
Import Calendar.

Definition US_PER_SECOND : Z := 1000000.
Definition US_PER_DAY : Z := 86400 * US_PER_SECOND.

Record datetime := mk_datetime { date_ord : Z; time_us : Z }.

Definition timedelta := Z.
Definition timedelta_days (n : Z) : timedelta := n * US_PER_DAY.
Definition timedelta_hours (n : Z) : timedelta := n * 3600 * US_PER_SECOND.

(** [datetime.min.time()] and [datetime.max.time()]. *)
Definition time_min : Z := 0.
Definition time_max : Z := US_PER_DAY - 1.

Definition time_of (hour minute second microsecond : Z) : Z :=
  ((hour * 60 + minute) * 60 + second) * US_PER_SECOND + microsecond.

(** The constructor; [None] stands for its [ValueError]. *)
Definition datetime_new (year month day hour minute second : Z)
  : option datetime :=
  if valid_date year month day
     && (0 <=? hour) && (hour <=? 23)
     && (0 <=? minute) && (minute <=? 59)
     && (0 <=? second) && (second <=? 59)
  then Some (mk_datetime (ymd2ord year month day)
                         (time_of hour minute second 0))
  else None.

Definition combine (d : datetime) (t : Z) : datetime :=
  mk_datetime (date_ord d) t.

Definition compare (a b : datetime) : comparison :=
  match date_ord a ?= date_ord b with
  | Eq => time_us a ?= time_us b
  | c => c
  end.

Definition ltb (a b : datetime) : bool :=
  match compare a b with Lt => true | _ => false end.
Definition leb (a b : datetime) : bool :=
  match compare a b with Gt => false | _ => true end.

(** Python's [max(a, b)] and [min(a, b)]: the first argument wins ties. *)
Definition max (a b : datetime) : datetime := if ltb a b then b else a.
Definition min (a b : datetime) : datetime := if ltb b a then b else a.

(** [a - b] *)
Definition sub (a b : datetime) : timedelta :=
  (date_ord a - date_ord b) * US_PER_DAY + (time_us a - time_us b).

(** [d + delta]; [None] stands for [OverflowError]. *)
Definition add (d : datetime) (delta : timedelta) : option datetime :=
  let t := time_us d + delta in
  let o := date_ord d + t / US_PER_DAY in
  if (1 <=? o) && (o <=? MAXORDINAL)
  then Some (mk_datetime o (t mod US_PER_DAY))
  else None.

End Datetime.

(** ** [strptime] and [strftime]

    The two formats the module uses, ['%Y-%m-%d'] and
    ['%Y-%m-%d %H:%M:%S'].  [strptime_date] and [strptime_datetime] read
    the zero-padded form that [strftime] writes, the format of the
    timestamps the application stores and is asked about; [strptime] reads
    whatever CPython's parser takes, unpadded fields among it, and is what
    the migration applies to the text of the legacy table.  [None] stands
    for the [ValueError] of the parser. *)

Module Timestamp.
Import Digits Calendar Datetime.

Definition strftime_date (d : datetime) : string :=
  let '(y, m, dd) := ord2ymd (date_ord d) in
  zpad 4 y +:+ "-" +:+ zpad 2 m +:+ "-" +:+ zpad 2 dd.

Definition strftime_time (t : Z) : string :=
  let s := t / US_PER_SECOND in
  zpad 2 (s / 3600) +:+ ":" +:+ zpad 2 (s / 60 mod 60) +:+ ":"
  +:+ zpad 2 (s mod 60).

Definition strftime_datetime (d : datetime) : string :=
  strftime_date d +:+ " " +:+ strftime_time (time_us d).

Definition read_date (s : string) : option (Z * Z * Z * string) :=
  '(y, s) ← read_digits 4 0 s;
  s ← expect "-" s;
  '(m, s) ← read_digits 2 0 s;
  s ← expect "-" s;
  '(d, s) ← read_digits 2 0 s;
  Some (y, m, d, s).

Definition read_time (s : string) : option (Z * Z * Z * string) :=
  '(hh, s) ← read_digits 2 0 s;
  s ← expect ":" s;
  '(mm, s) ← read_digits 2 0 s;
  s ← expect ":" s;
  '(ss, s) ← read_digits 2 0 s;
  Some (hh, mm, ss, s).

(** [datetime.strptime(s, '%Y-%m-%d')] on text in the format of the
    application, every field zero-padded to its full width; [None] on any
    other text. *)
Definition strptime_date (s : string) : option datetime :=
  '(y, m, d, s) ← read_date s;
  _ ← at_end s;
  datetime_new y m d 0 0 0.

(** [datetime.strptime(s, '%Y-%m-%d %H:%M:%S')] on text in the format of
    the application, ['YYYY-MM-DD HH:MM:SS'] with every field zero-padded;
    [None] on any other text.  [strptime] below is the function on any
    text. *)
Definition strptime_datetime (s : string) : option datetime :=
  '(y, m, d, s) ← read_date s;
  s ← expect " " s;
  '(hh, mm, ss, s) ← read_time s;
  _ ← at_end s;
  datetime_new y m d hh mm ss.

(** ** [strptime] on any text

    [datetime.strptime] turns the format into a regular expression, matches
    it at the start of the text with the backtracking matcher of [re],
    refuses text left over after the match, reads the fields with [int]
    and calls the constructor.  For ['%Y-%m-%d %H:%M:%S'] the expression is
    [(\d\d\d\d)-(1[0-2]|0[1-9]|[1-9])-(3[0-1]|[1-2]\d|0[1-9]|[1-9]| [1-9])\s+(2[0-3]|[0-1]\d|\d):([0-5]\d|\d):(6[0-1]|[0-5]\d|\d)].

    A matcher is the list of the ways an expression matches a prefix of the
    text, in the order the backtracking finds them, each with the value read
    and the text that follows; the first match of the whole expression is
    the head of its list.  A character of the text is a code point below
    256. *)
Definition matcher (A : Type) : Type := string → list (A * string).

Definition m_ret {A} (a : A) : matcher A := λ s, [(a, s)].

Definition m_bind {A B} (p : matcher A) (f : A → matcher B) : matcher B :=
  λ s, flat_map (λ r, f r.1 r.2) (p s).

(** [p|q] *)
Definition m_alt {A} (p q : matcher A) : matcher A := λ s, p s ++ q s.

Local Notation "'let*' x ':=' p 'in' q" := (m_bind p (λ x, q))
  (at level 10, x name, p at level 100, q at level 200, only parsing).
Local Notation "'let*' '_' ':=' p 'in' q" := (m_bind p (λ _, q))
  (at level 10, p at level 100, q at level 200, only parsing).
Local Infix "<|>" := m_alt (at level 50, left associativity, only parsing).

(** [[lo-hi]], a decimal digit in a range; [\d] is [digit 0 9]. *)
Definition digit (lo hi : Z) : matcher Z := λ s,
  match s with
  | String c s' =>
      match digit_val c with
      | Some d => if (lo <=? d) && (d <=? hi) then [(d, s')] else []
      | None => []
      end
  | EmptyString => []
  end.

(** Two digits in their ranges, read as a number. *)
Definition digits2 (lo1 hi1 lo2 hi2 : Z) : matcher Z :=
  let* a := digit lo1 hi1 in
  let* b := digit lo2 hi2 in
  m_ret (10 * a + b).

Definition lit (c : ascii) : matcher unit := λ s,
  match expect c s with Some s' => [(tt, s')] | None => [] end.

(** [\s]: the white space among the code points below 256. *)
Definition is_space (c : ascii) : bool :=
  let n := Z.of_N (N_of_ascii c) in
  ((9 <=? n) && (n <=? 13)) || ((28 <=? n) && (n <=? 32))
  || (n =? 133) || (n =? 160).

(** [\s+]: greedy, the longest run first. *)
Fixpoint spaces (s : string) : list (unit * string) :=
  match s with
  | String c s' => if is_space c then spaces s' ++ [(tt, s')] else []
  | EmptyString => []
  end.

Definition re_Y : matcher Z :=
  let* a := digit 0 9 in
  let* b := digit 0 9 in
  let* c := digit 0 9 in
  let* d := digit 0 9 in
  m_ret (1000 * a + 100 * b + 10 * c + d).

Definition re_m : matcher Z :=
  digits2 1 1 0 2 <|> digits2 0 0 1 9 <|> digit 1 9.

Definition re_d : matcher Z :=
  digits2 3 3 0 1 <|> digits2 1 2 0 9 <|> digits2 0 0 1 9 <|> digit 1 9
  <|> (let* _ := lit " " in digit 1 9).

Definition re_H : matcher Z :=
  digits2 2 2 0 3 <|> digits2 0 1 0 9 <|> digit 0 9.

Definition re_M : matcher Z :=
  digits2 0 5 0 9 <|> digit 0 9.

Definition re_S : matcher Z :=
  digits2 6 6 0 1 <|> digits2 0 5 0 9 <|> digit 0 9.

Definition datetime_re : matcher (Z * Z * Z * Z * Z * Z) :=
  let* y := re_Y in
  let* _ := lit "-" in
  let* m := re_m in
  let* _ := lit "-" in
  let* d := re_d in
  let* _ := spaces in
  let* hh := re_H in
  let* _ := lit ":" in
  let* mm := re_M in
  let* _ := lit ":" in
  let* ss := re_S in
  m_ret (y, m, d, hh, mm, ss).

(** [datetime.strptime(s, '%Y-%m-%d %H:%M:%S')] on any text.  [None] is
    the [ValueError] of text that does not match the format, of text left
    over after the first match, or of fields that are no date and time. *)
Definition strptime (s : string) : option datetime :=
  match datetime_re s with
  | [] => None
  | (y, m, d, hh, mm, ss, rest) :: _ =>
      match rest with
      | EmptyString => datetime_new y m d hh mm ss
      | String _ _ => None
      end
  end.

End Timestamp.

(** ** Rows, tables and connections *)

(** A row of [events]. [title], [start_datetime] and [end_datetime] are
    [NOT NULL]; the nullable columns are options. *)
Module Event.
Record t := mk {
  id : Z;
  start_datetime : string;
  end_datetime : string;
  title : string;
  description : option string;
  tag : option string;
  created_at : option string
}.
End Event.

(** A row of [tags]. *)
Module Tag.
Record t := mk {
  id : Z;
  name : string;
  color : string;
  order_index : Z;
  created_at : option string
}.
End Tag.

(** Modelled from the spec: the legacy [events] table, of which the source
    shows only the columns [migrate_schema] selects. *)
Module Legacy.
Record t := mk {
  id : Z;
  date : string;
  time : option string;
  title : string;
  description : option string;
  created_at : option string
}.
End Legacy.

(** The database file: both tables and their [AUTOINCREMENT] counters. *)
Record database := mk_db {
  events : list Event.t;
  events_seq : Z;
  tags : list Tag.t;
  tags_seq : Z
}.

(** An open connection: what is on disk, and the working copy the
    statements of the open transaction act on. *)
Record connection := mk_conn { committed : database; working : database }.

Definition get_db_connection (disk : database) : connection :=
  mk_conn disk disk.
Definition commit (conn : connection) : connection :=
  mk_conn (working conn) (working conn).
Definition rollback (conn : connection) : connection :=
  mk_conn (committed conn) (committed conn).
(** Closing discards whatever was not committed. *)
Definition close (conn : connection) : database := committed conn.

Inductive exn :=
| ValueError (msg : string)
| IntegrityError (msg : string)
| OverflowError (msg : string).

Inductive outcome (A : Type) :=
| Return (a : A)
| Raise (e : exn).
Arguments Return {A} a.
Arguments Raise {A} e.

(** The two errors of the tag store, under the names the specification
    gives them. *)
Definition DuplicateTag (name : string) : exn :=
  ValueError ("Tag '" +:+ name +:+ "' already exists").
Definition NotFound (tag_id : Z) : exn :=
  ValueError ("Tag with id " +:+ NilEmpty.string_of_int (Z.to_int tag_id)
              +:+ " not found").

(** The [OverflowError] of [sqlite3] for a Python integer that is bound
    to a statement and does not fit in 64 bits. *)
Definition int_too_large : exn :=
  OverflowError "Python int too large to convert to SQLite INTEGER".

(** Python values found in an imported record. *)
Inductive pyval := PyNone | PyStr (s : string).

Definition truthy (v : pyval) : bool :=
  match v with
  | PyNone => false
  | PyStr s => negb (String.eqb s "")
  end.

Definition dict_get (d : gmap string pyval) (key : string) (dflt : pyval)
  : pyval :=
  default dflt (d !! key).

Definition to_sql (v : pyval) : option string :=
  match v with PyNone => None | PyStr s => Some s end.

(** Truthiness of a nullable TEXT value read back from a row. *)
Definition text_truthy (v : option string) : bool :=
  match v with
  | None => false
  | Some s => negb (String.eqb s "")
  end.

(** *** SQL building blocks *)

Section Sql.
Context {A : Type}.

Fixpoint insert_sorted (le : A → A → bool) (x : A) (l : list A) : list A :=
  match l with
  | [] => [x]
  | y :: l' => if le x y then x :: l else y :: insert_sorted le x l'
  end.

(** [ORDER BY]: a stable sort. *)
Definition order_by (le : A → A → bool) (l : list A) : list A :=
  fold_right (insert_sorted le) [] l.

End Sql.

(** [SELECT MAX(col)]: [NULL] on an empty table. *)
Definition sql_max (l : list Z) : option Z :=
  match l with
  | [] => None
  | x :: l' => Some (fold_left Z.max l' x)
  end.

(** The integers SQLite stores; binding another one raises
    [OverflowError]. *)
Definition sqlite_int (n : Z) : bool :=
  (- 2 ^ 63 <=? n) && (n <? 2 ^ 63).

(** The rowid an [AUTOINCREMENT] table hands out next: one more than the
    greatest rowid it has ever held.  SQLite refuses an insert once rowid
    [2 ^ 63 - 1] has been used: the function is the rowid of an insert
    into a table that has a rowid left. *)
Definition next_rowid (seq : Z) (ids : list Z) : Z :=
  Z.max seq (fold_right Z.max 0 ids) + 1.

(** The table has a rowid left to hand out. *)
Definition rowid_left (seq : Z) (ids : list Z) : Prop :=
  next_rowid seq ids < 2 ^ 63.

Definition set_events (db : database) (evs : list Event.t) (seq : Z)
  : database :=
  mk_db evs seq (tags db) (tags_seq db).

Definition set_tags (db : database) (tgs : list Tag.t) (seq : Z)
  : database :=
  mk_db (events db) (events_seq db) tgs seq.

(** [INSERT INTO events (start_datetime, end_datetime, title, description,
    tag) VALUES (?, ?, ?, ?, ?)], returning [lastrowid]. *)
Definition insert_event (now : string)
    (start_datetime end_datetime title description tag : option string)
    (conn : connection) : (connection * Z) + exn :=
  match start_datetime, end_datetime, title with
  | None, _, _ =>
      inr (IntegrityError "NOT NULL constraint failed: events.start_datetime")
  | _, None, _ =>
      inr (IntegrityError "NOT NULL constraint failed: events.end_datetime")
  | _, _, None =>
      inr (IntegrityError "NOT NULL constraint failed: events.title")
  | Some s, Some e, Some t =>
      let db := working conn in
      let rowid := next_rowid (events_seq db) (map Event.id (events db)) in
      let row := Event.mk rowid s e t description tag (Some now) in
      inl (mk_conn (committed conn) (set_events db (events db ++ [row]) rowid),
           rowid)
  end.

(** [INSERT INTO tags (name, color, order_index) VALUES (?, ?, ?)]: the
    parameters are bound, which raises [OverflowError] on an integer
    SQLite cannot store, before the statement runs. *)
Definition insert_tag (now : string) (name color : string) (order_index : Z)
    (conn : connection) : (connection * Z) + exn :=
  let db := working conn in
  if negb (sqlite_int order_index)
  then inr int_too_large
  else if existsb (λ t, String.eqb (Tag.name t) name) (tags db)
  then inr (IntegrityError "UNIQUE constraint failed: tags.name")
  else
    let rowid := next_rowid (tags_seq db) (map Tag.id (tags db)) in
    let row := Tag.mk rowid name color order_index (Some now) in
    inl (mk_conn (committed conn) (set_tags db (tags db ++ [row]) rowid),
         rowid).

(** [UPDATE tags SET name = ?, color = ? WHERE id = ?] *)
Definition update_tag_row (name color : string) (tag_id : Z)
    (conn : connection) : connection + exn :=
  let db := working conn in
  if existsb (λ t, Z.eqb (Tag.id t) tag_id) (tags db)
     && existsb (λ t, negb (Z.eqb (Tag.id t) tag_id)
                      && String.eqb (Tag.name t) name) (tags db)
  then inr (IntegrityError "UNIQUE constraint failed: tags.name")
  else
    let upd t :=
      if Z.eqb (Tag.id t) tag_id
      then Tag.mk (Tag.id t) name color (Tag.order_index t) (Tag.created_at t)
      else t in
    inl (mk_conn (committed conn) (set_tags db (map upd (tags db)) (tags_seq db))).

(** [UPDATE events SET tag = ? WHERE tag = ?] *)
Definition update_events_tag (new_tag : option string) (old_tag : string)
    (conn : connection) : connection :=
  let db := working conn in
  let upd e :=
    if decide (Event.tag e = Some old_tag)
    then Event.mk (Event.id e) (Event.start_datetime e) (Event.end_datetime e)
                  (Event.title e) (Event.description e) new_tag
                  (Event.created_at e)
    else e in
  mk_conn (committed conn) (set_events db (map upd (events db)) (events_seq db)).

(** ** The event store *)

Import Timestamp.

(** SQLite's [DATE(x)], on the two shapes of text this module stores: the
    value is the leading ['YYYY-MM-DD'] of a well-formed timestamp and
    [NULL] on anything the model's parser rejects (SQLite itself takes
    further formats). *)
Definition sql_date (s : string) : option string :=
  match strptime_datetime s, strptime_date s with
  | None, None => None
  | _, _ => Some (String.substring 0 10 s)
  end.

Definition by_start_datetime (a b : Event.t) : bool :=
  String.leb (Event.start_datetime a) (Event.start_datetime b).

Definition get_events_by_date (date : string) (disk : database)
  : list Event.t :=
  let conn := get_db_connection disk in
  let date_start := date +:+ " 00:00:00" in
  let date_end := date +:+ " 23:59:59" in
  order_by by_start_datetime
    (List.filter (λ e,
       (String.leb (Event.start_datetime e) date_end
        && String.leb date_start (Event.end_datetime e))
       || bool_decide (sql_date (Event.start_datetime e) = Some date)
       || bool_decide (sql_date (Event.end_datetime e) = Some date))
       (events (working conn))).

(** An argument with a default value: [None] when the caller omits it. *)
Definition arg_or {A} (dflt : A) (arg : option A) : A := default dflt arg.

Definition add_event (now : string) (start_datetime end_datetime title : string)
    (description tag : option (option string)) (disk : database)
  : database * outcome Z :=
  let description := arg_or (Some "") description in
  let tag := arg_or (Some "") tag in
  let conn := get_db_connection disk in
  match insert_event now (Some start_datetime) (Some end_datetime)
                     (Some title) description tag conn with
  | inr e => (close conn, Raise e)
  | inl (conn, event_id) =>
      let conn := commit conn in
      (close conn, Return event_id)
  end.

Definition update_event (event_id : Z)
    (start_datetime end_datetime title : string)
    (description tag : option (option string)) (disk : database) : database :=
  let description := arg_or (Some "") description in
  let tag := arg_or (Some "") tag in
  let conn := get_db_connection disk in
  let db := working conn in
  let upd e :=
    if Z.eqb (Event.id e) event_id
    then Event.mk (Event.id e) start_datetime end_datetime title description
                  tag (Event.created_at e)
    else e in
  let conn :=
    mk_conn (committed conn)
            (set_events db (map upd (events db)) (events_seq db)) in
  let conn := commit conn in
  close conn.

Definition delete_event (event_id : Z) (disk : database) : database :=
  let conn := get_db_connection disk in
  let db := working conn in
  let conn :=
    mk_conn (committed conn)
            (set_events db
               (List.filter (λ e, negb (Z.eqb (Event.id e) event_id)) (events db))
               (events_seq db)) in
  let conn := commit conn in
  close conn.

(** The loop of [bulk_add_events]; [inr] is the exception that leaves it. *)
Fixpoint bulk_add_loop (now : string) (tag : option string)
    (events : list (gmap string pyval)) (conn : connection)
    (imported_count : Z) : (connection * Z) + exn :=
  match events with
  | [] => inl (conn, imported_count)
  | event :: rest =>
      let title := dict_get event "title" (PyStr "(no title)") in
      let description := dict_get event "description" (PyStr "") in
      let start_datetime := dict_get event "start_datetime" PyNone in
      let end_datetime := dict_get event "end_datetime" PyNone in
      if truthy start_datetime && truthy end_datetime then
        match insert_event now (to_sql start_datetime) (to_sql end_datetime)
                (to_sql title) (to_sql description) tag conn with
        | inr e => inr e
        | inl (conn, _) =>
            bulk_add_loop now tag rest conn (imported_count + 1)
        end
      else bulk_add_loop now tag rest conn imported_count
  end.

Definition bulk_add_events (now : string) (events : list (gmap string pyval))
    (tag : option (option string)) (disk : database)
  : database * outcome Z :=
  let tag := arg_or (Some "") tag in
  match events with
  | [] => (disk, Return 0)
  | _ =>
      let conn := get_db_connection disk in
      match bulk_add_loop now tag events conn 0 with
      | inl (conn, imported_count) =>
          let conn := commit conn in
          (close conn, Return imported_count)
      | inr e =>
          let conn := rollback conn in
          (close conn, Raise e)
      end
  end.

Definition get_events_by_tag (tag_name : string) (disk : database)
  : list Event.t :=
  let conn := get_db_connection disk in
  List.filter (λ e, bool_decide (Event.tag e = Some tag_name))
         (events (working conn)).

(** ** The aggregation engine *)

(** The arithmetic of the hour totals: the integer [0] a bucket starts
    from, [+=], and [td.total_seconds() / 3600.0] of a timedelta. *)
Class HourArith (hnum : Type) := {
  hzero : hnum;
  hadd : hnum → hnum → hnum;
  hours_of : Datetime.timedelta → hnum
}.

(** Exact rational arithmetic. *)
Definition exact_hours : HourArith Q := {|
  hzero := 0%Q;
  hadd := Qplus;
  hours_of td := ((inject_Z td / inject_Z 1000000) / inject_Z 3600)%Q
|}.

Definition float_of_Z (z : Z) : float :=
  if z <? 0 then PrimFloat.opp (PrimFloat.of_uint63 (Uint63.of_Z (- z)))
  else PrimFloat.of_uint63 (Uint63.of_Z z).

(** IEEE binary64, as CPython computes: the quotient of two integers
    below 2^53 is the correctly rounded one. *)
Definition binary64_hours : HourArith float := {|
  hzero := float_of_Z 0;
  hadd := PrimFloat.add;
  hours_of td :=
    PrimFloat.div (PrimFloat.div (float_of_Z td) (float_of_Z 1000000))
                  (float_of_Z 3600)
|}.

Definition bucket_tag (tag : option string) : string :=
  match tag with
  | Some s => if text_truthy tag then s else "Untagged"
  | None => "Untagged"
  end.

Section Aggregation.
Context {hnum : Type} {arith : HourArith hnum}.
Import Datetime.

(** The first [while] loop: one empty accumulator per day.  [None] is an
    exception, or a loop that has not ended when [fuel] runs out. *)
Fixpoint init_days (fuel : nat) (current_date end_date_dt : datetime)
    (result : gmap string (gmap string hnum))
  : option (gmap string (gmap string hnum)) :=
  if ltb current_date end_date_dt then
    match fuel with
    | O => None
    | S fuel' =>
        let date_str := strftime_date current_date in
        let result := <[date_str := ∅]> result in
        current_date ← add current_date (timedelta_days 1);
        init_days fuel' current_date end_date_dt result
    end
  else Some result.

(** [if tag not in bucket: bucket[tag] = 0] *)
Definition start_at_zero (tag : string) (bucket : gmap string hnum)
  : gmap string hnum :=
  match bucket !! tag with
  | None => <[tag := hzero]> bucket
  | Some _ => bucket
  end.

(** The body of the inner loop for one day. *)
Definition clip_to_day (start_dt end_dt : datetime) (tag : string)
    (current_day : datetime) (result : gmap string (gmap string hnum))
  : option (gmap string (gmap string hnum)) :=
  let day_start := combine current_day time_min in
  let day_end := combine current_day time_max in
  if leb start_dt day_end && leb day_start end_dt then
    let clipped_start := max start_dt day_start in
    let clipped_end := min end_dt day_end in
    let duration_hours := hours_of (sub clipped_end clipped_start) in
    let date_str := strftime_date current_day in
    bucket ← result !! date_str;
    let bucket := start_at_zero tag bucket in
    total ← bucket !! tag;
    Some (<[date_str := <[tag := hadd total duration_hours]> bucket]> result)
  else Some result.

(** The inner [while] loop over the days of the week. *)
Fixpoint clip_days (fuel : nat) (start_dt end_dt : datetime) (tag : string)
    (current_day end_date_dt : datetime)
    (result : gmap string (gmap string hnum))
  : option (gmap string (gmap string hnum)) :=
  if ltb current_day end_date_dt then
    match fuel with
    | O => None
    | S fuel' =>
        result ← clip_to_day start_dt end_dt tag current_day result;
        current_day ← add current_day (timedelta_days 1);
        clip_days fuel' start_dt end_dt tag current_day end_date_dt result
    end
  else Some result.

(** The body of [for event in events]. *)
Definition process_event (fuel : nat) (start_date : string)
    (end_date_dt : datetime) (result : gmap string (gmap string hnum))
    (event : Event.t) : option (gmap string (gmap string hnum)) :=
  start_dt ← strptime_datetime (Event.start_datetime event);
  end_dt ← strptime_datetime (Event.end_datetime event);
  let tag := bucket_tag (Event.tag event) in
  current_day ← strptime_date start_date;
  clip_days fuel start_dt end_dt tag current_day end_date_dt result.

Fixpoint for_events (fuel : nat) (start_date : string) (end_date_dt : datetime)
    (events : list Event.t) (result : gmap string (gmap string hnum))
  : option (gmap string (gmap string hnum)) :=
  match events with
  | [] => Some result
  | event :: rest =>
      result ← process_event fuel start_date end_date_dt result event;
      for_events fuel start_date end_date_dt rest result
  end.

Definition get_tag_hours_for_week (start_date end_date : string)
    (disk : database) : option (gmap string (gmap string hnum)) :=
  let conn := get_db_connection disk in
  let events :=
    order_by by_start_datetime
      (List.filter (λ e, String.ltb (Event.start_datetime e) end_date
                    && String.ltb start_date (Event.end_datetime e))
              (events (working conn))) in
  current_date ← strptime_date start_date;
  end_date_dt ← strptime_date end_date;
  (* both loops run once per day of the range *)
  let fuel := Z.to_nat (date_ord end_date_dt - date_ord current_date) in
  result ← init_days fuel current_date end_date_dt ∅;
  for_events fuel start_date end_date_dt events result.

End Aggregation.

(** ** The tag store *)

Definition by_order_index (a b : Tag.t) : bool :=
  Z.leb (Tag.order_index a) (Tag.order_index b).

Definition get_all_tags (disk : database) : list Tag.t :=
  let conn := get_db_connection disk in
  order_by by_order_index (tags (working conn)).

(** Python's [max_order or 0]. *)
Definition or_zero (max_order : option Z) : Z :=
  match max_order with
  | None => 0
  | Some v => if v =? 0 then 0 else v
  end.

Definition add_tag (now : string) (name color : string)
    (order_index : option Z) (disk : database) : database * outcome Z :=
  let conn := get_db_connection disk in
  let order_index :=
    match order_index with
    | None =>
        let max_order := sql_max (map Tag.order_index (tags (working conn))) in
        or_zero max_order + 1
    | Some order_index => order_index
    end in
  match insert_tag now name color order_index conn with
  | inl (conn, tag_id) =>
      let conn := commit conn in
      (close conn, Return tag_id)
  | inr (IntegrityError _) => (close conn, Raise (DuplicateTag name))
  | inr e =>
      (* not caught: nothing was committed *)
      (committed conn, Raise e)
  end.

Definition select_tag (tag_id : Z) (conn : connection) : option Tag.t :=
  find (λ t, Z.eqb (Tag.id t) tag_id) (tags (working conn)).

Definition update_tag (tag_id : Z) (name color : string) (disk : database)
  : database * outcome unit :=
  let conn := get_db_connection disk in
  match select_tag tag_id conn with
  | None => (close conn, Raise (NotFound tag_id))
  | Some result =>
      let old_name := Tag.name result in
      match update_tag_row name color tag_id conn with
      | inl conn =>
          let conn :=
            if negb (String.eqb old_name name)
            then update_events_tag (Some name) old_name conn
            else conn in
          let conn := commit conn in
          (close conn, Return tt)
      | inr _ => (close conn, Raise (DuplicateTag name))
      end
  end.

(** The dictionary [delete_tag] returns. *)
Record delete_result := mk_delete_result {
  success : bool;
  event_count : option Z;
  error : option string
}.

Definition delete_tag (tag_id : Z) (disk : database)
  : database * delete_result :=
  let conn := get_db_connection disk in
  match select_tag tag_id conn with
  | None => (close conn, mk_delete_result false None (Some "Tag not found"))
  | Some result =>
      let tag_name := Tag.name result in
      let event_count :=
        Z.of_nat (length (List.filter (λ e, bool_decide (Event.tag e = Some tag_name))
                                 (events (working conn)))) in
      let conn :=
        if 0 <? event_count then update_events_tag None tag_name conn
        else conn in
      let db := working conn in
      let conn :=
        mk_conn (committed conn)
          (set_tags db
             (List.filter (λ t, negb (Z.eqb (Tag.id t) tag_id)) (tags db))
             (tags_seq db)) in
      let conn := commit conn in
      (close conn, mk_delete_result true (Some event_count) None)
  end.

Fixpoint reorder_loop (index : Z) (tag_ids : list Z) (tgs : list Tag.t)
  : list Tag.t :=
  match tag_ids with
  | [] => tgs
  | tag_id :: rest =>
      let upd t :=
        if Z.eqb (Tag.id t) tag_id
        then Tag.mk (Tag.id t) (Tag.name t) (Tag.color t) (index + 1)
                    (Tag.created_at t)
        else t in
      reorder_loop (index + 1) rest (map upd tgs)
  end.

Definition reorder_tags (tag_ids : list Z) (disk : database) : database :=
  let conn := get_db_connection disk in
  let db := working conn in
  let conn :=
    mk_conn (committed conn)
            (set_tags db (reorder_loop 0 tag_ids (tags db)) (tags_seq db)) in
  let conn := commit conn in
  close conn.

(** ** Schema migration *)

(** The legacy database file. *)
Record legacy_database := mk_legacy_db {
  legacy_events : list Legacy.t;
  legacy_tags : list Tag.t;
  legacy_tags_seq : Z
}.

(** The start and end the loop of [migrate_schema] computes for one row;
    [None] is the exception of [strptime] or of the addition. *)
Definition migrate_times (date : string) (time : option string)
  : option (string * string) :=
  match time with
  | Some t =>
      if text_truthy time then
        let start_datetime := date +:+ " " +:+ t +:+ ":00" in
        start_dt ← strptime start_datetime;
        end_dt ← Datetime.add start_dt (Datetime.timedelta_hours 1);
        Some (start_datetime, strftime_datetime end_dt)
      else Some (date +:+ " 09:00:00", date +:+ " 17:00:00")
  | None => Some (date +:+ " 09:00:00", date +:+ " 17:00:00")
  end.

(** [INSERT INTO events_new (id, ...) VALUES (?, ...)] with an explicit
    id; [None] is the [IntegrityError] of a primary key already used. *)
Definition insert_with_id (row : Event.t) (table : list Event.t * Z)
  : option (list Event.t * Z) :=
  let '(rows, seq) := table in
  if existsb (λ e, Z.eqb (Event.id e) (Event.id row)) rows then None
  else Some (rows ++ [row], Z.max seq (Event.id row)).

Fixpoint migrate_loop (old_events : list Legacy.t) (events_new : list Event.t * Z)
  : option (list Event.t * Z) :=
  match old_events with
  | [] => Some events_new
  | event :: rest =>
      '(start_datetime, end_datetime) ←
        migrate_times (Legacy.date event) (Legacy.time event);
      events_new ←
        insert_with_id
          (Event.mk (Legacy.id event) start_datetime end_datetime
                    (Legacy.title event) (Legacy.description event) None
                    (Legacy.created_at event))
          events_new;
      migrate_loop rest events_new
  end.

(** [None]: an exception left the migration, and nothing was committed. *)
Definition migrate_schema (disk : legacy_database) : option database :=
  '(events_new, seq) ← migrate_loop (legacy_events disk) ([], 0);
  Some (mk_db events_new seq (legacy_tags disk) (legacy_tags_seq disk)).

(** ** Start-up *)

(** The [events] table the file holds when the module is imported: none,
    the legacy one (it has a [date] column and no [start_datetime]), or
    the current one. *)
Inductive events_table :=
| NoEventsTable
| LegacyEvents (rows : list Legacy.t)
| CurrentEvents (rows : list Event.t) (seq : Z).

(** The database file before [init_db]; [file_tags] is [None] when there
    is no [tags] table. *)
Record db_file := mk_db_file {
  file_events : events_table;
  file_tags : option (list Tag.t * Z)
}.

(** An entry of the ["tags"] list of [tags.json], with string names and
    colours and integer orders.  [json_name] and [json_color] are [None]
    when the key is missing, null or a value that cannot be bound, which
    makes the insert raise in each case; [json_order] is [None] when the
    key is missing and [Some None] when it is null. *)
Record json_tag := mk_json_tag {
  json_name : option string;
  json_color : option string;
  json_order : option (option Z)
}.

(** [tags.json]: not there, there but failing to load, or loaded
    ([data.get('tags', [])]). *)
Inductive tags_json :=
| NoTagsFile
| BadTagsFile
| TagsFile (tags : list json_tag).

Definition default_tags : list (string * string * Z) :=
  [ ("Work", "#007bff", 1); ("Personal", "#28a745", 2);
    ("Social", "#ffc107", 3); ("Important", "#dc3545", 4) ].

(** The [for tag in default_tags] loop; [None] is the exception of an
    insert. *)
Fixpoint insert_default_tags (now : string) (tags : list (string * string * Z))
    (conn : connection) : option connection :=
  match tags with
  | [] => Some conn
  | (name, color, order) :: rest =>
      match insert_tag now name color order conn with
      | inl (conn, _) => insert_default_tags now rest conn
      | inr _ => None
      end
  end.

Definition _create_default_tags (now : string) (conn : connection)
  : option connection :=
  match insert_default_tags now default_tags conn with
  | Some conn => Some (commit conn)
  | None => None
  end.

(** The [for tag in tags] loop of the JSON import; [None] is an exception:
    the [KeyError] of a missing key, the [OverflowError] of an order that
    is too large, or the [IntegrityError] of a null or of a name already in
    the table. *)
Fixpoint insert_json_tags (now : string) (tags : list json_tag)
    (conn : connection) : option connection :=
  match tags with
  | [] => Some conn
  | tag :: rest =>
      match json_name tag, json_color tag, default (Some 0) (json_order tag) with
      | Some name, Some color, Some order =>
          match insert_tag now name color order conn with
          | inl (conn, _) => insert_json_tags now rest conn
          | inr _ => None
          end
      | _, _, _ => None
      end
  end.

(** [None]: the exception of [_create_default_tags] leaves the call.  The
    clock reading [now] is taken as constant through the call. *)
Definition init_default_tags (now : string) (tags_file : tags_json)
    (conn : connection) : option connection :=
  match tags_file with
  | NoTagsFile => _create_default_tags now conn
  | BadTagsFile => _create_default_tags now (rollback conn)
  | TagsFile tags =>
      match insert_json_tags now tags conn with
      | Some conn => Some (commit conn)
      | None => _create_default_tags now (rollback conn)
      end
  end.

(** [init_db]; [None] is the exception of the migration or of the seeding
    that leaves it.  The [tags] table is created empty, with its counter
    at 0, before it is seeded. *)
Definition init_db (now : string) (tags_file : tags_json) (file : db_file)
  : option database :=
  let tags_table := default ([], 0) (file_tags file) in
  match
    match file_events file with
    | LegacyEvents rows =>
        migrate_schema (mk_legacy_db rows tags_table.1 tags_table.2)
    | CurrentEvents rows seq => Some (mk_db rows seq tags_table.1 tags_table.2)
    | NoEventsTable => Some (mk_db [] 0 tags_table.1 tags_table.2)
    end
  with
  | None => None
  | Some db =>
      match file_tags file with
      | Some _ => Some db
      | None =>
          match init_default_tags now tags_file (get_db_connection db) with
          | Some conn => Some (close conn)
          | None => None
          end
      end
  end.

(** The file an initialised database is. *)
Definition file_of (db : database) : db_file :=
  mk_db_file (CurrentEvents (events db) (events_seq db))
             (Some (tags db, tags_seq db)).

(** * Vocabulary of the statements

    The predicates and the sample data the theorems below are stated
    with. *)

Module CalendarSpec.
Import Calendar.

Definition leap_day (leap : bool) : Z := if leap then 1 else 0.

(** The month and day [ord2ymd] finds for day [n] (from 0) of a year. *)
Definition month_day (leapyear : bool) (n : Z) : Z * Z :=
  let month := Z.shiftr (n + 50) 5 in
  let preceding :=
    DAYS_BEFORE_MONTH month + (if (2 <? month) && leapyear then 1 else 0) in
  if n <? preceding then
    let month := month - 1 in
    let preceding :=
      preceding
      - (DAYS_IN_MONTH month + (if (month =? 2) && leapyear then 1 else 0)) in
    (month, n - preceding + 1)
  else (month, n - preceding + 1).

Definition month_day_ok (leap : bool) (n : Z) : bool :=
  let '(m, d) := month_day leap n in
  (1 <=? m) && (m <=? 12) && (1 <=? d)
  && (d <=? (if (m =? 2) && leap then 29 else DAYS_IN_MONTH m))
  && (DAYS_BEFORE_MONTH m + (if (2 <? m) && leap then 1 else 0) + d =? n + 1).

Definition date_compare (a b : Z * Z * Z) : comparison :=
  let '(y1, m1, d1) := a in
  let '(y2, m2, d2) := b in
  match y1 ?= y2 with
  | Eq => match m1 ?= m2 with Eq => d1 ?= d2 | c => c end
  | c => c
  end.

End CalendarSpec.

Module TimestampSpec.
Import Digits Calendar Datetime Timestamp.

(** The text of a date, followed by [rest]. *)
Definition date_text (y m d : Z) (rest : string) : string :=
  zpad 4 y +:+ String "-" (zpad 2 m +:+ String "-" (zpad 2 d +:+ rest)).

(** The text of a time of day, followed by [rest]. *)
Definition time_text (hh mm ss : Z) (rest : string) : string :=
  zpad 2 hh +:+ String ":" (zpad 2 mm +:+ String ":" (zpad 2 ss +:+ rest)).

Definition date_fields (y m d : Z) : Prop :=
  0 <= y < 10000 ∧ 0 <= m < 100 ∧ 0 <= d < 100.

Definition clock (hh mm ss : Z) : Prop :=
  0 <= hh <= 23 ∧ 0 <= mm <= 59 ∧ 0 <= ss <= 59.

(** The text of a timestamp. *)
Definition datetime_text (y m d hh mm ss : Z) : string :=
  date_text y m d (String " " (time_text hh mm ss "")).

Definition clock_compare (a b : Z * Z * Z) : comparison :=
  let '(h1, m1, s1) := a in
  let '(h2, m2, s2) := b in
  match h1 ?= h2 with
  | Eq => match m1 ?= m2 with Eq => s1 ?= s2 | c => c end
  | c => c
  end.

End TimestampSpec.

(** [e'] is the row [e] with, at most, another tag. *)
Definition same_but_tag (e e' : Event.t) : Prop :=
  Event.id e' = Event.id e
  ∧ Event.start_datetime e' = Event.start_datetime e
  ∧ Event.end_datetime e' = Event.end_datetime e
  ∧ Event.title e' = Event.title e
  ∧ Event.description e' = Event.description e
  ∧ Event.created_at e' = Event.created_at e.

(** [e'] is [e] after [UPDATE events SET tag = new WHERE tag = old]. *)
Definition retagged (old : string) (new : option string) (e e' : Event.t)
  : Prop :=
  same_but_tag e e'
  ∧ (Event.tag e = Some old → Event.tag e' = new)
  ∧ (Event.tag e ≠ Some old → e' = e).


(** The order index as the specification words it:
    [max(existing order_index, 0) + 1]. *)
Definition spec_order_index (existing : list Z) : Z :=
  fold_right Z.max 0 existing + 1.




(** A record, from its keys and values. *)
Definition record (fields : list (string * pyval)) : gmap string pyval :=
  list_to_map fields.

(** The example of the specification: three records and one that has no
    [end_datetime]. *)
Definition four_records : list (gmap string pyval) :=
  [ record [("title", PyStr "Standup");
            ("start_datetime", PyStr "2024-06-03 09:00:00");
            ("end_datetime", PyStr "2024-06-03 09:15:00")];
    record [("title", PyStr "Review");
            ("start_datetime", PyStr "2024-06-03 10:00:00")];
    record [("start_datetime", PyStr "2024-06-03 12:00:00");
            ("end_datetime", PyStr "2024-06-03 13:00:00")];
    record [("title", PyStr "Gym"); ("description", PyNone);
            ("start_datetime", PyStr "2024-06-03 18:00:00");
            ("end_datetime", PyStr "2024-06-03 19:00:00")] ].

Section Vocabulary.
Import Calendar Datetime Timestamp.

(** Some instant of the day of [D] lies in the closed interval from [s]
    to [t]. *)
Definition touches (s t D : datetime) : Prop :=
  ∃ i, date_ord i = date_ord D ∧ 0 <= time_us i < US_PER_DAY
       ∧ leb s i = true ∧ leb i t = true.

(** The start of a timed legacy row, as text. *)
Definition legacy_start (date t : string) : string :=
  date +:+ " " +:+ t +:+ ":00".

(** The loop converts the row: a row with a time has a date and a time
    that [strptime] reads, and one hour later is still within year 9999.
    On any other row the loop raises. *)
Definition migratable (row : Legacy.t) : Prop :=
  match Legacy.time row with
  | Some t =>
      t ≠ "" →
      ∃ s, strptime (legacy_start (Legacy.date row) t) = Some s
           ∧ (date_ord s < MAXORDINAL ∨ time_us s < time_of 23 0 0 0)
  | None => True
  end.

Definition all_day (date : string) (new : Event.t) : Prop :=
  Event.start_datetime new = date +:+ " 09:00:00"
  ∧ Event.end_datetime new = date +:+ " 17:00:00".

(** The start is the text of the legacy row, as it is; the end is in the
    format of the application, one hour after what [strptime] reads in
    the start. *)
Definition one_hour (date t : string) (new : Event.t) : Prop :=
  Event.start_datetime new = legacy_start date t
  ∧ ∃ s e, strptime (Event.start_datetime new) = Some s
           ∧ strptime_datetime (Event.end_datetime new) = Some e
           ∧ sub e s = timedelta_hours 1.

(** [new] is the row the migration writes for the legacy row [old]. *)
Definition migrated (old : Legacy.t) (new : Event.t) : Prop :=
  Event.id new = Legacy.id old
  ∧ Event.created_at new = Legacy.created_at old
  ∧ Event.title new = Legacy.title old
  ∧ Event.description new = Legacy.description old
  ∧ Event.tag new = None
  ∧ match Legacy.time old with
    | Some t =>
        if String.eqb t "" then all_day (Legacy.date old) new
        else one_hour (Legacy.date old) t new
    | None => all_day (Legacy.date old) new
    end.

End Vocabulary.

(** Midnight of the day with ordinal [D], and its key in the result. *)
Definition day (D : Z) : Datetime.datetime := Datetime.mk_datetime D 0.
Definition day_key (D : Z) : string := strftime_date (day D).

(** The part of the interval from [s] to [t] the loop credits to day [D],
    if any. *)
Definition clipped (s t : Datetime.datetime) (D : Z)
  : option Datetime.timedelta :=
  let day_start := Datetime.combine (day D) Datetime.time_min in
  let day_end := Datetime.combine (day D) Datetime.time_max in
  if Datetime.leb s day_end && Datetime.leb day_start t
  then Some (Datetime.sub (Datetime.min t day_end) (Datetime.max s day_start))
  else None.

(** Events the query of [get_tag_hours_for_week] selects, in its order. *)
Definition selected_events (start_date end_date : string) (db : database)
  : list Event.t :=
  order_by by_start_datetime
    (List.filter (λ e, String.ltb (Event.start_datetime e) end_date
                       && String.ltb start_date (Event.end_datetime e))
                 (events db)).

Definition parses (e : Event.t) : Prop :=
  is_Some (strptime_datetime (Event.start_datetime e))
  ∧ is_Some (strptime_datetime (Event.end_datetime e)).

Section Credit.
Context {hnum : Type} {arith : HourArith hnum}.

(** [bucket[tag] += hours] on a bucket that starts tags at 0. *)
Definition add_hours (tag : string) (td : Datetime.timedelta)
    (bucket : gmap string hnum) : gmap string hnum :=
  <[tag := hadd (default hzero (bucket !! tag)) (hours_of td)]> bucket.

Definition credit (s t : Datetime.datetime) (tag : string) (D : Z)
    (bucket : gmap string hnum) : gmap string hnum :=
  match clipped s t D with
  | Some td => add_hours tag td bucket
  | None => bucket
  end.

(** What one event adds to the bucket of day [D]. *)
Definition event_credit (D : Z) (bucket : gmap string hnum) (e : Event.t)
  : gmap string hnum :=
  match strptime_datetime (Event.start_datetime e),
        strptime_datetime (Event.end_datetime e) with
  | Some s, Some t => credit s t (bucket_tag (Event.tag e)) D bucket
  | _, _ => bucket
  end.

End Credit.

(** [result[date][tag]] of a returned table. *)
Definition hours_on {hnum : Type} (result : option (gmap string (gmap string hnum)))
    (date tag : string) : option hnum :=
  match result with
  | Some r => match r !! date with Some bucket => bucket !! tag | None => None end
  | None => None
  end.

(** The two overlapping events of the example, whatever their other
    columns hold. *)
Definition overlapping_events (id1 id2 : Z) (title1 title2 : string)
    (description1 description2 created1 created2 : option string)
  : list Event.t :=
  [ Event.mk id1 "2024-06-01 10:00:00" "2024-06-01 12:00:00" title1
             description1 (Some "Work") created1;
    Event.mk id2 "2024-06-01 11:00:00" "2024-06-01 13:00:00" title2
             description2 (Some "Work") created2 ].

(** The seven-day ranges that contain 2024-06-01. *)
Definition weeks_with_june_first : list (string * string) :=
  [ ("2024-05-26", "2024-06-02"); ("2024-05-27", "2024-06-03");
    ("2024-05-28", "2024-06-04"); ("2024-05-29", "2024-06-05");
    ("2024-05-30", "2024-06-06"); ("2024-05-31", "2024-06-07");
    ("2024-06-01", "2024-06-08") ].

(** The event of 2024-06-01 23:00 to 2024-06-02 01:00. *)
Definition midnight_event : Event.t :=
  Event.mk 1 "2024-06-01 23:00:00" "2024-06-02 01:00:00" "Night shift"
           (Some "") (Some "Work") None.

Definition midnight_db : database := mk_db [midnight_event] 1 [] 0.





Definition legacy_example : legacy_database :=
  mk_legacy_db
    [Legacy.mk 7 "2024-01-01" (Some "14:30") "Dentist" None
               (Some "2023-12-30 18:02:11");
     Legacy.mk 8 "2024-1-5" (Some "9:05") "Run" None None;
     Legacy.mk 9 "2024-01-01" None "Holiday" (Some "") None]
    [] 0.

(** A weekend trip, and a meeting on the Monday after it. *)
Definition trip : Event.t :=
  Event.mk 1 "2024-06-01 18:00:00" "2024-06-03 09:30:00" "Trip" (Some "")
           (Some "Personal") None.

Definition meeting : Event.t :=
  Event.mk 2 "2024-06-03 09:00:00" "2024-06-03 10:00:00" "Meeting" (Some "")
           (Some "Work") None.

Definition tagged_db : database :=
  mk_db [meeting; trip] 2
        [Tag.mk 1 "Work" "#007bff" 1 None; Tag.mk 2 "Personal" "#28a745" 2 None]
        2.

(** The order index [reorder_loop] leaves on the tag [id] that had [o]. *)
Fixpoint reordered_index (index : Z) (tag_ids : list Z) (id o : Z) : Z :=
  match tag_ids with
  | [] => o
  | tag_id :: rest =>
      reordered_index (index + 1) rest id
                      (if Z.eqb id tag_id then index + 1 else o)
  end.

Definition set_order_index (t : Tag.t) (o : Z) : Tag.t :=
  Tag.mk (Tag.id t) (Tag.name t) (Tag.color t) o (Tag.created_at t).

(** The order index [add_tag] binds to its [INSERT]: the one given, or
    one more than the greatest of the table. *)
Definition bound_order_index (order_index : option Z) (db : database) : Z :=
  match order_index with
  | Some order_index => order_index
  | None => or_zero (sql_max (map Tag.order_index (tags db))) + 1
  end.

(** One more than any of the order indices can be stored: they are
    integers SQLite stores, and the greatest such integer, [2 ^ 63 - 1],
    is not among them. *)
Definition order_index_left (existing : list Z) : Prop :=
  Forall (λ o, - 2 ^ 63 <= o < 2 ^ 63 - 1) existing.

(** The rows of an [AUTOINCREMENT] table: distinct ids, none above the
    counter. *)
Definition rowids_ok (ids : list Z) (seq : Z) : Prop :=
  List.NoDup ids ∧ Forall (λ i, i <= seq) ids.

(** What the two tables keep: the ids of each are distinct and within its
    counter, and the names of the tags are distinct. *)
Definition store_ok (db : database) : Prop :=
  rowids_ok (map Event.id (events db)) (events_seq db)
  ∧ rowids_ok (map Tag.id (tags db)) (tags_seq db)
  ∧ List.NoDup (map Tag.name (tags db)).

(** The order index of a call of [add_tag] can be stored: the one given
    is an integer SQLite stores, or, when none is given, one more than any
    of the table is. *)
Definition order_index_fits (order_index : option Z) (tgs : list Tag.t)
  : Prop :=
  match order_index with
  | Some order_index => sqlite_int order_index = true
  | None => order_index_left (map Tag.order_index tgs)
  end.


(** The row an entry of [tags.json] is inserted as, when it can be: it has
    a name and a colour, and its order, 0 when the key is missing, is an
    integer SQLite stores. *)
Definition json_entry (tag : json_tag) : option (string * string * Z) :=
  match json_name tag, json_color tag, default (Some 0) (json_order tag) with
  | Some name, Some color, Some order =>
      if sqlite_int order then Some (name, color, order) else None
  | _, _, _ => None
  end.

(** The entries of [tags.json], when each of them can be inserted and no
    name comes twice. *)
Definition importable_tags (tags : list json_tag)
  : option (list (string * string * Z)) :=
  match mapM json_entry tags with
  | Some entries =>
      if bool_decide (NoDup (map (λ x, x.1.1) entries)) then Some entries
      else None
  | None => None
  end.

(** What the tags table is seeded with: all of [tags.json], or the four
    default tags. *)
Definition seeded (tags_file : tags_json) : list (string * string * Z) :=
  match tags_file with
  | TagsFile tags => default default_tags (importable_tags tags)
  | _ => default_tags
  end.

(** The rows of the entries, numbered from [k + 1]. *)
Fixpoint number_rows (now : string) (k : Z) (entries : list (string * string * Z))
  : list Tag.t :=
  match entries with
  | [] => []
  | (name, color, order) :: rest =>
      Tag.mk (k + 1) name color order (Some now) :: number_rows now (k + 1) rest
  end.

(** A database file with no table, and a [tags.json] whose third entry
    repeats the name of the first. *)
Definition new_file : db_file := mk_db_file NoEventsTable None.

Definition json_with_a_duplicate : tags_json :=
  TagsFile [ mk_json_tag (Some "Study") (Some "#111111") (Some (Some 1));
             mk_json_tag (Some "Sport") (Some "#222222") None;
             mk_json_tag (Some "Study") (Some "#333333") (Some (Some 3)) ].

(** The tables the file holds in the current schema are well-formed. *)
Definition file_ok (file : db_file) : Prop :=
  match file_events file with
  | CurrentEvents rows seq => rowids_ok (map Event.id rows) seq
  | _ => True
  end
  ∧ match file_tags file with
    | Some table =>
        rowids_ok (map Tag.id table.1) table.2
        ∧ List.NoDup (map Tag.name table.1)
    | None => True
    end.

(** The microseconds of the interval from [s] to [t] the loop credits to
    day [D], a day from that of [s] to that of [t]: every day but the last
    stops at 23:59:59.999999. *)
Definition day_part (s t : Datetime.datetime) (D : Z) : Datetime.timedelta :=
  (if decide (D = Datetime.date_ord t) then Datetime.time_us t
   else Datetime.US_PER_DAY - 1)
  - (if decide (D = Datetime.date_ord s) then Datetime.time_us s else 0).

(** [f D + f (D + 1) + ...], [n] terms. *)
Fixpoint sum_days (f : Z → Z) (D : Z) (n : nat) : Z :=
  match n with
  | O => 0
  | S n' => f D + sum_days f (D + 1) n'
  end.

(** The trip alone, and an event that ends before it starts. *)
Definition trip_db : database := mk_db [trip] 1 [] 0.

Definition reversed_event : Event.t :=
  Event.mk 1 "2024-06-01 12:00:00" "2024-06-01 10:00:00" "Backwards" (Some "")
           (Some "Work") None.

Definition reversed_db : database := mk_db [reversed_event] 1 [] 0.

(** * Calendar text, parsed and printed *)

Example strptime_example :
  Timestamp.strptime_datetime "2024-06-01 10:00:00"
  = Some (Datetime.mk_datetime 739038 36000000000).
Proof. reflexivity. Qed.

Example strftime_example :
  Timestamp.strftime_datetime (Datetime.mk_datetime 739038 36000000000)
  = "2024-06-01 10:00:00".
Proof. reflexivity. Qed.

(** * Facts about fixed-width decimal fields *)

Module DigitsFacts.
Import Digits.

#[local] Arguments digit_char : simpl never.
#[local] Arguments digit_val : simpl never.
#[local] Arguments Z.pow : simpl never.
#[local] Arguments Z.div : simpl never.
#[local] Arguments Z.modulo : simpl never.
#[local] Arguments Z.mul : simpl never.
#[local] Arguments Z.add : simpl never.

Lemma digit_cases d :
  0 <= d < 10 →
  d = 0 ∨ d = 1 ∨ d = 2 ∨ d = 3 ∨ d = 4 ∨ d = 5 ∨ d = 6 ∨ d = 7 ∨ d = 8 ∨ d = 9.
Proof. lia. Qed.

Ltac each_digit d H :=
  let C := fresh "C" in
  pose proof (digit_cases d H) as C;
  repeat (destruct C as [C | C]; [subst d | ]); [.. | subst d].

Lemma digit_val_char d : 0 <= d < 10 → digit_val (digit_char d) = Some d.
Proof. intros H. each_digit d H; reflexivity. Qed.

Lemma digit_val_inv c d :
  digit_val c = Some d → 0 <= d < 10 ∧ c = digit_char d.
Proof.
  unfold digit_val, digit_char.
  destruct (_ && _) eqn:E; [ | discriminate ].
  intros [= <-]. apply andb_true_iff in E as [E1 E2].
  apply Z.leb_le in E1, E2. split; [lia | ].
  replace (48 + (Z.of_N (N_of_ascii c) - 48)) with (Z.of_N (N_of_ascii c)) by lia.
  now rewrite N2Z.id, ascii_N_embedding.
Qed.

Lemma digit_compare a b :
  0 <= a < 10 → 0 <= b < 10 →
  Ascii.compare (digit_char a) (digit_char b) = (a ?= b).
Proof.
  intros Ha Hb. each_digit a Ha; each_digit b Hb; reflexivity.
Qed.

Lemma pow10_pos w : 0 < 10 ^ Z.of_nat w.
Proof. apply Z.pow_pos_nonneg; lia. Qed.

Lemma pow10_succ w : 10 ^ Z.of_nat (S w) = 10 * 10 ^ Z.of_nat w.
Proof. rewrite Nat2Z.inj_succ, Z.pow_succ_r; lia. Qed.

(** The leading digit and the rest of a [S w]-digit number. *)
Lemma split_bounds w n :
  0 <= n < 10 ^ Z.of_nat (S w) →
  0 <= n / 10 ^ Z.of_nat w < 10
  ∧ 0 <= n mod 10 ^ Z.of_nat w < 10 ^ Z.of_nat w
  ∧ n = 10 ^ Z.of_nat w * (n / 10 ^ Z.of_nat w) + n mod 10 ^ Z.of_nat w.
Proof.
  rewrite pow10_succ. pose proof (pow10_pos w) as P. intros H.
  pose proof (Z.div_mod n (10 ^ Z.of_nat w) ltac:(lia)) as E.
  pose proof (Z.mod_pos_bound n (10 ^ Z.of_nat w) P) as B.
  repeat split; try lia.
  - apply Z.div_pos; lia.
  - apply Z.div_lt_upper_bound; lia.
Qed.

Lemma zpad_length w n : String.length (zpad w n) = w.
Proof. revert n. induction w as [ | w IH]; intros n; simpl; [ | rewrite IH ]; reflexivity. Qed.

Lemma read_digits_zpad w n acc rest :
  0 <= n < 10 ^ Z.of_nat w →
  read_digits w acc (zpad w n +:+ rest) = Some (acc * 10 ^ Z.of_nat w + n, rest).
Proof.
  revert n acc. induction w as [ | w IH]; intros n acc H.
  - simpl in *. f_equal. f_equal. lia.
  - destruct (split_bounds w n H) as (Hq & Hr & E).
    simpl. rewrite digit_val_char by exact Hq.
    rewrite IH by exact Hr. f_equal. f_equal.
    rewrite pow10_succ. lia.
Qed.

Lemma read_digits_inv w acc s v rest :
  read_digits w acc s = Some (v, rest) →
  ∃ n, 0 <= n < 10 ^ Z.of_nat w
       ∧ v = acc * 10 ^ Z.of_nat w + n ∧ s = zpad w n +:+ rest.
Proof.
  revert acc s v. induction w as [ | w IH]; intros acc s v H.
  - simpl in H. injection H as <- <-. exists 0. simpl. split; [lia | split; [lia | reflexivity]].
  - cbn [read_digits] in H. destruct s as [ | c s]; [discriminate | ].
    destruct (digit_val c) as [d | ] eqn:Ed; [ | discriminate ].
    apply digit_val_inv in Ed as [Hd ->].
    apply IH in H as (n & Hn & -> & ->).
    pose proof (pow10_pos w) as P.
    exists (10 ^ Z.of_nat w * d + n). rewrite pow10_succ.
    split; [nia | split; [lia | ]].
    simpl.
    replace ((10 ^ Z.of_nat w * d + n) / 10 ^ Z.of_nat w) with d.
    2:{ apply Z.div_unique with n; lia. }
    replace ((10 ^ Z.of_nat w * d + n) mod 10 ^ Z.of_nat w) with n.
    2:{ apply Z.mod_unique with d; lia. }
    reflexivity.
Qed.

(** Byte order on two fields of the same width is numeric order. *)
Lemma zpad_compare w a b s t :
  0 <= a < 10 ^ Z.of_nat w → 0 <= b < 10 ^ Z.of_nat w →
  String.compare (zpad w a +:+ s) (zpad w b +:+ t)
  = match a ?= b with Eq => String.compare s t | c => c end.
Proof.
  revert a b. induction w as [ | w IH]; intros a b Ha Hb.
  - simpl in *. replace a with 0 by lia. replace b with 0 by lia. reflexivity.
  - destruct (split_bounds w a Ha) as (Hqa & Hra & Ea).
    destruct (split_bounds w b Hb) as (Hqb & Hrb & Eb).
    pose proof (pow10_pos w) as P.
    simpl.
    rewrite digit_compare by assumption.
    destruct (Z.compare_spec (a / 10 ^ Z.of_nat w) (b / 10 ^ Z.of_nat w)) as [E | L | L].
    + rewrite IH by assumption.
      assert ((a ?= b) = (a mod 10 ^ Z.of_nat w ?= b mod 10 ^ Z.of_nat w)) as ->.
      { rewrite Ea at 1. rewrite Eb at 1. rewrite E. apply Z.add_compare_mono_l. }
      reflexivity.
    + assert (a < b) as Hlt by nia. apply Z.compare_lt_iff in Hlt. now rewrite Hlt.
    + assert (b < a) as Hlt by nia. apply Z.compare_gt_iff in Hlt. now rewrite Hlt.
Qed.

Lemma app_cons c (s t : string) : String c s +:+ t = String c (s +:+ t).
Proof. reflexivity. Qed.

Lemma app_nil (t : string) : "" +:+ t = t.
Proof. reflexivity. Qed.

Lemma app_nil_r (s : string) : s +:+ "" = s.
Proof.
  induction s as [ | x s IH]; [reflexivity | ].
  now rewrite app_cons, IH.
Qed.

Lemma app_assoc (a b c : string) : (a +:+ b) +:+ c = a +:+ (b +:+ c).
Proof.
  induction a as [ | x a IH]; [reflexivity | ].
  now rewrite !app_cons, IH.
Qed.

Lemma expect_inv c s rest : expect c s = Some rest → s = String c rest.
Proof.
  destruct s as [ | c' s]; simpl; [discriminate | ].
  destruct (Ascii.eqb_spec c c') as [-> | ]; [ | discriminate ].
  now intros [= ->].
Qed.

Lemma at_end_inv s : at_end s = Some tt → s = "".
Proof. destruct s; [reflexivity | discriminate]. Qed.

End DigitsFacts.

(** * Facts about the calendar *)

Module CalendarFacts.
Import Calendar CalendarSpec.

Lemma month_day_table :
  forallb (λ i, month_day_ok false (Z.of_nat i) && month_day_ok true (Z.of_nat i))
          (seq 0 365) = true.
Proof. vm_compute. reflexivity. Qed.

Lemma month_day_spec leap n :
  0 <= n < 365 →
  let '(m, d) := month_day leap n in
  1 <= m <= 12 ∧ 1 <= d
  ∧ d <= (if (m =? 2) && leap then 29 else DAYS_IN_MONTH m)
  ∧ DAYS_BEFORE_MONTH m + (if (2 <? m) && leap then 1 else 0) + d = n + 1.
Proof.
  intros H.
  pose proof (proj1 (forallb_forall _ _) month_day_table (Z.to_nat n)) as T.
  cbv beta in T. rewrite Z2Nat.id in T by lia.
  assert (month_day_ok leap n = true) as Ok.
  { apply andb_true_iff in T as [T1 T2]; [ | apply in_seq; lia ].
    now destruct leap. }
  unfold month_day_ok in Ok. destruct (month_day leap n) as [m d].
  repeat (apply andb_true_iff in Ok as [Ok ?]).
  repeat match goal with
         | H : (_ <=? _) = true |- _ => apply Z.leb_le in H
         | H : (_ =? _) = true |- _ => apply Z.eqb_eq in H
         end.
  lia.
Qed.

Lemma is_leap_spec y :
  is_leap y = true ↔ y mod 4 = 0 ∧ (y mod 100 ≠ 0 ∨ y mod 400 = 0).
Proof.
  unfold is_leap.
  destruct (Z.eqb_spec (y mod 4) 0), (Z.eqb_spec (y mod 100) 0),
    (Z.eqb_spec (y mod 400) 0); simpl; split; intros; try lia; try discriminate;
    try reflexivity.
Qed.

Lemma days_before_year_succ y :
  days_before_year (y + 1) = days_before_year y + 365 + leap_day (is_leap y).
Proof.
  unfold days_before_year, leap_day.
  replace (y + 1 - 1) with y by lia.
  destruct (is_leap y) eqn:L.
  - apply is_leap_spec in L. Z.div_mod_to_equations. lia.
  - assert (¬ (y mod 4 = 0 ∧ (y mod 100 ≠ 0 ∨ y mod 400 = 0))) as N.
    { rewrite <- is_leap_spec, L. discriminate. }
    Z.div_mod_to_equations. lia.
Qed.

Lemma days_before_year_mono y1 y2 :
  y1 <= y2 → days_before_year y1 <= days_before_year y2.
Proof. unfold days_before_year. intros H. Z.div_mod_to_equations. lia. Qed.

Lemma ord2ymd_unfold n :
  ord2ymd n =
  let n0 := n - 1 in
  let n400 := n0 / 146097 in
  let r400 := n0 mod 146097 in
  let n100 := r400 / 36524 in
  let r100 := r400 mod 36524 in
  let n4 := r100 / 1461 in
  let r4 := r100 mod 1461 in
  let n1 := r4 / 365 in
  let r1 := r4 mod 365 in
  let year := n400 * 400 + 1 + n100 * 100 + n4 * 4 + n1 in
  if (n1 =? 4) || (n100 =? 4) then (year - 1, 12, 31)
  else
    let '(m, d) :=
      month_day ((n1 =? 3) && (negb (n4 =? 24) || (n100 =? 3))) r1 in
    (year, m, d).
Proof.
  unfold ord2ymd, month_day, DI400Y, DI100Y, DI4Y. cbv zeta.
  destruct (_ || _); [reflexivity | ].
  destruct (_ <? _); reflexivity.
Qed.

Lemma days_before_year_cycles n400 n100 n4 n1 :
  0 <= n100 <= 3 → 0 <= n4 <= 24 → 0 <= n1 <= 3 →
  days_before_year (n400 * 400 + 1 + n100 * 100 + n4 * 4 + n1)
  = 146097 * n400 + 36524 * n100 + 1461 * n4 + 365 * n1.
Proof.
  intros H100 H4 H1. unfold days_before_year. Z.div_mod_to_equations. lia.
Qed.

Lemma is_leap_cycles n400 n100 n4 n1 :
  0 <= n100 <= 3 → 0 <= n4 <= 24 → 0 <= n1 <= 3 →
  is_leap (n400 * 400 + 1 + n100 * 100 + n4 * 4 + n1)
  = (n1 =? 3) && (negb (n4 =? 24) || (n100 =? 3)).
Proof.
  intros H100 H4 H1. apply Bool.eq_iff_eq_true.
  rewrite is_leap_spec, andb_true_iff, orb_true_iff, negb_true_iff,
    Z.eqb_neq, !Z.eqb_eq.
  Z.div_mod_to_equations. lia.
Qed.

(** [ord2ymd] yields a date of the calendar, and [ymd2ord] undoes it. *)
Lemma ord2ymd_spec n :
  1 <= n →
  let '(y, m, d) := ord2ymd n in
  1 <= y ∧ 1 <= m <= 12 ∧ 1 <= d <= days_in_month y m ∧ ymd2ord y m d = n.
Proof.
  intros Hn. rewrite ord2ymd_unfold. cbv zeta.
  set (n0 := n - 1).
  set (n400 := n0 / 146097). set (r400 := n0 mod 146097).
  set (n100 := r400 / 36524). set (r100 := r400 mod 36524).
  set (n4 := r100 / 1461). set (r4 := r100 mod 1461).
  set (n1 := r4 / 365). set (r1 := r4 mod 365).
  assert (n0 = 146097 * n400 + r400 ∧ 0 <= r400 < 146097 ∧ 0 <= n400) as (E400 & B400 & P400)
    by (subst n400 r400 n0; Z.div_mod_to_equations; lia).
  assert (r400 = 36524 * n100 + r100 ∧ 0 <= r100 < 36524 ∧ 0 <= n100 <= 4) as (E100 & B100 & P100)
    by (subst n100 r100; Z.div_mod_to_equations; lia).
  assert (r100 = 1461 * n4 + r4 ∧ 0 <= r4 < 1461 ∧ 0 <= n4 <= 24) as (E4 & B4 & P4)
    by (subst n4 r4; Z.div_mod_to_equations; lia).
  assert (r4 = 365 * n1 + r1 ∧ 0 <= r1 < 365 ∧ 0 <= n1 <= 4) as (E1 & B1 & P1)
    by (subst n1 r1; Z.div_mod_to_equations; lia).
  clearbody n400 r400 n100 r100 n4 r4 n1 r1. subst n0.
  destruct ((n1 =? 4) || (n100 =? 4)) eqn:Last.
  - (* the last day of a leap year *)
    assert (is_leap (n400 * 400 + 1 + n100 * 100 + n4 * 4 + n1 - 1) = true) as L.
    { apply is_leap_spec. apply orb_true_iff in Last as [E | E];
        apply Z.eqb_eq in E; Z.div_mod_to_equations; lia. }
    unfold ymd2ord, days_in_month, days_before_month, days_before_year.
    rewrite L. simpl.
    apply orb_true_iff in Last as [E | E]; apply Z.eqb_eq in E;
      (split; [lia | split; [lia | split; [lia | ]]]);
      Z.div_mod_to_equations; lia.
  - apply orb_false_iff in Last as [E1' E100']. apply Z.eqb_neq in E1', E100'.
    pose proof (month_day_spec ((n1 =? 3) && (negb (n4 =? 24) || (n100 =? 3))) r1 B1) as MD.
    destruct (month_day _ r1) as [m d].
    unfold ymd2ord, days_in_month, days_before_month.
    rewrite days_before_year_cycles, is_leap_cycles by lia.
    destruct MD as (Hm & Hd1 & Hd2 & Hsum).
    repeat split; try lia.
Qed.

Lemma valid_date_spec y m d :
  valid_date y m d = true
  ↔ 1 <= y <= 9999 ∧ 1 <= m <= 12 ∧ 1 <= d <= days_in_month y m.
Proof.
  unfold valid_date, MINYEAR, MAXYEAR.
  rewrite !andb_true_iff, !Z.leb_le. lia.
Qed.

Lemma month_cases m :
  1 <= m <= 12 →
  m = 1 ∨ m = 2 ∨ m = 3 ∨ m = 4 ∨ m = 5 ∨ m = 6 ∨ m = 7 ∨ m = 8 ∨ m = 9
  ∨ m = 10 ∨ m = 11 ∨ m = 12.
Proof. lia. Qed.

Ltac each_month m H :=
  let C := fresh "C" in
  pose proof (month_cases m H) as C;
  repeat (destruct C as [C | C]; [subst m | ]); [.. | subst m].

(** A month ends before the next one starts. *)
Lemma month_ends_before y m1 m2 :
  1 <= m1 <= 12 → 1 <= m2 <= 12 → m1 < m2 →
  days_before_month y m1 + days_in_month y m1 <= days_before_month y m2.
Proof.
  intros H1 H2 Hlt. unfold days_before_month, days_in_month.
  destruct (is_leap y); each_month m1 H1; each_month m2 H2;
    simpl; lia.
Qed.

Lemma month_in_year y m :
  1 <= m <= 12 →
  0 <= days_before_month y m
  ∧ days_before_month y m + days_in_month y m <= 365 + leap_day (is_leap y).
Proof.
  intros H. unfold days_before_month, days_in_month, leap_day.
  destruct (is_leap y); each_month m H; simpl; lia.
Qed.

Lemma ymd2ord_lt y1 m1 d1 y2 m2 d2 :
  1 <= m1 <= 12 → 1 <= d1 <= days_in_month y1 m1 →
  1 <= m2 <= 12 → 1 <= d2 <= days_in_month y2 m2 →
  date_compare (y1, m1, d1) (y2, m2, d2) = Lt →
  ymd2ord y1 m1 d1 < ymd2ord y2 m2 d2.
Proof.
  intros Hm1 Hd1 Hm2 Hd2. unfold date_compare, ymd2ord.
  destruct (Z.compare_spec y1 y2) as [-> | Hy | Hy]; [ | intros _ | discriminate ].
  - destruct (Z.compare_spec m1 m2) as [-> | Hm | Hm]; [ | intros _ | discriminate ].
    + rewrite Z.compare_lt_iff. lia.
    + pose proof (month_ends_before y2 m1 m2 Hm1 Hm2 Hm). lia.
  - pose proof (month_in_year y1 m1 Hm1) as [_ B1].
    pose proof (month_in_year y2 m2 Hm2) as [B2 _].
    pose proof (days_before_year_succ y1) as S.
    pose proof (days_before_year_mono (y1 + 1) y2 ltac:(lia)). lia.
Qed.

(** On dates of the calendar, the order of the ordinals is the order of
    (year, month, day). *)
Lemma ymd2ord_compare y1 m1 d1 y2 m2 d2 :
  1 <= m1 <= 12 → 1 <= d1 <= days_in_month y1 m1 →
  1 <= m2 <= 12 → 1 <= d2 <= days_in_month y2 m2 →
  (ymd2ord y1 m1 d1 ?= ymd2ord y2 m2 d2)
  = date_compare (y1, m1, d1) (y2, m2, d2).
Proof.
  intros Hm1 Hd1 Hm2 Hd2.
  destruct (date_compare (y1, m1, d1) (y2, m2, d2)) eqn:C.
  - unfold date_compare in C.
    destruct (Z.compare_spec y1 y2) as [-> | | ]; try discriminate.
    destruct (Z.compare_spec m1 m2) as [-> | | ]; try discriminate.
    apply Z.compare_eq in C as ->. apply Z.compare_refl.
  - apply Z.compare_lt_iff. now apply ymd2ord_lt.
  - apply Z.compare_gt_iff. apply ymd2ord_lt; try assumption.
    unfold date_compare in *.
    rewrite (Z.compare_antisym y1 y2), (Z.compare_antisym m1 m2),
      (Z.compare_antisym d1 d2).
    destruct (y1 ?= y2); simpl; try congruence.
    destruct (m1 ?= m2); simpl; try congruence.
    now rewrite C.
Qed.

Lemma ymd2ord_inj y1 m1 d1 y2 m2 d2 :
  1 <= m1 <= 12 → 1 <= d1 <= days_in_month y1 m1 →
  1 <= m2 <= 12 → 1 <= d2 <= days_in_month y2 m2 →
  ymd2ord y1 m1 d1 = ymd2ord y2 m2 d2 → (y1, m1, d1) = (y2, m2, d2).
Proof.
  intros Hm1 Hd1 Hm2 Hd2 E.
  pose proof (ymd2ord_compare y1 m1 d1 y2 m2 d2 Hm1 Hd1 Hm2 Hd2) as C.
  rewrite E, Z.compare_refl in C. unfold date_compare in C.
  destruct (Z.compare_spec y1 y2) as [-> | | ]; try discriminate.
  destruct (Z.compare_spec m1 m2) as [-> | | ]; try discriminate.
  symmetry in C. apply Z.compare_eq in C as ->. reflexivity.
Qed.

Lemma ymd2ord_range y m d :
  valid_date y m d = true → 1 <= ymd2ord y m d <= MAXORDINAL.
Proof.
  rewrite valid_date_spec. intros (Hy & Hm & Hd).
  pose proof (month_in_year y m Hm) as [B1 B2].
  pose proof (days_before_year_succ y) as S.
  pose proof (days_before_year_mono 1 y ltac:(lia)) as Lo.
  pose proof (days_before_year_mono (y + 1) 10000 ltac:(lia)) as Hi.
  unfold ymd2ord, MAXORDINAL.
  change (days_before_year 1) with 0 in Lo.
  change (days_before_year 10000) with 3652059 in Hi.
  unfold leap_day in *. destruct (is_leap y); lia.
Qed.

(** [date.fromordinal] followed by [toordinal], within the range of
    [datetime]. *)
Lemma ord2ymd_valid n :
  1 <= n <= MAXORDINAL →
  let '(y, m, d) := ord2ymd n in
  valid_date y m d = true ∧ ymd2ord y m d = n.
Proof.
  intros [Lo Hi]. pose proof (ord2ymd_spec n Lo) as S.
  destruct (ord2ymd n) as [[y m] d]. destruct S as (Hy & Hm & Hd & E).
  split; [ | exact E ]. apply valid_date_spec. repeat split; try lia.
  destruct (Z_le_gt_dec y 9999) as [ | Big]; [assumption | exfalso].
  pose proof (days_before_year_mono 10000 y ltac:(lia)) as M.
  change (days_before_year 10000) with 3652059 in M.
  pose proof (month_in_year y m Hm) as [B _].
  unfold ymd2ord, MAXORDINAL in *. lia.
Qed.

Lemma ord2ymd_ymd2ord y m d :
  valid_date y m d = true → ord2ymd (ymd2ord y m d) = (y, m, d).
Proof.
  intros V. pose proof (ymd2ord_range y m d V) as R.
  pose proof (ord2ymd_valid _ R) as S.
  destruct (ord2ymd (ymd2ord y m d)) as [[y' m'] d'].
  destruct S as [V' E].
  apply valid_date_spec in V as (? & ? & ?), V' as (? & ? & ?).
  now apply ymd2ord_inj.
Qed.

End CalendarFacts.

(** * Facts about timestamps as text *)

Module TimestampFacts.
Import Digits Calendar Datetime Timestamp.
Import CalendarSpec TimestampSpec DigitsFacts CalendarFacts.

#[local] Arguments zpad : simpl never.
#[local] Arguments read_digits : simpl never.

Lemma date_text_app y m d r r' :
  date_text y m d r +:+ r' = date_text y m d (r +:+ r').
Proof. unfold date_text. now rewrite !app_assoc, !app_cons, !app_assoc, !app_cons, !app_assoc. Qed.

Lemma time_text_app hh mm ss r r' :
  time_text hh mm ss r +:+ r' = time_text hh mm ss (r +:+ r').
Proof. unfold time_text. now rewrite !app_assoc, !app_cons, !app_assoc, !app_cons, !app_assoc. Qed.

Lemma read_date_inv s y m d rest :
  read_date s = Some (y, m, d, rest) →
  date_fields y m d ∧ s = date_text y m d rest.
Proof.
  unfold read_date, date_fields, date_text. intros H.
  destruct (read_digits 4 0 s) as [[y' s1] | ] eqn:E1; [ | discriminate ].
  simpl in H. destruct (expect "-" s1) as [s2 | ] eqn:E2; [ | discriminate ].
  simpl in H. destruct (read_digits 2 0 s2) as [[m' s3] | ] eqn:E3; [ | discriminate ].
  simpl in H. destruct (expect "-" s3) as [s4 | ] eqn:E4; [ | discriminate ].
  simpl in H. destruct (read_digits 2 0 s4) as [[d' s5] | ] eqn:E5; [ | discriminate ].
  simpl in H. injection H as -> -> -> ->.
  apply read_digits_inv in E1 as (yn & By & -> & ->).
  apply read_digits_inv in E3 as (mn & Bm & -> & ->).
  apply read_digits_inv in E5 as (dn & Bd & -> & ->).
  apply expect_inv in E2 as ->. apply expect_inv in E4 as ->.
  change (10 ^ Z.of_nat 4) with 10000 in By.
  change (10 ^ Z.of_nat 2) with 100 in Bm, Bd.
  rewrite !Z.mul_0_l, !Z.add_0_l. split; [lia | reflexivity].
Qed.

Lemma read_date_text y m d rest :
  date_fields y m d → read_date (date_text y m d rest) = Some (y, m, d, rest).
Proof.
  intros (By & Bm & Bd). unfold read_date, date_text.
  rewrite read_digits_zpad by exact By. simpl.
  rewrite read_digits_zpad by exact Bm. simpl.
  rewrite read_digits_zpad by exact Bd. simpl.
  rewrite !Z.mul_0_l, !Z.add_0_l. reflexivity.
Qed.

Lemma read_time_inv s hh mm ss rest :
  read_time s = Some (hh, mm, ss, rest) →
  (0 <= hh < 100 ∧ 0 <= mm < 100 ∧ 0 <= ss < 100)
  ∧ s = time_text hh mm ss rest.
Proof.
  unfold read_time, time_text. intros H.
  destruct (read_digits 2 0 s) as [[y' s1] | ] eqn:E1; [ | discriminate ].
  simpl in H. destruct (expect ":" s1) as [s2 | ] eqn:E2; [ | discriminate ].
  simpl in H. destruct (read_digits 2 0 s2) as [[m' s3] | ] eqn:E3; [ | discriminate ].
  simpl in H. destruct (expect ":" s3) as [s4 | ] eqn:E4; [ | discriminate ].
  simpl in H. destruct (read_digits 2 0 s4) as [[d' s5] | ] eqn:E5; [ | discriminate ].
  simpl in H. injection H as -> -> -> ->.
  apply read_digits_inv in E1 as (yn & By & -> & ->).
  apply read_digits_inv in E3 as (mn & Bm & -> & ->).
  apply read_digits_inv in E5 as (dn & Bd & -> & ->).
  apply expect_inv in E2 as ->. apply expect_inv in E4 as ->.
  change (10 ^ Z.of_nat 2) with 100 in By, Bm, Bd.
  rewrite !Z.mul_0_l, !Z.add_0_l. split; [lia | reflexivity].
Qed.

Lemma read_time_text hh mm ss rest :
  0 <= hh < 100 → 0 <= mm < 100 → 0 <= ss < 100 →
  read_time (time_text hh mm ss rest) = Some (hh, mm, ss, rest).
Proof.
  intros Bh Bm Bs. unfold read_time, time_text.
  rewrite read_digits_zpad by exact Bh. simpl.
  rewrite read_digits_zpad by exact Bm. simpl.
  rewrite read_digits_zpad by exact Bs. simpl.
  rewrite !Z.mul_0_l, !Z.add_0_l. reflexivity.
Qed.

Lemma datetime_new_inv y m d hh mm ss dt :
  datetime_new y m d hh mm ss = Some dt →
  valid_date y m d = true ∧ clock hh mm ss
  ∧ dt = mk_datetime (ymd2ord y m d) (time_of hh mm ss 0).
Proof.
  unfold datetime_new, clock.
  destruct (valid_date y m d); [ | discriminate ].
  destruct (_ && _) eqn:E; [ | discriminate ].
  intros [= <-]. rewrite !andb_true_iff, !Z.leb_le in E.
  repeat split; lia.
Qed.

Lemma datetime_new_ok y m d hh mm ss :
  valid_date y m d = true → clock hh mm ss →
  datetime_new y m d hh mm ss
  = Some (mk_datetime (ymd2ord y m d) (time_of hh mm ss 0)).
Proof.
  intros V (Hh & Hm & Hs). unfold datetime_new. rewrite V.
  replace (_ && _) with true; [reflexivity | ].
  symmetry. rewrite !andb_true_iff, !Z.leb_le. lia.
Qed.

Lemma days_in_month_le y m : days_in_month y m <= 31.
Proof.
  unfold days_in_month. destruct (_ && _); [lia | ].
  unfold DAYS_IN_MONTH.
  repeat match goal with |- context [match ?x with _ => _ end] => destruct x end;
    lia.
Qed.

Lemma valid_date_fields y m d : valid_date y m d = true → date_fields y m d.
Proof.
  rewrite valid_date_spec. pose proof (days_in_month_le y m).
  unfold date_fields. lia.
Qed.

Lemma strptime_date_inv s dt :
  strptime_date s = Some dt →
  ∃ y m d, valid_date y m d = true ∧ s = date_text y m d ""
           ∧ dt = mk_datetime (ymd2ord y m d) 0.
Proof.
  unfold strptime_date. intros H.
  destruct (read_date s) as [[[[y m] d] rest] | ] eqn:R; [ | discriminate ].
  simpl in H. destruct (at_end rest) as [[] | ] eqn:E; [ | discriminate ].
  simpl in H. apply at_end_inv in E as ->.
  apply read_date_inv in R as [_ ->].
  apply datetime_new_inv in H as (V & _ & ->).
  exists y, m, d. auto.
Qed.

Lemma strptime_date_text y m d :
  valid_date y m d = true →
  strptime_date (date_text y m d "") = Some (mk_datetime (ymd2ord y m d) 0).
Proof.
  intros V. unfold strptime_date.
  rewrite read_date_text by now apply valid_date_fields. simpl.
  apply datetime_new_ok; [exact V | unfold clock; lia].
Qed.

Lemma strptime_datetime_inv s dt :
  strptime_datetime s = Some dt →
  ∃ y m d hh mm ss,
    valid_date y m d = true ∧ clock hh mm ss
    ∧ s = datetime_text y m d hh mm ss
    ∧ dt = mk_datetime (ymd2ord y m d) (time_of hh mm ss 0).
Proof.
  unfold strptime_datetime. intros H.
  destruct (read_date s) as [[[[y m] d] s1] | ] eqn:R; [ | discriminate ].
  simpl in H. destruct (expect " " s1) as [s2 | ] eqn:E1; [ | discriminate ].
  simpl in H.
  destruct (read_time s2) as [[[[hh mm] ss] s3] | ] eqn:T; [ | discriminate ].
  simpl in H. destruct (at_end s3) as [[] | ] eqn:E; [ | discriminate ].
  simpl in H. apply at_end_inv in E as ->.
  apply read_date_inv in R as [_ ->]. apply expect_inv in E1 as ->.
  apply read_time_inv in T as [_ ->].
  apply datetime_new_inv in H as (V & C & ->).
  exists y, m, d, hh, mm, ss. auto.
Qed.

Lemma strptime_datetime_text y m d hh mm ss :
  valid_date y m d = true → clock hh mm ss →
  strptime_datetime (datetime_text y m d hh mm ss)
  = Some (mk_datetime (ymd2ord y m d) (time_of hh mm ss 0)).
Proof.
  intros V C. unfold strptime_datetime, datetime_text.
  rewrite read_date_text by now apply valid_date_fields. simpl.
  rewrite read_time_text by (unfold clock in C; lia). simpl.
  now apply datetime_new_ok.
Qed.

Lemma strftime_date_ymd y m d t :
  valid_date y m d = true →
  strftime_date (mk_datetime (ymd2ord y m d) t) = date_text y m d "".
Proof.
  intros V. unfold strftime_date, date_text. simpl date_ord.
  rewrite ord2ymd_ymd2ord by exact V.
  now rewrite !app_cons, !app_nil, app_nil_r.
Qed.

Lemma strftime_time_of hh mm ss :
  clock hh mm ss → strftime_time (time_of hh mm ss 0) = time_text hh mm ss "".
Proof.
  intros (Hh & Hm & Hs). unfold strftime_time, time_text, time_of, US_PER_SECOND.
  replace ((((hh * 60 + mm) * 60 + ss) * 1000000 + 0) / 1000000)
    with ((hh * 60 + mm) * 60 + ss) by (Z.div_mod_to_equations; lia).
  replace (((hh * 60 + mm) * 60 + ss) / 3600) with hh
    by (Z.div_mod_to_equations; lia).
  replace (((hh * 60 + mm) * 60 + ss) / 60 mod 60) with mm
    by (Z.div_mod_to_equations; lia).
  replace (((hh * 60 + mm) * 60 + ss) mod 60) with ss
    by (Z.div_mod_to_equations; lia).
  now rewrite !app_cons, !app_nil, app_nil_r.
Qed.

Lemma strftime_datetime_ymd y m d hh mm ss :
  valid_date y m d = true → clock hh mm ss →
  strftime_datetime (mk_datetime (ymd2ord y m d) (time_of hh mm ss 0))
  = datetime_text y m d hh mm ss.
Proof.
  intros V C. unfold strftime_datetime, datetime_text. simpl time_us.
  rewrite strftime_date_ymd, strftime_time_of by assumption.
  now rewrite date_text_app, app_nil, app_cons, app_nil.
Qed.

(** What [strptime] accepts is what [strftime] writes. *)
Lemma strftime_strptime_date s dt :
  strptime_date s = Some dt → strftime_date dt = s.
Proof.
  intros (y & m & d & V & -> & ->)%strptime_date_inv.
  now apply strftime_date_ymd.
Qed.

Lemma strftime_strptime_datetime s dt :
  strptime_datetime s = Some dt → strftime_datetime dt = s.
Proof.
  intros (y & m & d & hh & mm & ss & V & C & -> & ->)%strptime_datetime_inv.
  now apply strftime_datetime_ymd.
Qed.

(** Every whole-second datetime of the supported range is of the form
    [strptime] produces. *)
Lemma datetime_fields dt :
  1 <= date_ord dt <= MAXORDINAL →
  0 <= time_us dt < US_PER_DAY → time_us dt mod US_PER_SECOND = 0 →
  ∃ y m d hh mm ss,
    valid_date y m d = true ∧ clock hh mm ss
    ∧ dt = mk_datetime (ymd2ord y m d) (time_of hh mm ss 0).
Proof.
  destruct dt as [o t]. simpl. intros Ho Ht Hs.
  pose proof (ord2ymd_valid o Ho) as V.
  destruct (ord2ymd o) as [[y m] d]. destruct V as [V E].
  exists y, m, d, (t / US_PER_SECOND / 3600), (t / US_PER_SECOND / 60 mod 60),
    (t / US_PER_SECOND mod 60).
  unfold clock, time_of, US_PER_DAY, US_PER_SECOND in *.
  split; [exact V | ]. split; [Z.div_mod_to_equations; lia | ].
  f_equal; [now symmetry | ]. Z.div_mod_to_equations. lia.
Qed.

Lemma strptime_strftime_datetime dt :
  1 <= date_ord dt <= MAXORDINAL →
  0 <= time_us dt < US_PER_DAY → time_us dt mod US_PER_SECOND = 0 →
  strptime_datetime (strftime_datetime dt) = Some dt.
Proof.
  intros Ho Ht Hs.
  destruct (datetime_fields dt Ho Ht Hs)
    as (y & m & d & hh & mm & ss & V & C & ->).
  rewrite strftime_datetime_ymd by assumption.
  now apply strptime_datetime_text.
Qed.

(** *** Byte order against time order *)

Lemma compare_cons c s t :
  String.compare (String c s) (String c t) = String.compare s t.
Proof.
  simpl. unfold Ascii.compare. now rewrite N.compare_refl.
Qed.

Lemma date_text_compare y1 m1 d1 r1 y2 m2 d2 r2 :
  date_fields y1 m1 d1 → date_fields y2 m2 d2 →
  String.compare (date_text y1 m1 d1 r1) (date_text y2 m2 d2 r2)
  = match date_compare (y1, m1, d1) (y2, m2, d2) with
    | Eq => String.compare r1 r2
    | c => c
    end.
Proof.
  intros (By1 & Bm1 & Bd1) (By2 & Bm2 & Bd2). unfold date_text, date_compare.
  rewrite zpad_compare by assumption.
  destruct (y1 ?= y2); try reflexivity.
  rewrite compare_cons, zpad_compare by assumption.
  destruct (m1 ?= m2); try reflexivity.
  rewrite compare_cons, zpad_compare by assumption.
  reflexivity.
Qed.

Lemma time_text_compare h1 m1 s1 r1 h2 m2 s2 r2 :
  clock h1 m1 s1 → clock h2 m2 s2 →
  String.compare (time_text h1 m1 s1 r1) (time_text h2 m2 s2 r2)
  = match clock_compare (h1, m1, s1) (h2, m2, s2) with
    | Eq => String.compare r1 r2
    | c => c
    end.
Proof.
  intros (Bh1 & Bm1 & Bs1) (Bh2 & Bm2 & Bs2). unfold time_text, clock_compare.
  change 100 with (10 ^ Z.of_nat 2) in *.
  rewrite zpad_compare by (change (10 ^ Z.of_nat 2) with 100; lia).
  destruct (h1 ?= h2); try reflexivity.
  rewrite compare_cons, zpad_compare by (change (10 ^ Z.of_nat 2) with 100; lia).
  destruct (m1 ?= m2); try reflexivity.
  rewrite compare_cons, zpad_compare by (change (10 ^ Z.of_nat 2) with 100; lia).
  reflexivity.
Qed.

Lemma time_of_compare h1 m1 s1 h2 m2 s2 :
  clock h1 m1 s1 → clock h2 m2 s2 →
  (time_of h1 m1 s1 0 ?= time_of h2 m2 s2 0)
  = clock_compare (h1, m1, s1) (h2, m2, s2).
Proof.
  intros (Bh1 & Bm1 & Bs1) (Bh2 & Bm2 & Bs2).
  unfold clock_compare, time_of, US_PER_SECOND.
  destruct (Z.compare_spec h1 h2) as [-> | | ];
    [destruct (Z.compare_spec m1 m2) as [-> | | ];
       [destruct (Z.compare_spec s1 s2) as [-> | | ] | .. ] | .. ];
    first [ apply Z.compare_refl
          | apply Z.compare_lt_iff; lia
          | apply Z.compare_gt_iff; lia ].
Qed.

Lemma valid_date_bounds y m d :
  valid_date y m d = true → 1 <= m <= 12 ∧ 1 <= d <= days_in_month y m.
Proof. rewrite valid_date_spec. tauto. Qed.

(** SQLite orders two stored timestamps as [datetime] orders their
    values. *)
Lemma strptime_datetime_compare s1 s2 a b :
  strptime_datetime s1 = Some a → strptime_datetime s2 = Some b →
  String.compare s1 s2 = Datetime.compare a b.
Proof.
  intros (y1 & m1 & d1 & hh1 & mm1 & ss1 & V1 & C1 & -> & ->)%strptime_datetime_inv
         (y2 & m2 & d2 & hh2 & mm2 & ss2 & V2 & C2 & -> & ->)%strptime_datetime_inv.
  unfold datetime_text, Datetime.compare. simpl date_ord. simpl time_us.
  rewrite date_text_compare by now apply valid_date_fields.
  destruct (valid_date_bounds _ _ _ V1), (valid_date_bounds _ _ _ V2).
  rewrite ymd2ord_compare by assumption.
  destruct (date_compare _ _); try reflexivity.
  rewrite compare_cons, time_text_compare, time_of_compare by assumption.
  now destruct (clock_compare _ _).
Qed.

Lemma strptime_date_compare s1 s2 a b :
  strptime_date s1 = Some a → strptime_date s2 = Some b →
  String.compare s1 s2 = (date_ord a ?= date_ord b).
Proof.
  intros (y1 & m1 & d1 & V1 & -> & ->)%strptime_date_inv
         (y2 & m2 & d2 & V2 & -> & ->)%strptime_date_inv.
  simpl date_ord.
  rewrite date_text_compare by now apply valid_date_fields.
  destruct (valid_date_bounds _ _ _ V1), (valid_date_bounds _ _ _ V2).
  rewrite ymd2ord_compare by assumption.
  now destruct (date_compare _ _).
Qed.

(** A timestamp against a bare date: on the same day the longer text is
    the greater. *)
Lemma compare_datetime_date s1 s2 a b :
  strptime_datetime s1 = Some a → strptime_date s2 = Some b →
  String.compare s1 s2
  = match date_ord a ?= date_ord b with Eq => Gt | c => c end.
Proof.
  intros (y1 & m1 & d1 & hh1 & mm1 & ss1 & V1 & C1 & -> & ->)%strptime_datetime_inv
         (y2 & m2 & d2 & V2 & -> & ->)%strptime_date_inv.
  unfold datetime_text. simpl date_ord.
  rewrite date_text_compare by now apply valid_date_fields.
  destruct (valid_date_bounds _ _ _ V1), (valid_date_bounds _ _ _ V2).
  rewrite ymd2ord_compare by assumption.
  now destruct (date_compare _ _).
Qed.

Lemma compare_date_datetime s1 s2 a b :
  strptime_date s1 = Some a → strptime_datetime s2 = Some b →
  String.compare s1 s2
  = match date_ord a ?= date_ord b with Eq => Lt | c => c end.
Proof.
  intros H1 H2. rewrite String.compare_antisym.
  rewrite (compare_datetime_date _ _ _ _ H2 H1), (Z.compare_antisym (date_ord a)).
  now destruct (date_ord a ?= date_ord b).
Qed.

(** *** [strptime] on any text *)

Lemma strptime_inv s dt :
  strptime s = Some dt →
  ∃ y m d hh mm ss,
    valid_date y m d = true ∧ clock hh mm ss
    ∧ dt = mk_datetime (ymd2ord y m d) (time_of hh mm ss 0).
Proof.
  unfold strptime.
  destruct (datetime_re s) as [ | [[[[[[y m] d] hh] mm] ss] rest] _];
    [discriminate | ].
  destruct rest; [ | discriminate ].
  intros H. exists y, m, d, hh, mm, ss. now apply datetime_new_inv.
Qed.

Lemma strptime_range s dt :
  strptime s = Some dt →
  1 <= date_ord dt <= MAXORDINAL
  ∧ 0 <= time_us dt <= time_of 23 59 59 0
  ∧ time_us dt mod US_PER_SECOND = 0.
Proof.
  intros (y & m & d & hh & mm & ss & V & (Hh & Hm & Hs) & ->)%strptime_inv.
  simpl. split; [now apply ymd2ord_range | ].
  unfold time_of, US_PER_SECOND. split; [lia | ].
  Z.div_mod_to_equations. lia.
Qed.

(** The first match of a sequence is the first match of its second part
    after the first match of its first part, when there is one. *)
Lemma m_bind_head {A B} (p : matcher A) (f : A → matcher B) s a r x :
  hd_error (p s) = Some (a, r) → hd_error (f a r) = Some x →
  hd_error (m_bind p f s) = Some x.
Proof.
  unfold m_bind. destruct (p s) as [ | [a' r'] tl]; [discriminate | ].
  intros [= -> ->]. simpl. now destruct (f a r).
Qed.

Lemma strptime_head s y m d hh mm ss :
  hd_error (datetime_re s) = Some (y, m, d, hh, mm, ss, "") →
  strptime s = datetime_new y m d hh mm ss.
Proof.
  unfold strptime. destruct (datetime_re s) as [ | x tl]; [discriminate | ].
  now intros [= ->].
Qed.

Lemma below_cases (P : Z → Prop) (k : nat) :
  (∀ i, (i < k)%nat → P (Z.of_nat i)) → ∀ n, 0 <= n < Z.of_nat k → P n.
Proof.
  intros H n Hn. rewrite <- (Z2Nat.id n) by lia. apply H. lia.
Qed.

Lemma re_Y_zpad y rest :
  0 <= y < 10000 → hd_error (re_Y (zpad 4 y +:+ rest)) = Some (y, rest).
Proof.
  intros Hy.
  assert (zpad 4 y +:+ rest
          = String (digit_char (y / 1000))
              (String (digit_char (y mod 1000 / 100))
                 (String (digit_char (y mod 1000 mod 100 / 10))
                    (String (digit_char (y mod 1000 mod 100 mod 10)) rest))))
    as ->.
  { unfold zpad. change (10 ^ Z.of_nat 3) with 1000.
    change (10 ^ Z.of_nat 2) with 100. change (10 ^ Z.of_nat 1) with 10.
    change (10 ^ Z.of_nat 0) with 1. rewrite Z.div_1_r. reflexivity. }
  assert (∀ k r, 0 <= k < 10 →
            digit 0 9 (String (digit_char k) r) = [(k, r)]) as Digit.
  { intros k r Hk. unfold digit. rewrite digit_val_char by exact Hk.
    destruct (Z.leb_spec 0 k), (Z.leb_spec k 9); try lia. reflexivity. }
  unfold re_Y, m_bind, m_ret.
  do 4 (rewrite Digit by (Z.div_mod_to_equations; lia);
        cbn [flat_map app fst snd]).
  cbn [hd_error]. do 2 f_equal. Z.div_mod_to_equations. lia.
Qed.

Lemma re_m_zpad m rest :
  1 <= m <= 12 → hd_error (re_m (zpad 2 m +:+ rest)) = Some (m, rest).
Proof.
  intros Hm. assert (0 <= m < Z.of_nat 13) as Hn by lia.
  destruct (Z.eq_dec m 0); [lia | ]. clear Hm. revert n.
  pattern m. eapply below_cases; [ | exact Hn ].
  intros i. do 13 (destruct i as [ | i]; [intros _ ?; try reflexivity; lia | ]).
  intros; lia.
Qed.

Lemma re_d_zpad d rest :
  1 <= d <= 31 → hd_error (re_d (zpad 2 d +:+ rest)) = Some (d, rest).
Proof.
  intros Hd. assert (0 <= d < Z.of_nat 32) as Hn by lia.
  destruct (Z.eq_dec d 0); [lia | ]. clear Hd. revert n.
  pattern d. eapply below_cases; [ | exact Hn ].
  intros i. do 32 (destruct i as [ | i]; [intros _ ?; try reflexivity; lia | ]).
  intros; lia.
Qed.

Lemma re_H_zpad hh rest :
  0 <= hh <= 23 → hd_error (re_H (zpad 2 hh +:+ rest)) = Some (hh, rest).
Proof.
  intros Hh. assert (0 <= hh < Z.of_nat 24) as Hn by lia.
  pattern hh. eapply below_cases; [ | exact Hn ].
  intros i. do 24 (destruct i as [ | i]; [intros _; reflexivity | ]).
  intros; lia.
Qed.

Lemma re_M_zpad mm rest :
  0 <= mm <= 59 → hd_error (re_M (zpad 2 mm +:+ rest)) = Some (mm, rest).
Proof.
  intros Hm. assert (0 <= mm < Z.of_nat 60) as Hn by lia.
  pattern mm. eapply below_cases; [ | exact Hn ].
  intros i. do 60 (destruct i as [ | i]; [intros _; reflexivity | ]).
  intros; lia.
Qed.

Lemma re_S_zpad ss rest :
  0 <= ss <= 59 → hd_error (re_S (zpad 2 ss +:+ rest)) = Some (ss, rest).
Proof.
  intros Hs. assert (0 <= ss < Z.of_nat 60) as Hn by lia.
  pattern ss. eapply below_cases; [ | exact Hn ].
  intros i. do 60 (destruct i as [ | i]; [intros _; reflexivity | ]).
  intros; lia.
Qed.

Lemma spaces_one hh rest :
  0 <= hh <= 23 →
  hd_error (spaces (String " " (zpad 2 hh +:+ rest)))
  = Some (tt, zpad 2 hh +:+ rest).
Proof.
  intros Hh. assert (0 <= hh < Z.of_nat 24) as Hn by lia.
  pattern hh. eapply below_cases; [ | exact Hn ].
  intros i. do 24 (destruct i as [ | i]; [intros _; reflexivity | ]).
  intros; lia.
Qed.

(** On text in the format of the application, [strptime] is
    [strptime_datetime]. *)
Lemma strptime_datetime_strptime s dt :
  strptime_datetime s = Some dt → strptime s = Some dt.
Proof.
  intros (y & m & d & hh & mm & ss & V & C & -> & ->)%strptime_datetime_inv.
  pose proof (valid_date_fields _ _ _ V) as (Hy & _ & _).
  pose proof (valid_date_bounds _ _ _ V) as (Hm & Hd).
  pose proof (days_in_month_le y m) as Hd'.
  pose proof C as (Hh & Hmm & Hss).
  rewrite (strptime_head _ y m d hh mm ss); [now apply datetime_new_ok | ].
  unfold datetime_text, date_text, time_text, datetime_re.
  eapply m_bind_head; [now apply re_Y_zpad | ].
  eapply m_bind_head; [reflexivity | ].
  eapply m_bind_head; [apply re_m_zpad; lia | ].
  eapply m_bind_head; [reflexivity | ].
  eapply m_bind_head; [apply re_d_zpad; lia | ].
  eapply m_bind_head; [apply spaces_one; lia | ].
  eapply m_bind_head; [apply re_H_zpad; lia | ].
  eapply m_bind_head; [reflexivity | ].
  eapply m_bind_head; [apply re_M_zpad; lia | ].
  eapply m_bind_head; [reflexivity | ].
  eapply m_bind_head; [apply re_S_zpad; lia | ].
  reflexivity.
Qed.

End TimestampFacts.

(** * Facts about [ORDER BY] *)

Section OrderBy.
Context {A : Type} (le : A → A → bool).
Hypothesis le_total : ∀ a b, le a b = true ∨ le b a = true.
Hypothesis le_trans : ∀ a b c, le a b = true → le b c = true → le a c = true.

Lemma insert_sorted_perm x l : Permutation (x :: l) (insert_sorted le x l).
Proof.
  induction l as [ | y l IH]; simpl; [reflexivity | ].
  destruct (le x y); [reflexivity | ].
  rewrite perm_swap. now constructor.
Qed.

Lemma order_by_perm l : Permutation l (order_by le l).
Proof.
  induction l as [ | x l IH]; simpl; [reflexivity | ].
  rewrite <- insert_sorted_perm. now constructor.
Qed.

Lemma order_by_In x l : In x (order_by le l) ↔ In x l.
Proof.
  split; apply Permutation_in; [symmetry | ]; apply order_by_perm.
Qed.

Lemma insert_sorted_sorted x l :
  StronglySorted (λ a b, le a b = true) l →
  StronglySorted (λ a b, le a b = true) (insert_sorted le x l).
Proof.
  induction 1 as [ | y l S IH F]; simpl.
  - repeat constructor.
  - destruct (le x y) eqn:E.
    + constructor; [now constructor | ].
      constructor; [exact E | ].
      eapply Forall_impl; [exact F | ]. intros z. now apply le_trans.
    + constructor; [exact IH | ].
      eapply Permutation_Forall; [apply insert_sorted_perm | ].
      constructor; [ | exact F].
      destruct (le_total x y) as [Hxy | Hyx]; congruence.
Qed.

Lemma order_by_sorted l : StronglySorted (λ a b, le a b = true) (order_by le l).
Proof.
  induction l as [ | x l IH]; simpl; [constructor | ].
  now apply insert_sorted_sorted.
Qed.

End OrderBy.

Lemma string_leb_trans a b c :
  String.leb a b = true → String.leb b c = true → String.leb a c = true.
Proof.
  intros H1 H2. apply Is_true_true in H1, H2. apply Is_true_true.
  change (String.le a c). now transitivity b.
Qed.

Lemma by_start_datetime_total a b :
  by_start_datetime a b = true ∨ by_start_datetime b a = true.
Proof. apply String.leb_total. Qed.

Lemma by_start_datetime_trans a b c :
  by_start_datetime a b = true → by_start_datetime b c = true →
  by_start_datetime a c = true.
Proof. apply string_leb_trans. Qed.

(** * The tag store and the event store *)


Lemma Forall2_map_same {A} (R : A → A → Prop) (f : A → A) (l : list A) :
  (∀ x, In x l → R x (f x)) → Forall2 R l (map f l).
Proof.
  induction l as [ | x l IH]; intros H; simpl; constructor.
  - apply H. now left.
  - apply IH. intros y Hy. apply H. now right.
Qed.

Lemma update_events_tag_spec new old conn :
  Forall2 (retagged old new) (events (working conn))
          (events (working (update_events_tag new old conn)))
  ∧ tags (working (update_events_tag new old conn)) = tags (working conn)
  ∧ tags_seq (working (update_events_tag new old conn)) = tags_seq (working conn)
  ∧ events_seq (working (update_events_tag new old conn))
    = events_seq (working conn)
  ∧ committed (update_events_tag new old conn) = committed conn.
Proof.
  split; [ | now repeat split ]. simpl.
  apply Forall2_map_same. intros e _. unfold retagged, same_but_tag.
  destruct (decide (Event.tag e = Some old)) as [E | N]; simpl; tauto.
Qed.



Lemma find_id_None tag_id (tgs : list Tag.t) :
  find (λ t, Z.eqb (Tag.id t) tag_id) tgs = None →
  ∀ t, In t tgs → Tag.id t ≠ tag_id.
Proof.
  intros H t Ht E. pose proof (find_none _ _ H t Ht) as N. simpl in N. lia.
Qed.

Lemma unique_name_row (tgs : list Tag.t) a b :
  List.NoDup (map Tag.name tgs) → In a tgs → In b tgs → Tag.name a = Tag.name b →
  a = b.
Proof.
  induction tgs as [ | t tgs IH]; simpl; [tauto | ].
  intros ND Ha Hb E. apply List.NoDup_cons_iff in ND as [Nin ND].
  destruct Ha as [-> | Ha], Hb as [-> | Hb]; auto.
  - exfalso. apply Nin. rewrite E. now apply in_map.
  - exfalso. apply Nin. rewrite <- E. now apply in_map.
Qed.

Lemma existsb_name_true name (tgs : list Tag.t) :
  In name (map Tag.name tgs) →
  existsb (λ t, String.eqb (Tag.name t) name) tgs = true.
Proof.
  intros (t & E & Ht)%in_map_iff. apply existsb_exists. exists t.
  split; [exact Ht | ]. now apply String.eqb_eq.
Qed.

Lemma existsb_name_false name (tgs : list Tag.t) :
  ¬ In name (map Tag.name tgs) →
  existsb (λ t, String.eqb (Tag.name t) name) tgs = false.
Proof.
  intros N. apply not_true_is_false. intros (t & Ht & E)%existsb_exists.
  apply String.eqb_eq in E. apply N. rewrite <- E. now apply in_map.
Qed.

Lemma retagged_none_gone old (l l' : list Event.t) :
  Forall2 (retagged old None) l l' →
  List.filter (λ e, bool_decide (Event.tag e = Some old)) l' = [].
Proof.
  induction 1 as [ | e e' l l' R _ IH]; simpl; [reflexivity | ].
  rewrite IH. destruct R as (_ & Hyes & Hno).
  destruct (decide (Event.tag e = Some old)) as [E | N].
  - rewrite (Hyes E). reflexivity.
  - rewrite (Hno N), bool_decide_eq_false_2 by exact N. reflexivity.
Qed.



(** C6, as the code has it. Adding a tag under a name that is taken
    raises and leaves the database (tags and events) as it was; the
    exception is [DuplicateTag] when the order index the call binds is an
    integer SQLite stores, and the [OverflowError] of the binding when it
    is not, as after a tag whose order index is [2 ^ 63 - 1]. This is
    stated for a table that has a rowid left, where the insert gets as far
    as the constraint. Renaming a tag to the name of another tag raises
    [DuplicateTag] and leaves the database as it was. *)
Theorem duplicate_tag_leaves_state (now name color : string)
    (order_index : option Z) (tag_id : Z) (db : database) :
  (In name (map Tag.name (tags db)) →
   rowid_left (tags_seq db) (map Tag.id (tags db)) →
   add_tag now name color order_index db
   = (db, Raise (if sqlite_int (bound_order_index order_index db)
                 then DuplicateTag name else int_too_large)))
  ∧ (∀ other,
       In tag_id (map Tag.id (tags db)) →
       In other (tags db) → Tag.id other ≠ tag_id → Tag.name other = name →
       update_tag tag_id name color db = (db, Raise (DuplicateTag name))).
Proof.
  split.
  - intros Taken _. unfold add_tag, insert_tag. simpl working.
    fold (bound_order_index order_index db).
    destruct (sqlite_int (bound_order_index order_index db));
      [ | reflexivity ].
    simpl negb. cbv iota. now rewrite (existsb_name_true _ _ Taken).
  - intros other (row & Eid & Hrow)%in_map_iff Hother Nid Ename.
    unfold update_tag, select_tag. simpl working.
    destruct (find _ (tags db)) as [found | ] eqn:Found.
    2:{ exfalso. now apply (find_id_None _ _ Found row). }
    unfold update_tag_row. simpl working.
    assert (existsb (λ t, Tag.id t =? tag_id) (tags db) = true) as ->.
    { apply existsb_exists. exists row. split; [exact Hrow | lia]. }
    assert (existsb (λ t, negb (Tag.id t =? tag_id)
                          && String.eqb (Tag.name t) name) (tags db) = true)
      as ->.
    { apply existsb_exists. exists other. split; [exact Hother | ].
      apply andb_true_iff. split; [apply negb_true_iff; lia | ].
      now apply String.eqb_eq. }
    reflexivity.
Qed.

(** C6 fails after a tag whose order index is the greatest integer SQLite
    stores: the names are unique, the name is taken, and [add_tag] without
    an order index raises [OverflowError], not [DuplicateTag]. *)
Lemma duplicate_tag_overflow_counterexample :
  let db := mk_db [] 0 [Tag.mk 1 "Old" "#000000" (2 ^ 63 - 1) None] 1 in
  List.NoDup (map Tag.name (tags db))
  ∧ In "Old" (map Tag.name (tags db))
  ∧ add_tag "2024-06-01 09:00:00" "Old" "#ffffff" None db
    = (db, Raise int_too_large)
  ∧ int_too_large ≠ DuplicateTag "Old".
Proof.
  split; [repeat constructor; intros [] | ].
  split; [now left | ]. split; [reflexivity | discriminate].
Qed.



(** *** The order index of a new tag *)

Lemma fold_left_max_spec (l : list Z) (x : Z) :
  (fold_left Z.max l x = x ∨ In (fold_left Z.max l x) l)
  ∧ x <= fold_left Z.max l x
  ∧ Forall (λ o, o <= fold_left Z.max l x) l.
Proof.
  revert x. induction l as [ | y l IH]; intros x; simpl.
  - split; [now left | ]. split; [lia | constructor].
  - destruct (IH (Z.max x y)) as (Hin & Hle & Hall).
    split; [ | split; [lia | constructor; [lia | exact Hall]]].
    destruct Hin as [E | Hin]; [ | right; right; exact Hin ].
    destruct (Z.max_spec x y) as [[_ M] | [_ M]]; rewrite M in *.
    + right. left. now symmetry.
    + left. exact E.
Qed.

Lemma sql_max_spec (l : list Z) :
  match sql_max l with
  | None => l = []
  | Some m => In m l ∧ Forall (λ o, o <= m) l
  end.
Proof.
  destruct l as [ | x l]; simpl; [reflexivity | ].
  destruct (fold_left_max_spec l x) as (Hin & Hle & Hall).
  split; [ | now constructor ].
  destruct Hin as [-> | Hin]; [now left | now right].
Qed.

Lemma fold_right_max_greatest (l : list Z) (m : Z) :
  In m l → Forall (λ o, o <= m) l → 0 <= m → fold_right Z.max 0 l = m.
Proof.
  intros Hin Hall Hm.
  assert (fold_right Z.max 0 l <= m) as Up.
  { clear Hin. induction Hall as [ | o l Ho _ IH]; simpl; lia. }
  assert (m <= fold_right Z.max 0 l) as Lo.
  { clear Hall Up. induction l as [ | o l IH]; simpl; [destruct Hin | ].
    destruct Hin as [-> | Hin]; [lia | ]. specialize (IH Hin). lia. }
  lia.
Qed.

Lemma or_zero_Some (m : Z) : or_zero (Some m) = m.
Proof. unfold or_zero. destruct (Z.eqb_spec m 0); congruence. Qed.

Lemma next_order_index_stored (existing : list Z) :
  order_index_left existing →
  sqlite_int (or_zero (sql_max existing) + 1) = true.
Proof.
  intros Left. pose proof (sql_max_spec existing) as M.
  destruct (sql_max existing) as [m | ]; [ | reflexivity ].
  destruct M as [Hin _]. rewrite or_zero_Some.
  unfold order_index_left in Left. rewrite List.Forall_forall in Left.
  specialize (Left m Hin). unfold sqlite_int.
  apply andb_true_iff. split; [apply Z.leb_le | apply Z.ltb_lt]; lia.
Qed.

(** C8, as the code has it. With [order_index] omitted, [add_tag] gives
    the new tag the greatest existing order index plus one, and 1 when
    there is no tag; this is [max(existing order_index, 0) + 1] whenever
    no tag exists or some existing order index is not negative. The tags
    table has a rowid left, and no tag has the order index [2 ^ 63 - 1],
    after which there is none to give. *)
Theorem add_tag_appends_after_greatest (now name color : string)
    (db : database) :
  ¬ In name (map Tag.name (tags db)) →
  order_index_left (map Tag.order_index (tags db)) →
  rowid_left (tags_seq db) (map Tag.id (tags db)) →
  ∃ db' row,
    add_tag now name color None db = (db', Return (Tag.id row))
    ∧ tags db' = tags db ++ [row]
    ∧ Tag.name row = name ∧ Tag.color row = color
    ∧ match tags db with
      | [] => Tag.order_index row = 1
      | _ =>
          ∃ m, In m (map Tag.order_index (tags db))
               ∧ Forall (λ o, o <= m) (map Tag.order_index (tags db))
               ∧ Tag.order_index row = m + 1
      end
    ∧ (tags db = [] ∨ Exists (λ o, 0 <= o) (map Tag.order_index (tags db)) →
       Tag.order_index row = spec_order_index (map Tag.order_index (tags db))).
Proof.
  intros Fresh Left _. unfold add_tag, insert_tag. simpl working.
  rewrite (next_order_index_stored _ Left), (existsb_name_false _ _ Fresh).
  simpl negb. cbv iota.
  eexists.
  exists (Tag.mk (next_rowid (tags_seq db) (map Tag.id (tags db))) name color
            (or_zero (sql_max (map Tag.order_index (tags db))) + 1) (Some now)).
  split; [reflexivity | ]. simpl.
  split; [reflexivity | ]. split; [reflexivity | ]. split; [reflexivity | ].
  pose proof (sql_max_spec (map Tag.order_index (tags db))) as M.
  destruct (sql_max (map Tag.order_index (tags db))) as [m | ] eqn:E.
  - destruct M as [Hin Hall].
    rewrite or_zero_Some.
    split.
    + destruct (tags db); [destruct Hin | ]. exists m. auto.
    + intros [Empty | Pos]; [rewrite Empty in Hin; destruct Hin | ].
      unfold spec_order_index. f_equal. symmetry.
      apply fold_right_max_greatest; try assumption.
      apply Exists_exists in Pos as (o & Ho & Hpos).
      rewrite Forall_forall in Hall. specialize (Hall o Ho). lia.
  - apply map_eq_nil in M. rewrite M. simpl. split; [reflexivity | ].
    intros _. reflexivity.
Qed.

(** C8 fails when every existing order index is negative: after a tag of
    order index -5 the new tag gets -4, where the formula of the
    specification gives 1. *)
Lemma add_tag_negative_order_counterexample :
  let db := mk_db [] 0 [Tag.mk 1 "Old" "#000000" (-5) None] 1 in
  ∃ db' row,
    add_tag "2024-06-01 09:00:00" "New" "#ffffff" None db
    = (db', Return (Tag.id row))
    ∧ tags db' = tags db ++ [row]
    ∧ Tag.order_index row = -4
    ∧ spec_order_index (map Tag.order_index (tags db)) = 1
    ∧ Tag.order_index row ≠ spec_order_index (map Tag.order_index (tags db)).
Proof.
  eexists.
  exists (Tag.mk 2 "New" "#ffffff" (-4) (Some "2024-06-01 09:00:00")).
  split; [reflexivity | ]. split; [reflexivity | ].
  split; [reflexivity | ]. split; [reflexivity | discriminate].
Qed.

(** *** Bulk import *)






Example bulk_add_three_of_four :
  ∃ db',
    bulk_add_events "2024-06-02 08:00:00" four_records None (mk_db [] 0 [] 0)
    = (db', Return 3)
    ∧ map Event.id (events db') = [1; 2; 3]
    ∧ map Event.title (events db') = ["Standup"; "(no title)"; "Gym"].
Proof. eexists. split; [vm_compute; reflexivity | split; reflexivity]. Qed.

(** * Events of a day *)

Module DatetimeFacts.
Import Calendar Datetime.

Lemma leb_spec a b :
  leb a b = true
  ↔ date_ord a < date_ord b ∨ (date_ord a = date_ord b ∧ time_us a <= time_us b).
Proof.
  unfold leb, compare.
  destruct (Z.compare_spec (date_ord a) (date_ord b));
    [destruct (Z.compare_spec (time_us a) (time_us b)) | .. ];
    split; intros; try lia; try discriminate; try reflexivity.
Qed.

Lemma ltb_spec a b :
  ltb a b = true
  ↔ date_ord a < date_ord b ∨ (date_ord a = date_ord b ∧ time_us a < time_us b).
Proof.
  unfold ltb, compare.
  destruct (Z.compare_spec (date_ord a) (date_ord b));
    [destruct (Z.compare_spec (time_us a) (time_us b)) | .. ];
    split; intros; try lia; try discriminate; try reflexivity.
Qed.

Lemma ltb_false a b : ltb a b = false ↔ leb b a = true.
Proof.
  rewrite <- not_true_iff_false, ltb_spec, leb_spec. lia.
Qed.

End DatetimeFacts.

Section EventsOfADay.
Import Digits Calendar Datetime Timestamp.
Import DigitsFacts CalendarFacts TimestampFacts DatetimeFacts.
Import CalendarSpec TimestampSpec.

(** A parsed timestamp is a whole second of a day of the calendar. *)
Lemma strptime_datetime_range s dt :
  strptime_datetime s = Some dt →
  1 <= date_ord dt <= MAXORDINAL
  ∧ 0 <= time_us dt <= time_of 23 59 59 0
  ∧ time_us dt mod US_PER_SECOND = 0.
Proof.
  intros (y & m & d & hh & mm & ss & V & (Hh & Hm & Hs) & _ & ->)%strptime_datetime_inv.
  simpl. split; [now apply ymd2ord_range | ].
  unfold time_of, US_PER_SECOND. split; [lia | ].
  Z.div_mod_to_equations. lia.
Qed.

Lemma strptime_date_range s dt :
  strptime_date s = Some dt →
  1 <= date_ord dt <= MAXORDINAL ∧ time_us dt = 0.
Proof.
  intros (y & m & d & V & _ & ->)%strptime_date_inv.
  simpl. split; [now apply ymd2ord_range | reflexivity].
Qed.

(** The two bounds [get_events_by_date] builds from a date. *)
Lemma strptime_day_bounds date D :
  strptime_date date = Some D →
  strptime_datetime (date +:+ " 00:00:00") = Some (mk_datetime (date_ord D) 0)
  ∧ strptime_datetime (date +:+ " 23:59:59")
    = Some (mk_datetime (date_ord D) (time_of 23 59 59 0)).
Proof.
  intros (y & m & d & V & -> & ->)%strptime_date_inv. simpl date_ord.
  rewrite !date_text_app, !app_nil. split.
  - change (date_text y m d " 00:00:00") with (datetime_text y m d 0 0 0).
    rewrite strptime_datetime_text; [reflexivity | exact V | unfold clock; lia].
  - change (date_text y m d " 23:59:59") with (datetime_text y m d 23 59 59).
    rewrite strptime_datetime_text; [reflexivity | exact V | unfold clock; lia].
Qed.

Lemma string_leb_compare a b :
  String.leb a b = match String.compare a b with Gt => false | _ => true end.
Proof. reflexivity. Qed.

Lemma string_ltb_compare a b :
  String.ltb a b = match String.compare a b with Lt => true | _ => false end.
Proof. reflexivity. Qed.

Lemma length_app (a b : string) :
  String.length (a +:+ b) = (String.length a + String.length b)%nat.
Proof.
  induction a as [ | c a IH]; [reflexivity | ].
  rewrite app_cons. simpl. now rewrite IH.
Qed.

Lemma substring_prefix (a b : string) :
  String.substring 0 (String.length a) (a +:+ b) = a.
Proof.
  induction a as [ | c a IH].
  - rewrite app_nil. now destruct b.
  - rewrite app_cons. simpl. now rewrite IH.
Qed.

Lemma date_text_length y m d : String.length (date_text y m d "") = 10%nat.
Proof.
  unfold date_text.
  change (String.length (zpad 4 y +:+ String "-" (zpad 2 m +:+ String "-" (zpad 2 d +:+ ""))))
    with (String.length (zpad 4 y +:+ "-" +:+ zpad 2 m +:+ "-" +:+ zpad 2 d +:+ "")).
  now rewrite !length_app, !zpad_length.
Qed.

Lemma date_text_inj y1 m1 d1 y2 m2 d2 :
  date_fields y1 m1 d1 → date_fields y2 m2 d2 →
  date_text y1 m1 d1 "" = date_text y2 m2 d2 "" → (y1, m1, d1) = (y2, m2, d2).
Proof.
  intros F1 F2 E.
  pose proof (date_text_compare y1 m1 d1 "" y2 m2 d2 "" F1 F2) as C.
  rewrite E in C.
  assert (String.compare (date_text y2 m2 d2 "") (date_text y2 m2 d2 "") = Eq) as R.
  { rewrite (date_text_compare y2 m2 d2 "" y2 m2 d2 "" F2 F2).
    unfold date_compare. now rewrite !Z.compare_refl. }
  rewrite R in C. unfold date_compare in C.
  destruct (Z.compare_spec y1 y2) as [-> | | ]; try discriminate.
  destruct (Z.compare_spec m1 m2) as [-> | | ]; try discriminate.
  destruct (Z.compare_spec d1 d2) as [-> | | ]; try discriminate.
  reflexivity.
Qed.

(** [DATE(x) = ?] on a stored timestamp and a date: the same day. *)
Lemma sql_date_eq s dt date D :
  strptime_datetime s = Some dt → strptime_date date = Some D →
  sql_date s = Some date ↔ date_ord dt = date_ord D.
Proof.
  intros Hs HD. unfold sql_date. rewrite Hs.
  apply strptime_datetime_inv in Hs
    as (y & m & d & hh & mm & ss & V & C & -> & ->).
  apply strptime_date_inv in HD as (y' & m' & d' & V' & -> & ->).
  simpl date_ord. unfold datetime_text.
  replace (date_text y m d (String " " (time_text hh mm ss "")))
    with (date_text y m d "" +:+ String " " (time_text hh mm ss ""))
    by now rewrite date_text_app, app_nil.
  rewrite <- (date_text_length y m d) at 1. rewrite substring_prefix.
  destruct (valid_date_bounds _ _ _ V), (valid_date_bounds _ _ _ V').
  split.
  - intros E. apply (inj Some) in E.
    apply date_text_inj in E; try now apply valid_date_fields.
    now injection E as -> -> ->.
  - intros E. apply ymd2ord_inj in E; try assumption.
    now injection E as -> -> ->.
Qed.

End EventsOfADay.

Section DayQuery.
Import Calendar Datetime Timestamp.
Import TimestampFacts DatetimeFacts.
Import CalendarSpec TimestampSpec.

Lemma touches_days s t D :
  0 <= time_us s < US_PER_DAY → 0 <= time_us t < US_PER_DAY →
  leb s t = true →
  touches s t D ↔ date_ord s <= date_ord D <= date_ord t.
Proof.
  intros Bs Bt Hst. split.
  - intros (i & Ei & _ & H1 & H2). apply leb_spec in H1, H2. lia.
  - intros [Lo Hi]. apply leb_spec in Hst.
    destruct (Z.eq_dec (date_ord D) (date_ord s)) as [Es | Ns].
    { exists s. rewrite !leb_spec. repeat split; lia. }
    destruct (Z.eq_dec (date_ord D) (date_ord t)) as [Et | Nt].
    { exists t. rewrite !leb_spec. repeat split; lia. }
    exists (mk_datetime (date_ord D) 0). rewrite !leb_spec. simpl.
    unfold US_PER_DAY, US_PER_SECOND. repeat split; lia.
Qed.

Lemma by_start_datetime_chronological a b sa sb :
  strptime_datetime (Event.start_datetime a) = Some sa →
  strptime_datetime (Event.start_datetime b) = Some sb →
  by_start_datetime a b = leb sa sb.
Proof.
  intros Ha Hb. unfold by_start_datetime, leb.
  now rewrite string_leb_compare, (strptime_datetime_compare _ _ _ _ Ha Hb).
Qed.

(** C4. [get_events_by_date] returns the events in ascending order of
    [start_datetime], and an event that starts before it ends is among
    them exactly when its interval touches the day asked for. *)
Theorem get_events_by_date_touching (date : string) (db : database) :
  StronglySorted (λ a b, by_start_datetime a b = true)
                 (get_events_by_date date db)
  ∧ ∀ D e s t,
      strptime_date date = Some D →
      In e (events db) →
      strptime_datetime (Event.start_datetime e) = Some s →
      strptime_datetime (Event.end_datetime e) = Some t →
      ltb s t = true →
      (In e (get_events_by_date date db) ↔ touches s t D).
Proof.
  unfold get_events_by_date. simpl working. split.
  { apply order_by_sorted;
      [apply by_start_datetime_total | apply by_start_datetime_trans]. }
  intros D e s t HD He Hs Ht Hst.
  rewrite order_by_In, filter_In.
  destruct (strptime_day_bounds date D HD) as [H0 H1].
  rewrite !string_leb_compare.
  rewrite (strptime_datetime_compare _ _ _ _ Hs H1),
    (strptime_datetime_compare _ _ _ _ H0 Ht).
  fold (leb s (mk_datetime (date_ord D) (time_of 23 59 59 0))).
  fold (leb (mk_datetime (date_ord D) 0) t).
  destruct (strptime_datetime_range _ _ Hs) as (_ & Bs & _).
  destruct (strptime_datetime_range _ _ Ht) as (_ & Bt & _).
  assert (time_of 23 59 59 0 < US_PER_DAY) as Day by reflexivity.
  rewrite touches_days; [ | lia | lia | apply leb_spec; apply ltb_spec in Hst; lia ].
  rewrite !orb_true_iff, andb_true_iff, !bool_decide_eq_true.
  rewrite (sql_date_eq _ _ _ _ Hs HD), (sql_date_eq _ _ _ _ Ht HD).
  rewrite !leb_spec. simpl date_ord. simpl time_us.
  apply ltb_spec in Hst. split.
  - intros [_ H]. lia.
  - intros H. split; [exact He | lia].
Qed.

End DayQuery.

(** * Schema migration *)

Section Migration.
Import Calendar Datetime Timestamp.
Import TimestampFacts DatetimeFacts.
Import CalendarSpec TimestampSpec.

Lemma add_one_hour s :
  1 <= date_ord s <= MAXORDINAL →
  0 <= time_us s <= time_of 23 59 59 0 →
  time_us s mod US_PER_SECOND = 0 →
  date_ord s < MAXORDINAL ∨ time_us s < time_of 23 0 0 0 →
  ∃ e, add s (timedelta_hours 1) = Some e
       ∧ strptime_datetime (strftime_datetime e) = Some e
       ∧ sub e s = timedelta_hours 1.
Proof.
  intros Ho Ht Hs Hroom. unfold add.
  set (t := time_us s + timedelta_hours 1).
  assert (0 <= t / US_PER_DAY <= 1 ∧ 0 <= t mod US_PER_DAY < US_PER_DAY
          ∧ t = US_PER_DAY * (t / US_PER_DAY) + t mod US_PER_DAY
          ∧ (t mod US_PER_DAY) mod US_PER_SECOND = 0
          ∧ (time_of 23 0 0 0 <= time_us s ↔ t / US_PER_DAY = 1))
    as (Hq & Hr & Et & Hsec & Hlast).
  { subst t. unfold timedelta_hours, time_of, US_PER_DAY, US_PER_SECOND in *.
    Z.div_mod_to_equations. lia. }
  assert (date_ord s + t / US_PER_DAY <= MAXORDINAL) as Hi by lia.
  replace ((1 <=? date_ord s + t / US_PER_DAY)
           && (date_ord s + t / US_PER_DAY <=? MAXORDINAL)) with true
    by (symmetry; apply andb_true_iff; split; apply Z.leb_le; lia).
  eexists. split; [reflexivity | ]. split.
  - apply strptime_strftime_datetime; simpl; lia.
  - unfold sub. simpl. subst t. lia.
Qed.

Lemma migrate_times_spec (row : Legacy.t) :
  migratable row →
  ∃ st en,
    migrate_times (Legacy.date row) (Legacy.time row) = Some (st, en)
    ∧ ∀ new, Event.start_datetime new = st → Event.end_datetime new = en →
             match Legacy.time row with
             | Some t =>
                 if String.eqb t "" then all_day (Legacy.date row) new
                 else one_hour (Legacy.date row) t new
             | None => all_day (Legacy.date row) new
             end.
Proof.
  unfold migratable, migrate_times.
  destruct (Legacy.time row) as [t | ]; simpl text_truthy.
  2:{ intros _. eexists. eexists. split; [reflexivity | ].
      intros new Est Een. split; assumption. }
  destruct (String.eqb_spec t "") as [-> | Ne]; simpl negb; cbv iota.
  { intros _. eexists. eexists. split; [reflexivity | ].
    intros new Est Een. split; assumption. }
  intros H. destruct (H Ne) as (s & Hs & Hroom). clear H.
  fold (legacy_start (Legacy.date row) t). rewrite Hs. simpl.
  destruct (strptime_range _ _ Hs) as (Ho & Ht & Hsec).
  destruct (add_one_hour s Ho Ht Hsec Hroom) as (e & -> & He & Hsub). simpl.
  eexists. eexists. split; [reflexivity | ].
  intros new Est Een. split; [exact Est | ].
  exists s, e. rewrite Est, Een. auto.
Qed.

Lemma migrate_loop_spec (old : list Legacy.t) (rows : list Event.t) (seq : Z) :
  List.NoDup (map Legacy.id old) →
  (∀ o, In o old → ¬ In (Legacy.id o) (map Event.id rows)) →
  Forall migratable old →
  ∃ news seq',
    migrate_loop old (rows, seq) = Some (rows ++ news, seq')
    ∧ Forall2 migrated old news.
Proof.
  revert rows seq. induction old as [ | o old IH]; intros rows seq ND Fresh Ok.
  - exists [], seq. simpl. rewrite app_nil_r. split; [reflexivity | constructor].
  - apply List.NoDup_cons_iff in ND as [Nin ND].
    apply Forall_cons_1 in Ok as [Ok1 Ok].
    destruct (migrate_times_spec o Ok1) as (st & en & Etimes & Hshape).
    cbn [migrate_loop]. rewrite Etimes. simpl.
    assert (existsb (λ e, Event.id e =? Legacy.id o) rows = false) as ->.
    { apply not_true_is_false. intros (e & He & E)%existsb_exists.
      apply (Fresh o); [now left | ].
      apply Z.eqb_eq in E. rewrite <- E. now apply in_map. }
    simpl.
    match goal with
    | |- context [migrate_loop old (rows ++ [?r], ?q)] =>
        destruct (IH (rows ++ [r]) q ND) as (news & seq' & -> & Hnews);
        [ | exact Ok | exists (r :: news), seq' ]
    end.
    + intros x Hx. rewrite map_app, in_app_iff. simpl.
      intros [Hin | [E | []]].
      * apply (Fresh x); [now right | exact Hin].
      * apply Nin. rewrite E. now apply in_map.
    + rewrite <- app_assoc. split; [reflexivity | ].
      constructor; [ | exact Hnews].
      unfold migrated. simpl. repeat split. now apply Hshape.
Qed.

(** The rows on which the loop raises are the ones that are not
    [migratable]. *)
Lemma migrate_times_migratable (row : Legacy.t) st en :
  migrate_times (Legacy.date row) (Legacy.time row) = Some (st, en) →
  migratable row.
Proof.
  unfold migratable, migrate_times.
  destruct (Legacy.time row) as [t | ]; [ | trivial ].
  simpl text_truthy. intros H Ne.
  destruct (String.eqb_spec t "") as [E | _]; [contradiction | ].
  simpl negb in H. cbv iota in H.
  fold (legacy_start (Legacy.date row) t) in H.
  destruct (strptime (legacy_start (Legacy.date row) t)) as [s | ] eqn:Hs;
    [ | discriminate ].
  exists s. split; [reflexivity | ].
  destruct (strptime_range _ _ Hs) as (Ho & Ht & _).
  simpl in H. unfold add in H.
  destruct ((1 <=? date_ord s + (time_us s + timedelta_hours 1) / US_PER_DAY)
            && (date_ord s + (time_us s + timedelta_hours 1) / US_PER_DAY
                <=? MAXORDINAL)) eqn:In; [ | discriminate ].
  apply andb_true_iff in In as [_ In]. apply Z.leb_le in In.
  unfold timedelta_hours, time_of, US_PER_DAY, US_PER_SECOND in *.
  Z.div_mod_to_equations. lia.
Qed.

Lemma migrate_loop_migratable (old : list Legacy.t) acc res :
  migrate_loop old acc = Some res → Forall migratable old.
Proof.
  revert acc. induction old as [ | o old IH]; intros acc H; [constructor | ].
  cbn [migrate_loop] in H.
  destruct (migrate_times (Legacy.date o) (Legacy.time o)) as [[st en] | ]
    eqn:Etimes; [ | discriminate ].
  simpl in H.
  destruct (insert_with_id _ acc) as [acc' | ]; [ | discriminate ].
  simpl in H. constructor.
  - now apply (migrate_times_migratable o st en).
  - now apply (IH acc').
Qed.

(** C3. When every row of the legacy table is one the loop converts, the
    migration turns every row into one row with the same id and
    [created_at]: from its time to one hour later when it has a time, and
    from 09:00:00 to 17:00:00 of its date when it has none. On any other
    table the migration raises, and converts nothing. *)
Theorem migrate_schema_rows (disk : legacy_database) :
  List.NoDup (map Legacy.id (legacy_events disk)) →
  (Forall migratable (legacy_events disk) →
   ∃ db,
     migrate_schema disk = Some db
     ∧ Forall2 migrated (legacy_events disk) (events db)
     ∧ tags db = legacy_tags disk)
  ∧ (¬ Forall migratable (legacy_events disk) → migrate_schema disk = None).
Proof.
  intros ND. split.
  - intros Ok. unfold migrate_schema.
    destruct (migrate_loop_spec (legacy_events disk) [] 0 ND) as
      (news & seq' & -> & Hnews); [intros o _ [] | exact Ok | ].
    simpl. eexists. split; [reflexivity | ]. simpl. auto.
  - intros Bad. unfold migrate_schema.
    destruct (migrate_loop (legacy_events disk) ([], 0)) as [res | ] eqn:Loop;
      [ | reflexivity ].
    exfalso. apply Bad. now apply (migrate_loop_migratable _ _ _ Loop).
Qed.

Example migrate_schema_example :
  ∃ db,
    migrate_schema
      (mk_legacy_db
         [Legacy.mk 7 "2024-01-01" (Some "14:30") "Dentist" None
                    (Some "2023-12-30 18:02:11");
          Legacy.mk 8 "2024-1-5" (Some "9:05") "Run" None None;
          Legacy.mk 9 "2024-01-01" None "Holiday" (Some "") None]
         [] 0) = Some db
    ∧ events db
      = [Event.mk 7 "2024-01-01 14:30:00" "2024-01-01 15:30:00" "Dentist" None
                  None (Some "2023-12-30 18:02:11");
         Event.mk 8 "2024-1-5 9:05:00" "2024-01-05 10:05:00" "Run" None None
                  None;
         Event.mk 9 "2024-01-01 09:00:00" "2024-01-01 17:00:00" "Holiday"
                  (Some "") None None].
Proof. eexists. split; reflexivity. Qed.

(** A time that [strptime] does not read stops the migration. *)
Example migrate_schema_raises :
  migrate_schema
    (mk_legacy_db
       [Legacy.mk 7 "2024-01-01" (Some "14:30") "Dentist" None None;
        Legacy.mk 8 "2024-01-01" (Some "2pm") "Run" None None]
       [] 0) = None.
Proof. reflexivity. Qed.

End Migration.

(** * The aggregation, day by day *)

Section AggregationFacts.
Context {hnum : Type} {arith : HourArith hnum}.
Import Calendar Datetime Timestamp.
Import CalendarFacts TimestampFacts DatetimeFacts.
Import CalendarSpec TimestampSpec.

Implicit Types (r : gmap string (gmap string hnum)) (D : Z).

Lemma day_key_text D :
  1 <= D <= MAXORDINAL →
  ∃ y m d, valid_date y m d = true ∧ D = ymd2ord y m d
           ∧ day_key D = date_text y m d "".
Proof.
  intros H. pose proof (ord2ymd_valid D H) as V.
  destruct (ord2ymd D) as [[y m] d] eqn:E. destruct V as [V Eo].
  exists y, m, d. split; [exact V | ]. split; [now symmetry | ].
  unfold day_key, day. rewrite <- Eo. now apply strftime_date_ymd.
Qed.

Lemma day_key_inj D1 D2 :
  1 <= D1 <= MAXORDINAL → 1 <= D2 <= MAXORDINAL →
  day_key D1 = day_key D2 → D1 = D2.
Proof.
  intros (y1 & m1 & d1 & V1 & -> & ->)%day_key_text
         (y2 & m2 & d2 & V2 & -> & ->)%day_key_text E.
  apply date_text_inj in E; try now apply valid_date_fields.
  now injection E as -> -> ->.
Qed.

Lemma strptime_date_day s a :
  strptime_date s = Some a → a = day (date_ord a) ∧ day_key (date_ord a) = s.
Proof.
  intros H. pose proof (strftime_strptime_date _ _ H) as K.
  apply strptime_date_inv in H as (y & m & d & V & -> & ->).
  split; [reflexivity | exact K].
Qed.

Lemma add_day D :
  1 <= D < MAXORDINAL → add (day D) (timedelta_days 1) = Some (day (D + 1)).
Proof.
  intros H. unfold add, day. simpl date_ord. simpl time_us.
  change ((0 + timedelta_days 1) / US_PER_DAY) with 1.
  change ((0 + timedelta_days 1) mod US_PER_DAY) with 0.
  replace ((1 <=? D + 1) && (D + 1 <=? MAXORDINAL)) with true; [reflexivity | ].
  symmetry. apply andb_true_iff. split; apply Z.leb_le; lia.
Qed.

Lemma ltb_day D b :
  time_us b = 0 → ltb (day D) b = true ↔ D < date_ord b.
Proof. intros Hb. rewrite ltb_spec. simpl. lia. Qed.

Lemma ltb_day_false D b :
  time_us b = 0 → ltb (day D) b = false ↔ date_ord b <= D.
Proof.
  intros Hb. rewrite <- not_true_iff_false, ltb_day by exact Hb. lia.
Qed.

(** The first loop: an empty bucket for every day of the range. *)
Lemma init_days_spec (fuel : nat) D b r :
  time_us b = 0 → 1 <= D → date_ord b <= MAXORDINAL →
  fuel = Z.to_nat (date_ord b - D) →
  ∃ r', init_days fuel (day D) b r = Some r'
        ∧ (∀ D', D <= D' < date_ord b → r' !! day_key D' = Some ∅)
        ∧ (∀ k, (∀ D', D <= D' < date_ord b → k ≠ day_key D') →
                r' !! k = r !! k).
Proof.
  intros Hb. revert D r. induction fuel as [ | fuel IH]; intros D r HD Hmax Hfuel.
  - exists r. assert (date_ord b <= D) as Done by lia.
    simpl. rewrite (proj2 (ltb_day_false D b Hb) Done).
    split; [reflexivity | ]. split; [intros; lia | reflexivity].
  - assert (D < date_ord b) as More by lia.
    cbn [init_days]. rewrite (proj2 (ltb_day D b Hb) More).
    rewrite add_day by lia. simpl.
    destruct (IH (D + 1) (<[strftime_date (day D) := ∅]> r))
      as (r' & -> & Hdays & Hrest); [lia | lia | lia | ].
    exists r'. split; [reflexivity | ]. split.
    + intros D' HD'. destruct (Z.eq_dec D' D) as [-> | Ne].
      * rewrite Hrest; [apply lookup_insert_eq | ].
        intros D' HD'' E. apply day_key_inj in E; lia.
      * apply Hdays. lia.
    + intros k Hk. rewrite Hrest.
      * apply lookup_insert_ne. intros E. apply (Hk D); [lia | now symmetry].
      * intros D' HD'. apply Hk. lia.
Qed.

Lemma start_at_zero_lookup tag (bucket : gmap string hnum) :
  start_at_zero tag bucket !! tag = Some (default hzero (bucket !! tag)).
Proof.
  unfold start_at_zero. destruct (bucket !! tag) as [v | ] eqn:E; simpl.
  - exact E.
  - apply lookup_insert_eq.
Qed.

Lemma insert_start_at_zero tag v (bucket : gmap string hnum) :
  <[tag := v]> (start_at_zero tag bucket) = <[tag := v]> bucket.
Proof.
  unfold start_at_zero. destruct (bucket !! tag); [reflexivity | ].
  apply insert_insert_eq.
Qed.

(** The body of the inner loop credits the clipped part to the bucket of
    the day. *)
Lemma clip_to_day_spec s t tag D r bucket :
  r !! day_key D = Some bucket →
  clip_to_day s t tag (day D) r
  = Some (<[day_key D := credit s t tag D bucket]> r).
Proof.
  intros Hb. unfold clip_to_day, credit, clipped.
  destruct (leb s (combine (day D) time_max) && leb (combine (day D) time_min) t).
  - fold (day_key D). rewrite Hb. simpl.
    rewrite start_at_zero_lookup. simpl.
    now rewrite insert_start_at_zero.
  - now rewrite insert_id.
Qed.

(** The inner loop, over the days from [D] to the end of the range. *)
Lemma clip_days_spec (fuel : nat) s t tag D b r :
  time_us b = 0 → 1 <= D → date_ord b <= MAXORDINAL →
  fuel = Z.to_nat (date_ord b - D) →
  (∀ D', D <= D' < date_ord b → is_Some (r !! day_key D')) →
  ∃ r', clip_days fuel s t tag (day D) b r = Some r'
        ∧ (∀ D', D <= D' < date_ord b →
                 r' !! day_key D' = credit s t tag D' <$> r !! day_key D')
        ∧ (∀ k, (∀ D', D <= D' < date_ord b → k ≠ day_key D') →
                r' !! k = r !! k).
Proof.
  intros Hb. revert D r.
  induction fuel as [ | fuel IH]; intros D r HD Hmax Hfuel Hkeys.
  - exists r. assert (date_ord b <= D) as Done by lia.
    simpl. rewrite (proj2 (ltb_day_false D b Hb) Done).
    split; [reflexivity | ]. split; [intros; lia | reflexivity].
  - assert (D < date_ord b) as More by lia.
    cbn [clip_days]. rewrite (proj2 (ltb_day D b Hb) More).
    destruct (Hkeys D ltac:(lia)) as [bucket Hbucket].
    rewrite (clip_to_day_spec _ _ _ _ _ _ Hbucket). simpl.
    rewrite add_day by lia. simpl.
    set (r1 := <[day_key D := credit s t tag D bucket]> r).
    assert (∀ D', D + 1 <= D' < date_ord b → r1 !! day_key D' = r !! day_key D')
      as Later.
    { intros D' HD'. apply lookup_insert_ne. intros E.
      apply day_key_inj in E; lia. }
    destruct (IH (D + 1) r1) as (r' & -> & Hdays & Hrest); [lia | lia | lia | | ].
    { intros D' HD'. rewrite Later by exact HD'. apply Hkeys. lia. }
    exists r'. split; [reflexivity | ]. split.
    + intros D' HD'. destruct (Z.eq_dec D' D) as [-> | Ne].
      * rewrite Hrest.
        -- subst r1. now rewrite lookup_insert_eq, Hbucket.
        -- intros D' HD'' E. apply day_key_inj in E; lia.
      * rewrite Hdays, Later by lia. reflexivity.
    + intros k Hk. rewrite Hrest.
      * apply lookup_insert_ne. intros E. apply (Hk D); [lia | now symmetry].
      * intros D' HD'. apply Hk. lia.
Qed.

(** The loop over the events. *)
Lemma for_events_spec (fuel : nat) start_date a b (evs : list Event.t) r :
  strptime_date start_date = Some a → time_us b = 0 →
  date_ord b <= MAXORDINAL → fuel = Z.to_nat (date_ord b - date_ord a) →
  Forall parses evs →
  (∀ D, date_ord a <= D < date_ord b → is_Some (r !! day_key D)) →
  ∃ r', for_events fuel start_date b evs r = Some r'
        ∧ (∀ D, date_ord a <= D < date_ord b →
                r' !! day_key D
                = (λ bucket, fold_left (event_credit D) evs bucket)
                    <$> r !! day_key D)
        ∧ (∀ k, (∀ D, date_ord a <= D < date_ord b → k ≠ day_key D) →
                r' !! k = r !! k).
Proof.
  intros Ha Hb Hmax Hfuel. revert r.
  destruct (strptime_date_range _ _ Ha) as [[Hlo _] _].
  destruct (strptime_date_day _ _ Ha) as [Eday _].
  induction evs as [ | e evs IH]; intros r Hparse Hkeys.
  - exists r. split; [reflexivity | ]. split; [ | reflexivity ].
    intros D HD. simpl. now destruct (r !! day_key D).
  - apply Forall_cons_1 in Hparse as [[[s Hs] [t Ht]] Hparse].
    cbn [for_events]. unfold process_event. rewrite Hs, Ht, Ha. simpl.
    rewrite Eday.
    destruct (clip_days_spec fuel s t (bucket_tag (Event.tag e)) (date_ord a) b r
                Hb Hlo Hmax Hfuel Hkeys) as (r1 & -> & Hdays & Hrest).
    simpl.
    destruct (IH r1 Hparse) as (r' & -> & Hdays' & Hrest').
    { intros D HD. rewrite Hdays by exact HD.
      destruct (Hkeys D HD) as [bucket ->]. simpl. eauto. }
    exists r'. split; [reflexivity | ]. split.
    + intros D HD. rewrite Hdays', Hdays by exact HD.
      destruct (r !! day_key D) as [g | ]; simpl; [ | reflexivity ].
      assert (event_credit D g e = credit s t (bucket_tag (Event.tag e)) D g)
        as -> by (unfold event_credit; now rewrite Hs, Ht).
      reflexivity.
    + intros k Hk. now rewrite Hrest', Hrest.
Qed.

(** [get_tag_hours_for_week] when every selected event parses: it
    returns, and the bucket of each day of the range holds what the
    selected events add to it, in their order. *)
Lemma week_hours_spec start_date end_date (db : database) a b :
  strptime_date start_date = Some a → strptime_date end_date = Some b →
  Forall parses (selected_events start_date end_date db) →
  ∃ r, get_tag_hours_for_week start_date end_date db = Some r
       ∧ (∀ D, date_ord a <= D < date_ord b →
               r !! day_key D
               = Some (fold_left (event_credit D)
                                 (selected_events start_date end_date db) ∅))
       ∧ (∀ k, (∀ D, date_ord a <= D < date_ord b → k ≠ day_key D) →
               r !! k = None).
Proof.
  intros Ha Hb Hparse. unfold get_tag_hours_for_week. simpl working.
  fold (selected_events start_date end_date db). rewrite Ha, Hb. simpl.
  destruct (strptime_date_range _ _ Ha) as [[Hlo _] _].
  destruct (strptime_date_range _ _ Hb) as [[_ Hmax] Hb0].
  destruct (strptime_date_day _ _ Ha) as [Eday _].
  destruct (init_days_spec (Z.to_nat (date_ord b - date_ord a)) (date_ord a) b ∅
              Hb0 Hlo Hmax eq_refl) as (r0 & Hinit & Hdays & Hrest).
  rewrite <- Eday in Hinit. rewrite Hinit. simpl.
  destruct (for_events_spec (Z.to_nat (date_ord b - date_ord a)) start_date a b
              (selected_events start_date end_date db) r0 Ha Hb0 Hmax eq_refl
              Hparse) as (r & -> & Hdays' & Hrest').
  { intros D HD. rewrite Hdays by exact HD. eauto. }
  exists r. split; [reflexivity | ]. split.
  - intros D HD. now rewrite Hdays', Hdays by exact HD.
  - intros k Hk. now rewrite Hrest', Hrest by exact Hk.
Qed.

End AggregationFacts.

Section EventOfTheWeek.
Context {hnum : Type} {arith : HourArith hnum}.
Import Calendar Datetime Timestamp.
Import CalendarFacts TimestampFacts DatetimeFacts.
Import CalendarSpec TimestampSpec.

(** The query selects a well-formed event exactly when it starts before
    the end date and ends on or after the start date. *)
Lemma selected_by_query start_date end_date a b (e : Event.t) s t :
  strptime_date start_date = Some a → strptime_date end_date = Some b →
  strptime_datetime (Event.start_datetime e) = Some s →
  strptime_datetime (Event.end_datetime e) = Some t →
  String.ltb (Event.start_datetime e) end_date
  && String.ltb start_date (Event.end_datetime e) = true
  ↔ date_ord s < date_ord b ∧ date_ord a <= date_ord t.
Proof.
  intros Ha Hb Hs Ht.
  rewrite andb_true_iff, !string_ltb_compare.
  rewrite (compare_datetime_date _ _ _ _ Hs Hb),
    (compare_date_datetime _ _ _ _ Ha Ht).
  destruct (Z.compare_spec (date_ord s) (date_ord b)),
    (Z.compare_spec (date_ord a) (date_ord t));
    split; intros [? ?]; try lia; try discriminate; split; reflexivity.
Qed.

Lemma selected_single start_date end_date (db : database) a b e s t :
  events db = [e] →
  strptime_date start_date = Some a → strptime_date end_date = Some b →
  strptime_datetime (Event.start_datetime e) = Some s →
  strptime_datetime (Event.end_datetime e) = Some t →
  date_ord s < date_ord b → date_ord a <= date_ord t →
  selected_events start_date end_date db = [e].
Proof.
  intros He Ha Hb Hs Ht H1 H2. unfold selected_events. rewrite He. simpl.
  now rewrite (proj2 (selected_by_query _ _ _ _ _ _ _ Ha Hb Hs Ht) (conj H1 H2)).
Qed.

(** An event within one day is credited, whole, to that day. *)
Lemma clipped_same_day s t D :
  0 <= time_us s → time_us t < US_PER_DAY →
  date_ord t = date_ord s → leb s t = true →
  clipped s t D = if decide (D = date_ord s) then Some (sub t s) else None.
Proof.
  intros Bs Bt Same Hst. apply leb_spec in Hst.
  unfold clipped, combine, day, time_min, time_max. simpl date_ord.
  destruct (decide (D = date_ord s)) as [-> | Ne].
  - assert (leb s (mk_datetime (date_ord s) (US_PER_DAY - 1)) = true) as ->
      by (apply leb_spec; simpl; lia).
    assert (leb (mk_datetime (date_ord s) 0) t = true) as ->
      by (apply leb_spec; simpl; lia).
    simpl. unfold min, max.
    assert (ltb (mk_datetime (date_ord s) (US_PER_DAY - 1)) t = false) as ->
      by (apply ltb_false, leb_spec; simpl; lia).
    assert (ltb s (mk_datetime (date_ord s) 0) = false) as ->
      by (apply ltb_false, leb_spec; simpl; lia).
    reflexivity.
  - destruct (leb s (mk_datetime D (US_PER_DAY - 1))) eqn:L1;
      [ | reflexivity ].
    destruct (leb (mk_datetime D 0) t) eqn:L2; [ | reflexivity ].
    apply leb_spec in L1, L2. simpl in L1, L2. lia.
Qed.

(** An event that ends on the day after it starts is credited to both
    days; the first part stops at 23:59:59.999999. *)
Lemma clipped_two_days s t D :
  0 <= time_us s < US_PER_DAY → 0 <= time_us t < US_PER_DAY →
  date_ord t = date_ord s + 1 →
  clipped s t D
  = if decide (D = date_ord s) then Some (US_PER_DAY - 1 - time_us s)
    else if decide (D = date_ord s + 1) then Some (time_us t)
    else None.
Proof.
  intros Bs Bt Next.
  unfold clipped, combine, day, time_min, time_max. simpl date_ord.
  destruct (decide (D = date_ord s)) as [-> | Ne];
    [ | destruct (decide (D = date_ord s + 1)) as [-> | Ne'] ].
  - assert (leb s (mk_datetime (date_ord s) (US_PER_DAY - 1)) = true) as ->
      by (apply leb_spec; simpl; lia).
    assert (leb (mk_datetime (date_ord s) 0) t = true) as ->
      by (apply leb_spec; simpl; lia).
    simpl. unfold min, max.
    assert (ltb (mk_datetime (date_ord s) (US_PER_DAY - 1)) t = true) as ->
      by (apply ltb_spec; simpl; lia).
    assert (ltb s (mk_datetime (date_ord s) 0) = false) as ->
      by (apply ltb_false, leb_spec; simpl; lia).
    unfold sub. simpl. f_equal. lia.
  - assert (leb s (mk_datetime (date_ord s + 1) (US_PER_DAY - 1)) = true) as ->
      by (apply leb_spec; simpl; lia).
    assert (leb (mk_datetime (date_ord s + 1) 0) t = true) as ->
      by (apply leb_spec; simpl; lia).
    simpl. unfold min, max.
    assert (ltb (mk_datetime (date_ord s + 1) (US_PER_DAY - 1)) t = false) as ->
      by (apply ltb_false, leb_spec; simpl; lia).
    assert (ltb s (mk_datetime (date_ord s + 1) 0) = true) as ->
      by (apply ltb_spec; simpl; lia).
    unfold sub. simpl. f_equal. lia.
  - destruct (leb s (mk_datetime D (US_PER_DAY - 1))) eqn:L1;
      [ | reflexivity ].
    destruct (leb (mk_datetime D 0) t) eqn:L2; [ | reflexivity ].
    apply leb_spec in L1, L2. simpl in L1, L2. lia.
Qed.

(** A bucket the loop touched once holds the tag alone. *)
Lemma add_hours_empty tag td :
  add_hours tag td (∅ : gmap string hnum)
  = {[ tag := hadd hzero (hours_of td) ]}.
Proof. unfold add_hours. rewrite lookup_empty. reflexivity. Qed.

(** The hours of a single event.  With one event in the table, inside
    the week asked for: when the event lies within one day, the bucket of that
    day holds the duration of the event under its tag and every other
    bucket is empty; when it ends on the next day, the two days hold the
    parts before and after midnight, and the parts add up to the duration
    less one microsecond, because the first one stops at 23:59:59.999999. *)
Theorem event_hours_by_day start_date end_date (db : database) e a b s t :
  events db = [e] →
  strptime_date start_date = Some a → strptime_date end_date = Some b →
  strptime_datetime (Event.start_datetime e) = Some s →
  strptime_datetime (Event.end_datetime e) = Some t →
  ltb s t = true → date_ord a <= date_ord s → date_ord t < date_ord b →
  ∃ r,
    get_tag_hours_for_week start_date end_date db = Some r
    ∧ (date_ord t = date_ord s →
       ∀ D, date_ord a <= D < date_ord b →
            r !! day_key D
            = Some (if decide (D = date_ord s)
                    then {[ bucket_tag (Event.tag e)
                            := hadd hzero (hours_of (sub t s)) ]}
                    else ∅))
    ∧ (date_ord t = date_ord s + 1 →
       ∃ before after,
         before + after = sub t s - 1
         ∧ ∀ D, date_ord a <= D < date_ord b →
                r !! day_key D
                = Some (if decide (D = date_ord s)
                        then {[ bucket_tag (Event.tag e)
                                := hadd hzero (hours_of before) ]}
                        else if decide (D = date_ord s + 1)
                        then {[ bucket_tag (Event.tag e)
                                := hadd hzero (hours_of after) ]}
                        else ∅)).
Proof.
  intros He Ha Hb Hs Ht Hst Hlo Hhi.
  destruct (strptime_datetime_range _ _ Hs) as (_ & Bs & _).
  destruct (strptime_datetime_range _ _ Ht) as (_ & Bt & _).
  assert (time_of 23 59 59 0 < US_PER_DAY) as Day by reflexivity.
  apply ltb_spec in Hst.
  assert (selected_events start_date end_date db = [e]) as Sel
    by (apply (selected_single _ _ _ a b e s t); try assumption; lia).
  destruct (week_hours_spec start_date end_date db a b Ha Hb) as (r & Hr & Hdays & _).
  { rewrite Sel. constructor; [ | constructor ]. split; eauto. }
  exists r. split; [exact Hr | ].
  assert (∀ D, date_ord a <= D < date_ord b →
               r !! day_key D
               = Some (credit s t (bucket_tag (Event.tag e)) D ∅)) as Hcredit.
  { intros D HD. rewrite (Hdays D HD), Sel. simpl.
    unfold event_credit. now rewrite Hs, Ht. }
  split.
  - intros Same D HD. rewrite (Hcredit D HD). unfold credit.
    rewrite clipped_same_day; [ | lia | lia | exact Same | apply leb_spec; lia ].
    destruct (decide (D = date_ord s)); [ | reflexivity ].
    now rewrite add_hours_empty.
  - intros Next. exists (US_PER_DAY - 1 - time_us s), (time_us t).
    split; [unfold sub; lia | ].
    intros D HD. rewrite (Hcredit D HD). unfold credit.
    rewrite clipped_two_days; [ | lia | lia | exact Next ].
    destruct (decide (D = date_ord s)); [now rewrite add_hours_empty | ].
    destruct (decide (D = date_ord s + 1)); [now rewrite add_hours_empty | ].
    reflexivity.
Qed.

End EventOfTheWeek.

(** * Worked weeks *)

(** C1, as the code has it.  The two overlapping two-hour events add up
    to 4.0 hours of "Work" on 2024-06-01 (the overlap is counted twice),
    in binary64 and in exact arithmetic, for every week that contains the
    day. *)
Theorem overlapping_events_count_twice (id1 id2 : Z) (title1 title2 : string)
    (description1 description2 created1 created2 : option string)
    (events_seq : Z) (tags : list Tag.t) (tags_seq : Z) :
  let db :=
    mk_db (overlapping_events id1 id2 title1 title2 description1 description2
             created1 created2) events_seq tags tags_seq in
  Forall (λ week,
            hours_on (get_tag_hours_for_week (arith := binary64_hours)
                        week.1 week.2 db) "2024-06-01" "Work"
            = Some 4%float
            ∧ ∃ q, hours_on (get_tag_hours_for_week (arith := exact_hours)
                               week.1 week.2 db) "2024-06-01" "Work" = Some q
                   ∧ (q == 4)%Q)
         weeks_with_june_first.
Proof.
  cbv zeta. unfold weeks_with_june_first.
  repeat (apply Forall_cons; split;
          [split; [vm_compute; reflexivity
                  | eexists; split; [vm_compute; reflexivity | reflexivity]]
          | ]).
  apply Forall_nil_2.
Qed.

(** C1 as stated does not hold: the table reports 4.0 hours, not 3.0. *)
Lemma overlapping_events_not_three_hours :
  let db :=
    mk_db (overlapping_events 1 2 "Shift" "Call" None None None None) 2 [] 0 in
  hours_on (get_tag_hours_for_week (arith := binary64_hours)
              "2024-05-27" "2024-06-03" db) "2024-06-01" "Work"
  = Some 4%float
  ∧ PrimFloat.eqb 4%float 3%float = false
  ∧ ∃ q,
      hours_on (get_tag_hours_for_week (arith := exact_hours)
                  "2024-05-27" "2024-06-03" db) "2024-06-01" "Work" = Some q
      ∧ (q == 4)%Q ∧ ¬ (q == 3)%Q.
Proof.
  split; [vm_compute; reflexivity | ].
  split; [vm_compute; reflexivity | ].
  eexists. split; [vm_compute; reflexivity | ].
  split; [reflexivity | ]. intros H. vm_compute in H. discriminate.
Qed.

(** C2, at an event that spans midnight: the two parts do not add up to
    the duration.  The two hours of the event above come out as
    3599.999999 s / 3600 before midnight (the binary64 number
    0.9999999997222222, written in hexadecimal below) and 1.0 after it,
    which is less than 2.0 in binary64 and exactly one microsecond short in
    exact arithmetic. *)
Lemma midnight_event_loses_a_microsecond :
  hours_on (get_tag_hours_for_week (arith := binary64_hours)
              "2024-05-27" "2024-06-03" midnight_db) "2024-06-01" "Work"
  = Some 0x1.fffffffd9d29p-1%float
  ∧ hours_on (get_tag_hours_for_week (arith := binary64_hours)
                "2024-05-27" "2024-06-03" midnight_db) "2024-06-02" "Work"
    = Some 1%float
  ∧ PrimFloat.ltb (PrimFloat.add 0x1.fffffffd9d29p-1%float 1%float) 2%float
    = true
  ∧ ∃ q1 q2,
      hours_on (get_tag_hours_for_week (arith := exact_hours)
                  "2024-05-27" "2024-06-03" midnight_db) "2024-06-01" "Work"
      = Some q1
      ∧ hours_on (get_tag_hours_for_week (arith := exact_hours)
                    "2024-05-27" "2024-06-03" midnight_db) "2024-06-02" "Work"
        = Some q2
      ∧ (q1 == 3599999999 # 3600000000)%Q ∧ (q2 == 1)%Q
      ∧ (q1 + q2 == 2 - (1 # 3600000000))%Q.
Proof.
  split; [vm_compute; reflexivity | ].
  split; [vm_compute; reflexivity | ].
  split; [vm_compute; reflexivity | ].
  do 2 eexists.
  split; [vm_compute; reflexivity | ].
  split; [vm_compute; reflexivity | ].
  split; [reflexivity | ]. split; reflexivity.
Qed.

Section ExactHours.
#[local] Existing Instance exact_hours.

(** In exact arithmetic a bucket that starts from 0 holds what was added. *)
Lemma exact_hadd_zero (q : Q) : hadd hzero q = q.
Proof.
  destruct q as [n d]. unfold hadd, hzero, exact_hours, Qplus. simpl.
  f_equal. lia.
Qed.

(** Exact hours are the microseconds over 3.6e9. *)
Lemma exact_hours_of (td : Z) : (hours_of td == td # 3600000000)%Q.
Proof.
  unfold hours_of, exact_hours, Qeq, Qdiv, Qmult, Qinv, inject_Z. simpl. lia.
Qed.

(** The parts of an event around midnight, in exact hours. *)
Lemma exact_hours_split (before after total : Z) :
  before + after = total - 1 →
  (hours_of before + hours_of after
   == hours_of total - (1 # 3600000000))%Q.
Proof.
  intros E. rewrite !exact_hours_of. unfold Qeq, Qminus, Qplus, Qopp. simpl. lia.
Qed.

End ExactHours.

(** * The omitted tag *)

Section TagBlind.
Context {hnum : Type} {arith : HourArith hnum}.








End TagBlind.


(** * Instances *)

Lemma migrate_schema_rows_witness :
  List.NoDup (map Legacy.id (legacy_events legacy_example))
  ∧ Forall migratable (legacy_events legacy_example)
  ∧ ∃ db,
      migrate_schema legacy_example = Some db
      ∧ Forall2 migrated (legacy_events legacy_example) (events db)
      ∧ tags db = legacy_tags legacy_example.
Proof.
  assert (List.NoDup (map Legacy.id (legacy_events legacy_example))) as ND.
  { simpl. repeat constructor; simpl; intuition discriminate. }
  assert (Forall migratable (legacy_events legacy_example)) as Ok.
  { repeat constructor; intros _; eexists;
      (split; [vm_compute; reflexivity | left; reflexivity]). }
  split; [exact ND | ]. split; [exact Ok | ].
  exact (proj1 (migrate_schema_rows legacy_example ND) Ok).
Defined.

Lemma get_events_by_date_touching_witness :
  get_events_by_date "2024-06-02" tagged_db = [trip]
  ∧ get_events_by_date "2024-06-03" tagged_db = [trip; meeting]
  ∧ (In trip (get_events_by_date "2024-06-02" tagged_db)
     ↔ touches (Datetime.mk_datetime 739038 64800000000)
               (Datetime.mk_datetime 739040 34200000000)
               (Datetime.mk_datetime 739039 0)).
Proof.
  split; [reflexivity | ]. split; [reflexivity | ].
  apply (proj2 (get_events_by_date_touching "2024-06-02" tagged_db));
    [reflexivity | right; left; reflexivity | reflexivity | reflexivity
    | reflexivity].
Defined.


Lemma duplicate_tag_leaves_state_witness :
  add_tag "2024-06-01 09:00:00" "Work" "#000000" None tagged_db
  = (tagged_db, Raise (DuplicateTag "Work"))
  ∧ update_tag 2 "Work" "#28a745" tagged_db
    = (tagged_db, Raise (DuplicateTag "Work")).
Proof.
  destruct (duplicate_tag_leaves_state "2024-06-01 09:00:00" "Work" "#000000"
              None 2 tagged_db) as [Hadd _].
  destruct (duplicate_tag_leaves_state "2024-06-01 09:00:00" "Work" "#28a745"
              None 2 tagged_db) as [_ Hupd].
  split.
  - apply Hadd; [left; reflexivity | reflexivity].
  - apply (Hupd (Tag.mk 1 "Work" "#007bff" 1 None)).
    + right. left. reflexivity.
    + left. reflexivity.
    + discriminate.
    + reflexivity.
Defined.


Lemma add_tag_appends_after_greatest_witness :
  ¬ In "Travel" (map Tag.name (tags tagged_db))
  ∧ order_index_left (map Tag.order_index (tags tagged_db))
  ∧ rowid_left (tags_seq tagged_db) (map Tag.id (tags tagged_db))
  ∧ ∃ db' row,
      add_tag "2024-06-01 09:00:00" "Travel" "#ffffff" None tagged_db
      = (db', Return (Tag.id row))
      ∧ tags db' = tags tagged_db ++ [row]
      ∧ Tag.order_index row = 3.
Proof.
  assert (¬ In "Travel" (map Tag.name (tags tagged_db))) as Fresh
    by (simpl; intuition discriminate).
  assert (order_index_left (map Tag.order_index (tags tagged_db))) as Left
    by (unfold order_index_left; simpl map;
        repeat (apply List.Forall_cons; [lia | ]); apply List.Forall_nil).
  assert (rowid_left (tags_seq tagged_db) (map Tag.id (tags tagged_db)))
    as Rowid by reflexivity.
  split; [exact Fresh | ]. split; [exact Left | ]. split; [exact Rowid | ].
  destruct (add_tag_appends_after_greatest "2024-06-01 09:00:00" "Travel"
              "#ffffff" tagged_db Fresh Left Rowid)
    as (db' & row & Hcall & Htags & _ & _ & _ & Hspec).
  exists db', row. split; [exact Hcall | ]. split; [exact Htags | ].
  apply Hspec. right. constructor. simpl. lia.
Defined.



Section Binary64.
#[local] Existing Instance binary64_hours.

Lemma event_hours_by_day_witness :
  ∃ r before after,
    get_tag_hours_for_week (arith := binary64_hours) "2024-05-27" "2024-06-03"
      midnight_db = Some r
    ∧ before + after = 7200000000 - 1
    ∧ r !! "2024-06-01" = Some {[ "Work" := hadd hzero (hours_of before) ]}
    ∧ r !! "2024-06-02" = Some {[ "Work" := hadd hzero (hours_of after) ]}
    ∧ r !! "2024-05-31" = Some ∅.
Proof.
  destruct (event_hours_by_day (arith := binary64_hours)
              "2024-05-27" "2024-06-03" midnight_db midnight_event
              (Datetime.mk_datetime 739033 0) (Datetime.mk_datetime 739040 0)
              (Datetime.mk_datetime 739038 82800000000)
              (Datetime.mk_datetime 739039 3600000000))
    as (r & Hr & _ & Hsplit); try reflexivity; try (simpl; lia).
  destruct (Hsplit eq_refl) as (before & after & Hsum & Hdays).
  exists r, before, after. split; [exact Hr | ]. split; [exact Hsum | ].
  split; [exact (Hdays 739038 ltac:(simpl; lia)) | ].
  split; [exact (Hdays 739039 ltac:(simpl; lia)) | ].
  exact (Hdays 739037 ltac:(simpl; lia)).
Defined.

End Binary64.

Import Timestamp.

(** [get_events_by_date] lists well-formed events in the order of their
    starts in time: SQLite sorts the stored text, which for well-formed
    timestamps is the order of the datetimes. *)
Theorem get_events_by_date_chronological (date : string) (db : database) :
  StronglySorted
    (λ a b, ∀ sa sb,
       strptime_datetime (Event.start_datetime a) = Some sa →
       strptime_datetime (Event.start_datetime b) = Some sb →
       Datetime.leb sa sb = true)
    (get_events_by_date date db).
Proof.
  unfold get_events_by_date. simpl working.
  match goal with
  | |- StronglySorted _ (order_by _ ?l) =>
      pose proof (order_by_sorted by_start_datetime by_start_datetime_total
                    by_start_datetime_trans l) as Sorted;
      induction Sorted as [ | x l' S IH F]; constructor; [exact IH | ]
  end.
  eapply Forall_impl; [exact F | ]. simpl. intros b Hb sa sb Ha Hsb.
  unfold by_start_datetime in Hb. unfold Datetime.leb.
  rewrite <- (TimestampFacts.strptime_datetime_compare _ _ _ _ Ha Hsb).
  now rewrite string_leb_compare in Hb.
Qed.

(** * Listing and reordering tags, and calls on a missing event *)

Lemma set_order_index_same t : set_order_index t (Tag.order_index t) = t.
Proof. now destruct t. Qed.

Lemma reorder_loop_map index tag_ids (tgs : list Tag.t) :
  reorder_loop index tag_ids tgs
  = map (λ t, set_order_index t
                (reordered_index index tag_ids (Tag.id t) (Tag.order_index t)))
        tgs.
Proof.
  revert index tgs. induction tag_ids as [ | tag_id rest IH]; intros index tgs.
  - simpl. rewrite <- (map_id tgs) at 1. apply map_ext.
    intros t. now rewrite set_order_index_same.
  - cbn [reorder_loop reordered_index]. rewrite IH, map_map. apply map_ext.
    intros t. destruct (Z.eqb_spec (Tag.id t) tag_id) as [E | N]; simpl.
    + reflexivity.
    + now destruct t.
Qed.

Lemma reordered_index_absent index tag_ids id o :
  ¬ In id tag_ids → reordered_index index tag_ids id o = o.
Proof.
  revert index o. induction tag_ids as [ | x rest IH]; intros index o Hin;
    [reflexivity | ].
  simpl in *. destruct (Z.eqb_spec id x) as [-> | N]; [tauto | ].
  apply IH. tauto.
Qed.

Lemma reordered_index_present index tag_ids id o o' :
  In id tag_ids →
  reordered_index index tag_ids id o = reordered_index index tag_ids id o'.
Proof.
  revert index o o'. induction tag_ids as [ | x rest IH]; intros index o o' Hin;
    [destruct Hin | ].
  simpl. destruct (Z.eqb_spec id x) as [-> | N]; [reflexivity | ].
  apply IH. destruct Hin as [E | Hin]; [congruence | exact Hin].
Qed.

Lemma reordered_index_twice index tag_ids id o :
  reordered_index index tag_ids id (reordered_index index tag_ids id o)
  = reordered_index index tag_ids id o.
Proof.
  destruct (in_dec Z.eq_dec id tag_ids) as [Hin | Hout].
  - now apply reordered_index_present.
  - now rewrite !reordered_index_absent.
Qed.

(** [reorder_tags] twice with the same ids is [reorder_tags] once. *)
Theorem reorder_tags_idempotent (tag_ids : list Z) (db : database) :
  reorder_tags tag_ids (reorder_tags tag_ids db) = reorder_tags tag_ids db.
Proof.
  unfold reorder_tags. simpl. unfold set_tags. simpl. f_equal.
  rewrite !reorder_loop_map, map_map. apply map_ext. intros t.
  unfold set_order_index. simpl. now rewrite reordered_index_twice.
Qed.

(** [reorder_tags] numbers the tags it is given from 1, in the order of
    the ids, when they are distinct. *)
Example reorder_tags_example :
  map (λ t, (Tag.name t, Tag.order_index t))
      (get_all_tags (reorder_tags [2; 7; 1] tagged_db))
  = [("Personal", 1); ("Work", 3)].
Proof. reflexivity. Qed.

Lemma by_order_index_total a b :
  by_order_index a b = true ∨ by_order_index b a = true.
Proof. unfold by_order_index. rewrite !Z.leb_le. lia. Qed.

Lemma by_order_index_trans a b c :
  by_order_index a b = true → by_order_index b c = true →
  by_order_index a c = true.
Proof. unfold by_order_index. rewrite !Z.leb_le. lia. Qed.

Lemma strongly_sorted_weaken {A} (R R' : A → A → Prop) (l : list A) :
  (∀ a b, R a b → R' a b) → StronglySorted R l → StronglySorted R' l.
Proof.
  intros Sub. induction 1 as [ | x l _ IH F]; constructor; [exact IH | ].
  eapply Forall_impl; [exact F | ]. intros y. apply Sub.
Qed.

(** [get_all_tags] lists every tag once, by ascending order index. *)
Theorem get_all_tags_sorted (db : database) :
  Permutation (tags db) (get_all_tags db)
  ∧ StronglySorted (λ a b, Tag.order_index a <= Tag.order_index b)
                   (get_all_tags db).
Proof.
  unfold get_all_tags. simpl. split; [apply order_by_perm | ].
  eapply strongly_sorted_weaken;
    [ | apply order_by_sorted;
        [apply by_order_index_total | apply by_order_index_trans] ].
  intros a b H. now apply Z.leb_le.
Qed.

Lemma map_unchanged {A} (f : A → A) (l : list A) :
  (∀ x, In x l → f x = x) → map f l = l.
Proof.
  intros H. induction l as [ | x l IH]; [reflexivity | ]. simpl.
  rewrite (H x) by now left. f_equal. apply IH. intros y Hy. apply H. now right.
Qed.

Lemma filter_unchanged {A} (p : A → bool) (l : list A) :
  (∀ x, In x l → p x = true) → List.filter p l = l.
Proof.
  intros H. induction l as [ | x l IH]; [reflexivity | ]. simpl.
  rewrite (H x) by now left. f_equal. apply IH. intros y Hy. apply H. now right.
Qed.



(** [get_tag_hours_for_week] when every selected event parses: it
    returns a table whose keys are the days of the range, and the bucket
    of each day holds what the selected events add to it, one after the
    other in the order of the query. *)
Theorem week_hours_by_day {hnum : Type} {arith : HourArith hnum}
    start_date end_date (db : database) a b :
  strptime_date start_date = Some a → strptime_date end_date = Some b →
  Forall parses (selected_events start_date end_date db) →
  ∃ r, get_tag_hours_for_week start_date end_date db = Some r
       ∧ (∀ D, Datetime.date_ord a <= D < Datetime.date_ord b →
               r !! day_key D
               = Some (fold_left (event_credit D)
                                 (selected_events start_date end_date db) ∅))
       ∧ (∀ k, (∀ D, Datetime.date_ord a <= D < Datetime.date_ord b →
                     k ≠ day_key D) →
               r !! k = None).
Proof. apply week_hours_spec. Qed.

Section Binary64Week.
#[local] Existing Instance binary64_hours.

Lemma week_hours_by_day_witness :
  Forall parses (selected_events "2024-05-27" "2024-06-03" tagged_db)
  ∧ ∃ r,
      get_tag_hours_for_week "2024-05-27" "2024-06-03" tagged_db = Some r
      ∧ r !! "2024-06-02"
        = Some (fold_left (event_credit 739039)
                  (selected_events "2024-05-27" "2024-06-03" tagged_db) ∅)
      ∧ r !! "2024-06-03" = None.
Proof.
  assert (Forall parses (selected_events "2024-05-27" "2024-06-03" tagged_db))
    as Hparse.
  { change (selected_events "2024-05-27" "2024-06-03" tagged_db) with [trip].
    repeat constructor; eexists; reflexivity. }
  split; [exact Hparse | ].
  destruct (week_hours_by_day "2024-05-27" "2024-06-03" tagged_db
              (Datetime.mk_datetime 739033 0) (Datetime.mk_datetime 739040 0)
              eq_refl eq_refl Hparse) as (r & Hr & Hdays & Hrest).
  exists r. split; [exact Hr | ].
  split; [exact (Hdays 739039 ltac:(simpl; lia)) | ].
  assert (r = default ∅ (get_tag_hours_for_week "2024-05-27" "2024-06-03"
                           tagged_db)) as -> by now rewrite Hr.
  vm_compute. reflexivity.
Defined.

End Binary64Week.

(** * Invariants of the store *)

Lemma fold_right_max_bound (ids : list Z) :
  Forall (λ i, i <= fold_right Z.max 0 ids) ids.
Proof.
  induction ids as [ | i ids IH]; simpl; constructor; [lia | ].
  eapply Forall_impl; [exact IH | ]. simpl. intros; lia.
Qed.

Lemma next_rowid_fresh (seq : Z) (ids : list Z) :
  seq < next_rowid seq ids ∧ Forall (λ i, i < next_rowid seq ids) ids.
Proof.
  unfold next_rowid. split; [lia | ].
  eapply Forall_impl; [apply fold_right_max_bound | ]. simpl. intros; lia.
Qed.

Lemma rowids_ok_insert (ids : list Z) (seq : Z) :
  rowids_ok ids seq →
  rowids_ok (ids ++ [next_rowid seq ids]) (next_rowid seq ids).
Proof.
  intros [ND Le]. destruct (next_rowid_fresh seq ids) as [Hseq Hids]. split.
  - apply List.NoDup_app; [exact ND | repeat constructor; intros [] | ].
    intros i Hi [<- | []].
    rewrite List.Forall_forall in Hids. specialize (Hids _ Hi). lia.
  - apply Forall_app. split.
    + eapply Forall_impl; [exact Hids | ]. simpl. intros; lia.
    + repeat constructor. lia.
Qed.

Lemma rowids_ok_filter {A} (f : A → Z) (p : A → bool) (l : list A) (seq : Z) :
  rowids_ok (map f l) seq → rowids_ok (map f (List.filter p l)) seq.
Proof.
  intros [ND Le]. split.
  - clear Le. induction l as [ | x l IH]; simpl in *; [constructor | ].
    apply List.NoDup_cons_iff in ND as [Nin ND].
    destruct (p x); [ | now apply IH ]. simpl. constructor; [ | now apply IH ].
    intros (y & E & Hy)%in_map_iff. apply List.filter_In in Hy as [Hy _].
    apply Nin. rewrite <- E. now apply in_map.
  - clear ND. induction l as [ | x l IH]; simpl in *; [constructor | ].
    apply Forall_cons_1 in Le as [Lx Le].
    destruct (p x); [ | now apply IH ]. simpl. constructor; [exact Lx | now apply IH].
Qed.

Lemma NoDup_map_filter {A B} (f : A → B) (p : A → bool) (l : list A) :
  List.NoDup (map f l) → List.NoDup (map f (List.filter p l)).
Proof.
  induction l as [ | x l IH]; simpl; [constructor | ]. intros ND.
  apply List.NoDup_cons_iff in ND as [Nin ND].
  destruct (p x); [ | now apply IH ]. simpl. constructor; [ | now apply IH ].
  intros (y & E & Hy)%in_map_iff. apply List.filter_In in Hy as [Hy _].
  apply Nin. rewrite <- E. now apply in_map.
Qed.

Lemma map_map_same {A B} (f : A → B) (g : A → A) (l : list A) :
  (∀ x, f (g x) = f x) → map f (map g l) = map f l.
Proof.
  intros H. rewrite List.map_map. apply List.map_ext. exact H.
Qed.

Lemma insert_event_ok now s e t d tg conn conn' rowid :
  insert_event now s e t d tg conn = inl (conn', rowid) →
  rowids_ok (map Event.id (events (working conn))) (events_seq (working conn)) →
  rowids_ok (map Event.id (events (working conn'))) (events_seq (working conn'))
  ∧ tags (working conn') = tags (working conn)
  ∧ tags_seq (working conn') = tags_seq (working conn).
Proof.
  unfold insert_event. destruct s, e, t; try discriminate.
  intros [= <- _] Ok. simpl. rewrite map_app. simpl.
  split; [now apply rowids_ok_insert | now split].
Qed.

Lemma bulk_add_loop_keeps now tag records conn count conn' count' :
  bulk_add_loop now tag records conn count = inl (conn', count') →
  rowids_ok (map Event.id (events (working conn))) (events_seq (working conn)) →
  rowids_ok (map Event.id (events (working conn'))) (events_seq (working conn'))
  ∧ tags (working conn') = tags (working conn)
  ∧ tags_seq (working conn') = tags_seq (working conn).
Proof.
  revert conn count. induction records as [ | r rest IH]; intros conn count.
  - intros [= <- _] Ok. auto.
  - cbn [bulk_add_loop].
    destruct (truthy _ && truthy _); [ | apply IH ].
    destruct (insert_event _ _ _ _ _ _ _) as [[conn1 rowid] | err] eqn:Ins;
      [ | discriminate ].
    intros Loop Ok.
    destruct (insert_event_ok _ _ _ _ _ _ _ _ _ Ins Ok) as (Ok1 & T1 & S1).
    destruct (IH _ _ Loop Ok1) as (Ok' & T' & S').
    split; [exact Ok' | ]. split; congruence.
Qed.

(** Renaming the row [tag_id] to a name no other row has keeps the names
    distinct. *)
Lemma renamed_names_distinct tag_id name (upd : Tag.t → Tag.t) (tgs : list Tag.t) :
  (∀ t, Tag.id t = tag_id → Tag.name (upd t) = name) →
  (∀ t, Tag.id t ≠ tag_id → upd t = t) →
  (∀ t, In t tgs → Tag.id t ≠ tag_id → Tag.name t ≠ name) →
  List.NoDup (map Tag.id tgs) → List.NoDup (map Tag.name tgs) →
  List.NoDup (map Tag.name (map upd tgs)).
Proof.
  intros Hit Miss Free. induction tgs as [ | t tgs IH]; simpl; [constructor | ].
  intros NDi NDn.
  apply List.NoDup_cons_iff in NDi as [Ni NDi].
  apply List.NoDup_cons_iff in NDn as [Nn NDn].
  constructor.
  - intros (u' & E & (u & <- & Hu)%in_map_iff)%in_map_iff.
    assert (Tag.id u ≠ Tag.id t) as Ne
      by (intros Eid; apply Ni; rewrite <- Eid; now apply in_map).
    destruct (Z.eq_dec (Tag.id t) tag_id) as [Et | Nt].
    + rewrite (Hit t Et) in E. rewrite (Miss u) in E by congruence.
      apply (Free u); [now right | congruence | exact E].
    + rewrite (Miss t Nt) in E.
      destruct (Z.eq_dec (Tag.id u) tag_id) as [Eu | Nu].
      * rewrite (Hit u Eu) in E. apply (Free t); [now left | exact Nt | now symmetry].
      * rewrite (Miss u Nu) in E. apply Nn. rewrite <- E. now apply in_map.
  - apply IH; [ | exact NDi | exact NDn ].
    intros u Hu. apply Free. now right.
Qed.

Lemma reorder_loop_ids index tag_ids (tgs : list Tag.t) :
  map Tag.id (reorder_loop index tag_ids tgs) = map Tag.id tgs
  ∧ map Tag.name (reorder_loop index tag_ids tgs) = map Tag.name tgs.
Proof.
  revert index tgs. induction tag_ids as [ | i rest IH]; intros index tgs;
    [now split | ].
  cbn [reorder_loop]. destruct (IH (index + 1) (map (λ t, if Tag.id t =? i
      then Tag.mk (Tag.id t) (Tag.name t) (Tag.color t) (index + 1)
                  (Tag.created_at t) else t) tgs)) as [-> ->].
  split; apply map_map_same; intros t; now destruct (Tag.id t =? i).
Qed.

(** Every writer keeps the store well-formed, whatever its arguments and
    whether it returns or raises. *)
Theorem writers_keep_store_ok (db : database) :
  store_ok db →
  (∀ now s e title d tg, store_ok (add_event now s e title d tg db).1)
  ∧ (∀ id s e title d tg, store_ok (update_event id s e title d tg db))
  ∧ (∀ id, store_ok (delete_event id db))
  ∧ (∀ now records tg, store_ok (bulk_add_events now records tg db).1)
  ∧ (∀ now name color order, store_ok (add_tag now name color order db).1)
  ∧ (∀ id name color, store_ok (update_tag id name color db).1)
  ∧ (∀ id, store_ok (delete_tag id db).1)
  ∧ (∀ ids, store_ok (reorder_tags ids db)).
Proof.
  intros (Ev & Tg & Nm). repeat apply conj.
  - intros. unfold add_event, insert_event. simpl.
    split; [ | now split ]. simpl. rewrite map_app. now apply rowids_ok_insert.
  - intros. unfold update_event. simpl. split; [ | now split ]. simpl.
    rewrite map_map_same; [exact Ev | ].
    intros x. now destruct (Event.id x =? id).
  - intros. unfold delete_event. simpl. split; [ | now split ]. simpl.
    now apply rowids_ok_filter.
  - intros. unfold bulk_add_events. destruct records as [ | r rest];
      [now split | ].
    destruct (bulk_add_loop _ _ _ _ _) as [[conn' count'] | err] eqn:Loop;
      [ | now split ].
    destruct (bulk_add_loop_keeps _ _ _ _ _ _ _ Loop Ev) as (Ev' & T' & S').
    simpl. split; [exact Ev' | ]. rewrite T', S'. now split.
  - intros. unfold add_tag, insert_tag. simpl working.
    destruct (sqlite_int _); simpl negb; cbv iota; [ | now split ].
    destruct (existsb _ (tags db)) eqn:Ex; simpl; [now split | ].
    split; [exact Ev | ]. simpl. rewrite !map_app. simpl.
    split; [now apply rowids_ok_insert | ].
    apply List.NoDup_app; [exact Nm | repeat constructor; intros [] | ].
    intros n Hn [<- | []].
    now rewrite (existsb_name_true _ _ Hn) in Ex.
  - intros. unfold update_tag, select_tag. simpl.
    destruct (find _ (tags db)) as [row | ] eqn:Sel; [ | now split ].
    unfold update_tag_row. simpl.
    destruct (existsb (λ t, Tag.id t =? id) (tags db)
              && existsb (λ t, negb (Tag.id t =? id)
                               && String.eqb (Tag.name t) name) (tags db))
      eqn:Clash; [now split | ].
    assert (existsb (λ t, Tag.id t =? id) (tags db) = true) as Found.
    { apply existsb_exists. exists row. apply find_some in Sel. exact Sel. }
    rewrite Found in Clash. simpl in Clash.
    assert (∀ t, In t (tags db) → Tag.id t ≠ id → Tag.name t ≠ name) as Free.
    { intros t Ht Ne E.
      assert (existsb (λ t, negb (Tag.id t =? id)
                            && String.eqb (Tag.name t) name) (tags db) = true)
        as Yes; [ | congruence ].
      apply existsb_exists. exists t. split; [exact Ht | ].
      apply andb_true_iff. split; [now apply negb_true_iff, Z.eqb_neq | ].
      now apply String.eqb_eq. }
    assert (store_ok
              (mk_db (events db) (events_seq db)
                 (map (λ t, if Tag.id t =? id
                            then Tag.mk (Tag.id t) name color (Tag.order_index t)
                                        (Tag.created_at t)
                            else t) (tags db)) (tags_seq db))) as Ok.
    { split; [exact Ev | ]. simpl. split.
      - rewrite map_map_same; [exact Tg | ].
        intros t. now destruct (Tag.id t =? id).
      - apply (renamed_names_distinct id name); try assumption.
        + intros t Et. apply Z.eqb_eq in Et. now rewrite Et.
        + intros t Nt. apply Z.eqb_neq in Nt. now rewrite Nt.
        + apply Tg. }
    destruct (negb (String.eqb (Tag.name row) name)); simpl; [ | exact Ok ].
    destruct Ok as (_ & Tg' & Nm'). split; [ | now split ]. simpl.
    rewrite map_map_same; [exact Ev | ].
    intros x. now destruct (decide (Event.tag x = Some (Tag.name row))).
  - intros. unfold delete_tag, select_tag. simpl.
    destruct (find _ (tags db)) as [row | ] eqn:Sel; [ | now split ].
    assert (rowids_ok
              (map Tag.id (List.filter (λ t, negb (Tag.id t =? id)) (tags db)))
              (tags_seq db)
            ∧ List.NoDup
                (map Tag.name (List.filter (λ t, negb (Tag.id t =? id)) (tags db))))
      as [Tg' Nm'].
    { split; [now apply rowids_ok_filter | now apply NoDup_map_filter]. }
    destruct (0 <? _); simpl; (split; [ | now split ]); simpl; [ | exact Ev ].
    rewrite map_map_same; [exact Ev | ].
    intros x. now destruct (decide (Event.tag x = Some (Tag.name row))).
  - intros. unfold reorder_tags. simpl. split; [exact Ev | ]. simpl.
    destruct (reorder_loop_ids 0 ids (tags db)) as [-> ->]. now split.
Qed.

Lemma store_ok_tagged_db : store_ok tagged_db.
Proof.
  repeat split; simpl;
    repeat (apply List.NoDup_cons; [simpl; intuition discriminate | ]);
    try apply List.NoDup_nil; repeat constructor; lia.
Qed.

Lemma writers_keep_store_ok_witness :
  store_ok tagged_db
  ∧ store_ok (add_event "2024-06-04 08:00:00" "2024-06-05 10:00:00"
                "2024-06-05 11:00:00" "Lunch" None None tagged_db).1
  ∧ store_ok (bulk_add_events "2024-06-02 08:00:00" four_records None
                tagged_db).1
  ∧ store_ok (update_tag 1 "Job" "#000000" tagged_db).1
  ∧ store_ok (update_tag 1 "Personal" "#000000" tagged_db).1
  ∧ store_ok (delete_tag 2 tagged_db).1
  ∧ store_ok (reorder_tags [2; 7; 1] tagged_db).
Proof.
  pose proof (writers_keep_store_ok tagged_db store_ok_tagged_db)
    as (Add & _ & _ & Bulk & _ & Update & Delete & Reorder).
  split; [exact store_ok_tagged_db | ].
  split; [apply Add | ]. split; [apply Bulk | ].
  split; [apply Update | ]. split; [apply Update | ].
  split; [apply Delete | apply Reorder].
Defined.

(** * Calls in sequence *)

(** *** Event ids *)

(** An event that is added, to a table that has a rowid left, and then
    deleted by the id [add_event] returned leaves both tables as they
    were; only the counter of the events table has moved on to the id. *)
Theorem add_event_then_delete_event (now s e title : string)
    (d tg : option (option string)) (db : database) :
  rowid_left (events_seq db) (map Event.id (events db)) →
  ∃ db1 id,
    add_event now s e title d tg db = (db1, Return id)
    ∧ events_seq db < id
    ∧ In id (map Event.id (events db1))
    ∧ delete_event id db1 = set_events db (events db) id.
Proof.
  intros _. unfold add_event, insert_event. simpl. eexists. eexists.
  split; [reflexivity | ].
  destruct (next_rowid_fresh (events_seq db) (map Event.id (events db)))
    as [Hseq Hids].
  split; [exact Hseq | ]. simpl. split.
  - rewrite map_app, in_app_iff. right. now left.
  - unfold delete_event, set_events. simpl. f_equal.
    rewrite List.filter_app. simpl. rewrite Z.eqb_refl. simpl.
    rewrite app_nil_r. apply filter_unchanged. intros x Hx.
    apply negb_true_iff, Z.eqb_neq.
    rewrite List.Forall_forall in Hids.
    specialize (Hids (Event.id x) (in_map _ _ _ Hx)). lia.
Qed.

(** The id of a deleted event is not given out again: the next event gets
    an id above it, and above every id the table held. The table has a
    rowid left. *)
Theorem event_id_is_not_reused (now s e title : string)
    (d tg : option (option string)) (old_id : Z) (db : database) :
  store_ok db → In old_id (map Event.id (events db)) →
  rowid_left (events_seq db) (map Event.id (events db)) →
  ∃ db' new_id,
    add_event now s e title d tg (delete_event old_id db) = (db', Return new_id)
    ∧ old_id < new_id
    ∧ Forall (λ i, i < new_id) (map Event.id (events db)).
Proof.
  intros ((_ & Le) & _) Hold _. unfold add_event, insert_event. simpl.
  eexists. eexists. split; [reflexivity | ].
  match goal with
  | |- context [next_rowid ?q ?l] =>
      destruct (next_rowid_fresh q l) as [Hseq _]; set (new_id := next_rowid q l) in *
  end.
  assert (Forall (λ i, i < new_id) (map Event.id (events db))) as All.
  { eapply Forall_impl; [exact Le | ]. simpl. intros; lia. }
  split; [ | exact All ].
  rewrite List.Forall_forall in All. now apply All.
Qed.

(** *** Tags *)

Lemma find_unique_id (row : Tag.t) (tgs : list Tag.t) :
  List.NoDup (map Tag.id tgs) → In row tgs →
  find (λ t, Tag.id t =? Tag.id row) tgs = Some row.
Proof.
  induction tgs as [ | t tgs IH]; simpl; [tauto | ]. intros ND Hin.
  apply List.NoDup_cons_iff in ND as [Nin ND].
  destruct (Z.eqb_spec (Tag.id t) (Tag.id row)) as [E | N].
  - destruct Hin as [-> | Hin]; [reflexivity | ].
    exfalso. apply Nin. rewrite E. now apply in_map.
  - destruct Hin as [-> | Hin]; [congruence | now apply IH].
Qed.

Lemma order_index_fits_bound order (tgs : list Tag.t) :
  order_index_fits order tgs →
  sqlite_int match order with
             | Some order_index => order_index
             | None => or_zero (sql_max (map Tag.order_index tgs)) + 1
             end = true.
Proof.
  destruct order as [o | ]; [trivial | apply next_order_index_stored].
Qed.

Lemma order_index_left_filter (p : Tag.t → bool) (tgs : list Tag.t) :
  order_index_left (map Tag.order_index tgs) →
  order_index_left (map Tag.order_index (List.filter p tgs)).
Proof.
  unfold order_index_left. rewrite !List.Forall_forall.
  intros H o (t & <- & Ht)%in_map_iff. apply List.filter_In in Ht as [Ht _].
  apply H. now apply in_map.
Qed.

(** After [delete_tag] the name of the tag is free: [add_tag] takes it
    again, under a new id, and the events the old tag was detached from
    stay without a tag. The tags table has a rowid left and the order
    index of the new tag can be stored. *)
Theorem deleted_tag_name_is_free_again (now color : string) (order : option Z)
    (row : Tag.t) (db : database) :
  store_ok db → In row (tags db) →
  rowid_left (tags_seq db) (map Tag.id (tags db)) →
  order_index_fits order (tags db) →
  ∃ db1 n db2 new_id,
    delete_tag (Tag.id row) db = (db1, mk_delete_result true (Some n) None)
    ∧ add_tag now (Tag.name row) color order db1 = (db2, Return new_id)
    ∧ Tag.id row < new_id
    ∧ (∃ new, tags db2 = tags db1 ++ [new] ∧ Tag.id new = new_id
              ∧ Tag.name new = Tag.name row)
    ∧ get_events_by_tag (Tag.name row) db2 = [].
Proof.
  intros (_ & (NDi & Le) & NDn) Hrow _ Fits.
  unfold delete_tag, select_tag. simpl working.
  rewrite (find_unique_id row (tags db) NDi Hrow).
  set (count := Z.of_nat (length (List.filter _ (events db)))).
  set (conn := if 0 <? count then _ else _).
  assert (List.filter (λ e, bool_decide (Event.tag e = Some (Tag.name row)))
            (events (working conn)) = []
          ∧ tags (working conn) = tags db
          ∧ tags_seq (working conn) = tags_seq db) as (Hev & Htags & Hseq).
  { subst conn. destruct (Z.ltb_spec 0 count) as [Pos | Zero].
    - destruct (update_events_tag_spec None (Tag.name row)
                  (get_db_connection db)) as (H1 & H2 & H3 & _).
      split; [ | split; assumption ].
      now apply (retagged_none_gone _ _ _ H1).
    - split; [ | split; reflexivity ]. simpl.
      destruct (List.filter _ (events db)); [reflexivity | ].
      subst count. simpl length in Zero. lia. }
  eexists. eexists. eexists. eexists. split; [reflexivity | ].
  unfold add_tag, insert_tag. simpl working. simpl tags. simpl tags_seq.
  rewrite Htags, Hseq.
  rewrite (order_index_fits_bound order
             (List.filter (λ t, negb (Tag.id t =? Tag.id row)) (tags db)))
    by (destruct order; [exact Fits | now apply order_index_left_filter]).
  simpl negb. cbv iota.
  assert (existsb (λ t, String.eqb (Tag.name t) (Tag.name row))
            (List.filter (λ t, negb (Tag.id t =? Tag.id row)) (tags db)) = false)
    as ->.
  { apply not_true_is_false. intros (t & Ht & E)%existsb_exists.
    apply List.filter_In in Ht as [Ht Hid].
    apply String.eqb_eq in E. apply negb_true_iff, Z.eqb_neq in Hid.
    apply Hid. f_equal. now apply (unique_name_row (tags db)). }
  simpl. split; [reflexivity | ].
  match goal with
  | |- context [next_rowid ?q ?l] =>
      destruct (next_rowid_fresh q l) as [Hnew _]
  end.
  split.
  { rewrite List.Forall_forall in Le.
    specialize (Le (Tag.id row) (in_map _ _ _ Hrow)). lia. }
  split; [eexists; split; [reflexivity | now split] | ].
  unfold get_events_by_tag. simpl. exact Hev.
Qed.

Lemma find_map_same {A} (p : A → bool) (f : A → A) (l : list A) :
  (∀ x, p (f x) = p x) → find p (map f l) = option_map f (find p l).
Proof.
  intros H. induction l as [ | x l IH]; [reflexivity | ]. simpl.
  rewrite H. destruct (p x); [reflexivity | exact IH].
Qed.

(** A tag renamed to a name nothing uses, and renamed back with its old
    colour, leaves the database as it was, events included. *)
Theorem rename_tag_round_trip (name color : string) (row : Tag.t)
    (db : database) :
  store_ok db → In row (tags db) →
  ¬ In name (map Tag.name (tags db)) → get_events_by_tag name db = [] →
  ∃ db1,
    update_tag (Tag.id row) name color db = (db1, Return tt)
    ∧ (∀ e, In e (get_events_by_tag (Tag.name row) db) →
            ∃ e', In e' (get_events_by_tag name db1) ∧ Event.id e' = Event.id e)
    ∧ update_tag (Tag.id row) (Tag.name row) (Tag.color row) db1
      = (db, Return tt).
Proof.
  intros (_ & (NDi & _) & NDn) Hrow Free Unused.
  assert (Tag.name row ≠ name) as Other
    by (intros <-; apply Free; now apply in_map).
  assert (∀ t, In t (tags db) → Tag.id t = Tag.id row → t = row) as Same.
  { intros t Ht E. pose proof (find_unique_id row _ NDi Hrow) as F1.
    pose proof (find_unique_id t _ NDi Ht) as F2. rewrite E in F2. congruence. }
  assert (∀ e, In e (events db) → Event.tag e ≠ Some name) as NoEvent.
  { intros e He E. unfold get_events_by_tag in Unused. simpl in Unused.
    assert (In e (List.filter (λ e, bool_decide (Event.tag e = Some name))
                    (events db))) as Hin
      by (apply List.filter_In; split; [exact He | now apply bool_decide_eq_true]).
    rewrite Unused in Hin. destruct Hin. }
  unfold update_tag at 1, select_tag. simpl working.
  rewrite (find_unique_id row _ NDi Hrow). unfold update_tag_row. simpl working.
  assert (existsb (λ t, negb (Tag.id t =? Tag.id row)
                        && String.eqb (Tag.name t) name) (tags db) = false) as ->.
  { apply not_true_is_false. intros (t & Ht & E)%existsb_exists.
    apply andb_true_iff in E as [_ E]. apply String.eqb_eq in E.
    apply Free. rewrite <- E. now apply in_map. }
  rewrite andb_false_r.
  rewrite (proj2 (String.eqb_neq _ _) Other). simpl negb. cbv iota.
  eexists. split; [reflexivity | ]. split.
  { intros e He. unfold get_events_by_tag in *. simpl in *.
    apply List.filter_In in He as [He Etag]. apply bool_decide_eq_true in Etag.
    eexists. split.
    - apply List.filter_In. split; [apply in_map; exact He | ].
      rewrite decide_True by exact Etag. simpl. now apply bool_decide_eq_true.
    - rewrite decide_True by exact Etag. reflexivity. }
  set (upd1 := λ t : Tag.t, if Tag.id t =? Tag.id row
                then Tag.mk (Tag.id t) name color (Tag.order_index t)
                            (Tag.created_at t) else t).
  unfold update_tag, select_tag. simpl working. simpl tags.
  assert (find (λ t, Tag.id t =? Tag.id row) (map upd1 (tags db))
          = Some (upd1 row)) as ->.
  { rewrite find_map_same
      by (intros t; subst upd1; simpl;
          destruct (Tag.id t =? Tag.id row) eqn:E; simpl; exact E).
    now rewrite (find_unique_id row _ NDi Hrow). }
  unfold update_tag_row. simpl working. simpl tags.
  assert (existsb (λ t, negb (Tag.id t =? Tag.id row)
                        && String.eqb (Tag.name t) (Tag.name row))
            (map upd1 (tags db)) = false) as ->.
  { apply not_true_is_false.
    intros (t' & (t & <- & Ht)%in_map_iff & E)%existsb_exists.
    apply andb_true_iff in E as [E1 E2].
    apply negb_true_iff, Z.eqb_neq in E1. apply String.eqb_eq in E2.
    subst upd1. simpl in E1, E2.
    destruct (Z.eqb_spec (Tag.id t) (Tag.id row)) as [E | N]; simpl in E1, E2;
      [congruence | ].
    apply N. f_equal. now apply (unique_name_row (tags db)). }
  rewrite andb_false_r.
  assert (upd1 row = Tag.mk (Tag.id row) name color (Tag.order_index row)
                            (Tag.created_at row)) as ->
    by (subst upd1; simpl; now rewrite Z.eqb_refl).
  simpl Tag.name.
  rewrite (proj2 (String.eqb_neq name (Tag.name row))) by congruence.
  simpl negb. cbv iota.
  unfold update_events_tag, commit, close, set_events, set_tags. simpl.
  f_equal. destruct db as [evs sq tgs tsq]. simpl in *. f_equal.
  - rewrite map_map. apply map_unchanged. intros e He.
    destruct (decide (Event.tag e = Some (Tag.name row))) as [E | N]; simpl.
    + rewrite decide_True by reflexivity. destruct e; simpl in *; congruence.
    + rewrite decide_False by now apply NoEvent. reflexivity.
  - rewrite map_map. apply map_unchanged. intros t Ht. subst upd1. simpl.
    destruct (Z.eqb_spec (Tag.id t) (Tag.id row)) as [E | N]; simpl.
    + rewrite (proj2 (Z.eqb_eq _ _) E). rewrite <- (Same t Ht E).
      now destruct t.
    + now rewrite (proj2 (Z.eqb_neq _ _) N).
Qed.

Lemma add_event_then_delete_event_witness :
  rowid_left (events_seq tagged_db) (map Event.id (events tagged_db))
  ∧ ∃ db1 id,
      add_event "2024-06-04 08:00:00" "2024-06-05 10:00:00"
        "2024-06-05 11:00:00" "Lunch" None None tagged_db
      = (db1, Return id)
      ∧ events_seq tagged_db < id
      ∧ In id (map Event.id (events db1))
      ∧ delete_event id db1 = set_events tagged_db (events tagged_db) id.
Proof.
  assert (rowid_left (events_seq tagged_db) (map Event.id (events tagged_db)))
    as Rowid by reflexivity.
  split; [exact Rowid | ].
  exact (add_event_then_delete_event "2024-06-04 08:00:00"
           "2024-06-05 10:00:00" "2024-06-05 11:00:00" "Lunch" None None
           tagged_db Rowid).
Defined.

Lemma event_id_is_not_reused_witness :
  store_ok tagged_db
  ∧ In 2 (map Event.id (events tagged_db))
  ∧ rowid_left (events_seq tagged_db) (map Event.id (events tagged_db))
  ∧ ∃ db' new_id,
      add_event "2024-06-04 08:00:00" "2024-06-05 10:00:00"
        "2024-06-05 11:00:00" "Lunch" None None (delete_event 2 tagged_db)
      = (db', Return new_id)
      ∧ 2 < new_id
      ∧ Forall (λ i, i < new_id) (map Event.id (events tagged_db)).
Proof.
  assert (In 2 (map Event.id (events tagged_db))) as Hin by (simpl; auto).
  assert (rowid_left (events_seq tagged_db) (map Event.id (events tagged_db)))
    as Rowid by reflexivity.
  split; [exact store_ok_tagged_db | ]. split; [exact Hin | ].
  split; [exact Rowid | ].
  exact (event_id_is_not_reused "2024-06-04 08:00:00" "2024-06-05 10:00:00"
           "2024-06-05 11:00:00" "Lunch" None None 2 tagged_db
           store_ok_tagged_db Hin Rowid).
Defined.

Lemma deleted_tag_name_is_free_again_witness :
  let row := Tag.mk 1 "Work" "#007bff" 1 None in
  store_ok tagged_db
  ∧ In row (tags tagged_db)
  ∧ rowid_left (tags_seq tagged_db) (map Tag.id (tags tagged_db))
  ∧ order_index_fits None (tags tagged_db)
  ∧ ∃ db1 n db2 new_id,
      delete_tag 1 tagged_db = (db1, mk_delete_result true (Some n) None)
      ∧ add_tag "2024-06-04 08:00:00" "Work" "#123456" None db1
        = (db2, Return new_id)
      ∧ 1 < new_id
      ∧ (∃ new, tags db2 = tags db1 ++ [new] ∧ Tag.id new = new_id
                ∧ Tag.name new = "Work")
      ∧ get_events_by_tag "Work" db2 = [].
Proof.
  intros row.
  assert (In row (tags tagged_db)) as Hin by (simpl; auto).
  assert (rowid_left (tags_seq tagged_db) (map Tag.id (tags tagged_db)))
    as Rowid by reflexivity.
  assert (order_index_fits None (tags tagged_db)) as Fits
    by (unfold order_index_fits, order_index_left; simpl map;
        repeat (apply List.Forall_cons; [lia | ]); apply List.Forall_nil).
  split; [exact store_ok_tagged_db | ]. split; [exact Hin | ].
  split; [exact Rowid | ]. split; [exact Fits | ].
  exact (deleted_tag_name_is_free_again "2024-06-04 08:00:00" "#123456" None
           row tagged_db store_ok_tagged_db Hin Rowid Fits).
Defined.

Lemma rename_tag_round_trip_witness :
  let row := Tag.mk 1 "Work" "#007bff" 1 None in
  store_ok tagged_db
  ∧ In row (tags tagged_db)
  ∧ ¬ In "Job" (map Tag.name (tags tagged_db))
  ∧ get_events_by_tag "Job" tagged_db = []
  ∧ ∃ db1,
      update_tag 1 "Job" "#000000" tagged_db = (db1, Return tt)
      ∧ (∀ e, In e (get_events_by_tag "Work" tagged_db) →
              ∃ e', In e' (get_events_by_tag "Job" db1)
                    ∧ Event.id e' = Event.id e)
      ∧ update_tag 1 "Work" "#007bff" db1 = (tagged_db, Return tt).
Proof.
  intros row.
  assert (In row (tags tagged_db)) as Hin by (simpl; auto).
  assert (¬ In "Job" (map Tag.name (tags tagged_db))) as Free
    by (simpl; intuition discriminate).
  split; [exact store_ok_tagged_db | ]. split; [exact Hin | ].
  split; [exact Free | ]. split; [reflexivity | ].
  exact (rename_tag_round_trip "Job" "#000000" row tagged_db
           store_ok_tagged_db Hin Free eq_refl).
Defined.

(** *** An event that was just added *)

Section AddedEvent.
Import Calendar Datetime Timestamp.
Import TimestampFacts DatetimeFacts.
Import CalendarSpec TimestampSpec.



End AddedEvent.


(** *** The order [reorder_tags] sets *)












(** *** A new tag in the listing *)

Lemma insert_sorted_snoc {A} (le : A → A → bool) (y x : A) (m : list A) :
  le y x = true → insert_sorted le y (m ++ [x]) = insert_sorted le y m ++ [x].
Proof.
  intros H. induction m as [ | z m IH]; simpl.
  - now rewrite H.
  - destruct (le y z); [reflexivity | ]. now rewrite IH.
Qed.

Lemma order_by_snoc {A} (le : A → A → bool) (x : A) (l : list A) :
  (∀ y, In y l → le y x = true) → order_by le (l ++ [x]) = order_by le l ++ [x].
Proof.
  intros H. induction l as [ | y l IH]; [reflexivity | ].
  change (order_by le ((y :: l) ++ [x]))
    with (insert_sorted le y (order_by le (l ++ [x]))).
  rewrite IH by (intros z Hz; apply H; now right).
  rewrite insert_sorted_snoc by (apply H; now left). reflexivity.
Qed.

(** A tag added without an order index comes last in [get_all_tags], after
    the tags that were there, whose order is unchanged. The tags table has
    a rowid left, and no tag has the order index [2 ^ 63 - 1]. *)
Theorem add_tag_lists_last (now name color : string) (db : database) :
  ¬ In name (map Tag.name (tags db)) →
  order_index_left (map Tag.order_index (tags db)) →
  rowid_left (tags_seq db) (map Tag.id (tags db)) →
  ∃ db' row,
    add_tag now name color None db = (db', Return (Tag.id row))
    ∧ Tag.name row = name ∧ Tag.color row = color
    ∧ get_all_tags db' = get_all_tags db ++ [row].
Proof.
  intros Free Left _. unfold add_tag, insert_tag. simpl working.
  rewrite (next_order_index_stored _ Left), (existsb_name_false _ _ Free).
  simpl negb. cbv iota.
  set (order := or_zero (sql_max (map Tag.order_index (tags db))) + 1).
  set (row := Tag.mk (next_rowid (tags_seq db) (map Tag.id (tags db)))
                     name color order (Some now)).
  exists (set_tags db (tags db ++ [row]) (Tag.id row)), row.
  split; [reflexivity | ]. split; [reflexivity | ]. split; [reflexivity | ].
  unfold get_all_tags. simpl. apply order_by_snoc.
  intros t Ht. unfold by_order_index. apply Z.leb_le. simpl. subst order.
  pose proof (sql_max_spec (map Tag.order_index (tags db))) as Max.
  destruct (sql_max (map Tag.order_index (tags db))) as [m | ].
  - destruct Max as [_ All]. rewrite List.Forall_forall in All.
    specialize (All (Tag.order_index t) (in_map _ _ _ Ht)).
    unfold or_zero. destruct (Z.eqb_spec m 0); lia.
  - apply (f_equal (@length Z)) in Max. rewrite length_map in Max.
    destruct (tags db); [destruct Ht | discriminate].
Qed.

Lemma add_tag_lists_last_witness :
  ¬ In "Travel" (map Tag.name (tags tagged_db))
  ∧ order_index_left (map Tag.order_index (tags tagged_db))
  ∧ rowid_left (tags_seq tagged_db) (map Tag.id (tags tagged_db))
  ∧ ∃ db' row,
      add_tag "2024-06-04 08:00:00" "Travel" "#654321" None tagged_db
      = (db', Return (Tag.id row))
      ∧ Tag.name row = "Travel" ∧ Tag.color row = "#654321"
      ∧ get_all_tags db' = get_all_tags tagged_db ++ [row].
Proof.
  assert (¬ In "Travel" (map Tag.name (tags tagged_db))) as Free
    by (simpl; intuition discriminate).
  assert (order_index_left (map Tag.order_index (tags tagged_db))) as Left
    by (unfold order_index_left; simpl map;
        repeat (apply List.Forall_cons; [lia | ]); apply List.Forall_nil).
  assert (rowid_left (tags_seq tagged_db) (map Tag.id (tags tagged_db)))
    as Rowid by reflexivity.
  split; [exact Free | ]. split; [exact Left | ]. split; [exact Rowid | ].
  exact (add_tag_lists_last "2024-06-04 08:00:00" "Travel" "#654321" tagged_db
           Free Left Rowid).
Defined.

(** *** A bulk import and the single inserts *)




(** * Start-up: the tags table is seeded once *)

Lemma next_rowid_counter (seq : Z) (ids : list Z) :
  0 <= seq → Forall (λ i, i <= seq) ids → next_rowid seq ids = seq + 1.
Proof.
  intros Hseq Le. unfold next_rowid.
  assert (fold_right Z.max 0 ids <= seq) as Up
    by (induction Le as [ | i ids Hi _ IH]; simpl; lia).
  lia.
Qed.

Lemma existsb_name_elem name (tgs : list Tag.t) :
  existsb (λ t, String.eqb (Tag.name t) name) tgs = true
  ↔ name ∈ map Tag.name tgs.
Proof.
  rewrite list_elem_of_In. split.
  - intros (t & Ht & E)%existsb_exists. apply String.eqb_eq in E.
    rewrite <- E. now apply in_map.
  - apply existsb_name_true.
Qed.

(** The loop of inserts: it goes through exactly when no name is in the
    table or comes twice, and then it appends the rows under the next
    ids. *)
Lemma insert_default_tags_spec now entries conn :
  Forall (λ x, sqlite_int x.2 = true) entries →
  0 <= tags_seq (working conn) →
  Forall (λ i, i <= tags_seq (working conn)) (map Tag.id (tags (working conn))) →
  NoDup (map Tag.name (tags (working conn))) →
  insert_default_tags now entries conn
  = if bool_decide (NoDup (map Tag.name (tags (working conn))
                           ++ map (λ x, x.1.1) entries))
    then Some (mk_conn (committed conn)
                 (set_tags (working conn)
                    (tags (working conn)
                     ++ number_rows now (tags_seq (working conn)) entries)
                    (tags_seq (working conn) + Z.of_nat (length entries))))
    else None.
Proof.
  intros Stored. revert conn.
  induction Stored as [ | [[name color] order] rest Int _ IH];
    intros conn Hseq Le Names.
  - simpl. rewrite !app_nil_r, Z.add_0_r.
    rewrite bool_decide_eq_true_2 by exact Names.
    destruct conn as [c [evs sq tgs tsq]]. reflexivity.
  - cbn [insert_default_tags]. unfold insert_tag. simpl in Int.
    rewrite Int. simpl negb. cbv iota.
    destruct (existsb _ (tags (working conn))) eqn:Ex.
    + apply existsb_name_elem in Ex.
      rewrite bool_decide_eq_false_2; [reflexivity | ].
      intros (_ & Disj & _)%NoDup_app. apply (Disj name Ex). simpl. left.
    + assert (name ∉ map Tag.name (tags (working conn))) as Fresh.
      { intros Hin. apply existsb_name_elem in Hin. congruence. }
      rewrite next_rowid_counter by assumption.
      rewrite IH; simpl working; simpl tags; simpl tags_seq; [ | lia | | ].
      2:{ rewrite map_app. apply Forall_app. split.
          - eapply Forall_impl; [exact Le | ]. simpl. intros; lia.
          - repeat constructor. simpl. lia. }
      2:{ rewrite map_app. apply NoDup_app. split; [exact Names | ]. split.
          - intros x Hx ->%list_elem_of_singleton. now apply Fresh.
          - apply NoDup_singleton. }
      rewrite map_app. simpl map. rewrite <- !app_assoc. simpl app.
      destruct (bool_decide (NoDup (map Tag.name (tags (working conn))
                                    ++ name :: map (λ x, x.1.1) rest)));
        [ | reflexivity ].
      f_equal. unfold set_tags. simpl. f_equal. f_equal.
      rewrite Nat2Z.inj_succ. lia.
Qed.

Lemma json_entries_stored tags entries :
  mapM json_entry tags = Some entries →
  Forall (λ x, sqlite_int x.2 = true) entries.
Proof.
  revert entries. induction tags as [ | tag rest IH]; intros entries.
  - intros [= <-]. constructor.
  - cbn [mapM]. destruct (json_entry tag) as [entry | ] eqn:Entry;
      [ | discriminate ].
    destruct (mapM json_entry rest) as [entries' | ]; [ | discriminate ].
    simpl. intros [= <-]. constructor; [ | now apply IH ].
    unfold json_entry in Entry.
    destruct (json_name tag), (json_color tag),
      (default (Some 0) (json_order tag)) as [order | ]; try discriminate.
    destruct (sqlite_int order) eqn:Int; [ | discriminate ].
    now injection Entry as <-.
Qed.

Lemma insert_json_tags_entries now tags conn :
  insert_json_tags now tags conn
  = match mapM json_entry tags with
    | Some entries => insert_default_tags now entries conn
    | None => None
    end.
Proof.
  revert conn. induction tags as [ | tag rest IH]; intros conn; [reflexivity | ].
  cbn [insert_json_tags mapM].
  destruct (json_entry tag) as [[[name color] order] | ] eqn:Entry;
    unfold json_entry in Entry;
    destruct (json_name tag) as [name' | ]; try discriminate; try reflexivity;
    destruct (json_color tag) as [color' | ]; try discriminate; try reflexivity;
    destruct (default (Some 0) (json_order tag)) as [order' | ];
    try discriminate; try reflexivity;
    destruct (sqlite_int order') eqn:Int; try discriminate;
    try (unfold insert_tag; rewrite Int; reflexivity).
  injection Entry as -> -> ->. simpl.
  destruct (insert_tag now name color order conn) as [[conn1 rowid] | err] eqn:Ins.
  - rewrite IH. destruct (mapM json_entry rest) as [entries | ]; simpl.
    + now rewrite Ins.
    + reflexivity.
  - destruct (mapM json_entry rest) as [entries | ]; simpl; [ | reflexivity ].
    now rewrite Ins.
Qed.

Lemma init_default_tags_spec now tags_file (db : database) :
  tags db = [] → tags_seq db = 0 →
  init_default_tags now tags_file (get_db_connection db)
  = Some (get_db_connection
            (set_tags db (number_rows now 0 (seeded tags_file))
                      (Z.of_nat (length (seeded tags_file))))).
Proof.
  intros Empty Zero.
  assert (∀ entries,
            Forall (λ x, sqlite_int x.2 = true) entries →
            insert_default_tags now entries (get_db_connection db)
            = if bool_decide (NoDup (map (λ x, x.1.1) entries))
              then Some (mk_conn db
                           (set_tags db (number_rows now 0 entries)
                                     (Z.of_nat (length entries))))
              else None) as Loop.
  { intros entries Stored. rewrite insert_default_tags_spec; simpl;
      rewrite ?Empty, ?Zero; simpl; try reflexivity; try lia;
      try exact Stored; constructor. }
  assert (_create_default_tags now (get_db_connection db)
          = Some (get_db_connection
                    (set_tags db (number_rows now 0 default_tags) 4))) as Default.
  { unfold _create_default_tags.
    rewrite Loop by (repeat constructor). reflexivity. }
  unfold init_default_tags.
  destruct tags_file as [ | | tags]; try exact Default.
  rewrite insert_json_tags_entries. unfold seeded, importable_tags.
  destruct (mapM json_entry tags) as [entries | ] eqn:Entries;
    [ | exact Default ].
  rewrite Loop by now apply (json_entries_stored tags).
  destruct (bool_decide _); [reflexivity | exact Default].
Qed.

(** When the file has no tags table, [init_db] creates it and seeds it
    with every entry of [tags.json], in order and under the ids from 1,
    or, when there is no such file, it cannot be loaded or one of its
    entries cannot be inserted, with the four default tags and nothing of
    [tags.json]; the events are those of the run on the same file with an
    empty tags table. *)
Theorem init_db_seeds_tags (now : string) (tags_file : tags_json)
    (file : db_file) (db : database) :
  file_tags file = None →
  init_db now tags_file (mk_db_file (file_events file) (Some ([], 0))) = Some db →
  init_db now tags_file file
  = Some (set_tags db (number_rows now 0 (seeded tags_file))
                   (Z.of_nat (length (seeded tags_file)))).
Proof.
  destruct file as [evs tgs]. simpl. intros -> Run. unfold init_db in *.
  simpl in *.
  destruct (match evs with
            | NoEventsTable => _ | LegacyEvents rows => _
            | CurrentEvents rows seq => _ end) as [db0 | ] eqn:Events;
    [ | discriminate ].
  injection Run as <-.
  assert (tags db0 = [] ∧ tags_seq db0 = 0) as [Empty Zero].
  { destruct evs as [ | rows | rows seq]; try (injection Events as <-; now split).
    unfold migrate_schema in Events. simpl in Events.
    destruct (migrate_loop rows ([], 0)) as [[news seq'] | ]; [ | discriminate ].
    injection Events as <-. now split. }
  now rewrite init_default_tags_spec.
Qed.

Lemma init_db_seeds_tags_witness :
  file_tags new_file = None
  ∧ init_db "2024-06-01 08:00:00" json_with_a_duplicate
      (mk_db_file (file_events new_file) (Some ([], 0)))
    = Some (mk_db [] 0 [] 0)
  ∧ init_db "2024-06-01 08:00:00" json_with_a_duplicate new_file
    = Some (mk_db [] 0
              (number_rows "2024-06-01 08:00:00" 0 default_tags) 4).
Proof.
  split; [reflexivity | ]. split; [reflexivity | ].
  exact (init_db_seeds_tags "2024-06-01 08:00:00" json_with_a_duplicate new_file
           (mk_db [] 0 [] 0) eq_refl eq_refl).
Defined.

(** A tags table that is there is left as it is, whatever [tags.json]
    holds and even when the table is empty; and a second [init_db] on the
    file the first one left changes nothing. *)
Theorem init_db_keeps_tags_table (now now' : string)
    (tags_file tags_file' : tags_json) (file : db_file)
    (tgs : list Tag.t) (seq : Z) :
  file_tags file = Some (tgs, seq) →
  init_db now tags_file file = init_db now' tags_file' file
  ∧ ∀ db, init_db now tags_file file = Some db →
          tags db = tgs ∧ tags_seq db = seq
          ∧ init_db now' tags_file' (file_of db) = Some db.
Proof.
  destruct file as [evs t]. simpl. intros ->. unfold init_db. simpl.
  split.
  { destruct (match evs with
              | NoEventsTable => _ | LegacyEvents rows => _
              | CurrentEvents rows seq0 => _ end); reflexivity. }
  intros db.
  destruct (match evs with
            | NoEventsTable => _ | LegacyEvents rows => _
            | CurrentEvents rows seq0 => _ end) as [db0 | ] eqn:Events;
    [ | discriminate ].
  intros [= <-].
  assert (tags db0 = tgs ∧ tags_seq db0 = seq) as [E1 E2].
  { destruct evs as [ | rows | rows seq0]; try (injection Events as <-; now split).
    unfold migrate_schema in Events. simpl in Events.
    destruct (migrate_loop rows ([], 0)) as [[news seq'] | ]; [ | discriminate ].
    injection Events as <-. now split. }
  split; [exact E1 | ]. split; [exact E2 | ]. now destruct db0.
Qed.

Lemma init_db_keeps_tags_table_witness :
  file_tags (file_of tagged_db) = Some (tags tagged_db, 2)
  ∧ init_db "2024-06-01 08:00:00" NoTagsFile (file_of tagged_db)
    = init_db "2024-06-02 08:00:00" json_with_a_duplicate (file_of tagged_db)
  ∧ ∀ db, init_db "2024-06-01 08:00:00" NoTagsFile (file_of tagged_db) = Some db →
          tags db = tags tagged_db ∧ tags_seq db = 2
          ∧ init_db "2024-06-02 08:00:00" json_with_a_duplicate (file_of db)
            = Some db.
Proof.
  split; [reflexivity | ].
  exact (init_db_keeps_tags_table "2024-06-01 08:00:00" "2024-06-02 08:00:00"
           NoTagsFile json_with_a_duplicate (file_of tagged_db)
           (tags tagged_db) 2 eq_refl).
Defined.

(** On a file whose events table is the legacy one and holds only rows
    the migration converts, [init_db] migrates every row and keeps the
    tags table, or seeds it when there is none, and a second [init_db]
    finds nothing left to migrate; on a legacy table with any other row
    [init_db] raises. *)
Theorem init_db_migrates_legacy_events (now now' : string)
    (tags_file tags_file' : tags_json) (file : db_file) (rows : list Legacy.t) :
  file_events file = LegacyEvents rows →
  List.NoDup (map Legacy.id rows) →
  (Forall migratable rows →
   ∃ db,
     init_db now tags_file file = Some db
     ∧ Forall2 migrated rows (events db)
     ∧ tags db = match file_tags file with
                 | Some table => table.1
                 | None => number_rows now 0 (seeded tags_file)
                 end
     ∧ init_db now' tags_file' (file_of db) = Some db)
  ∧ (¬ Forall migratable rows → init_db now tags_file file = None).
Proof.
  destruct file as [evs table]. simpl. intros -> ND. split.
  - intros Ok.
    destruct (migrate_loop_spec rows [] 0 ND) as (news & seq' & Loop & Hnews);
      [intros o _ [] | exact Ok | ].
    simpl in Loop. unfold init_db, migrate_schema. simpl. rewrite Loop. simpl.
    destruct table as [[tgs seq] | ]; simpl.
    + eexists. split; [reflexivity | ]. simpl. auto.
    + rewrite init_default_tags_spec by reflexivity. simpl.
      eexists. split; [reflexivity | ]. simpl. auto.
  - intros Bad. unfold init_db, migrate_schema. simpl.
    destruct (migrate_loop rows ([], 0)) as [res | ] eqn:Loop;
      [ | reflexivity ].
    exfalso. apply Bad. now apply (migrate_loop_migratable _ _ _ Loop).
Qed.

Lemma init_db_migrates_legacy_events_witness :
  let rows := legacy_events legacy_example in
  List.NoDup (map Legacy.id rows)
  ∧ Forall migratable rows
  ∧ ∃ db,
      init_db "2024-06-01 08:00:00" NoTagsFile (mk_db_file (LegacyEvents rows) None)
      = Some db
      ∧ Forall2 migrated rows (events db)
      ∧ tags db = number_rows "2024-06-01 08:00:00" 0 default_tags
      ∧ init_db "2024-06-02 08:00:00" json_with_a_duplicate (file_of db)
        = Some db.
Proof.
  intros rows.
  assert (List.NoDup (map Legacy.id rows)) as ND
    by (repeat (apply List.NoDup_cons; [simpl; intuition discriminate | ]);
        apply List.NoDup_nil).
  assert (Forall migratable rows) as Ok.
  { repeat constructor; intros _; eexists;
      (split; [vm_compute; reflexivity | left; reflexivity]). }
  split; [exact ND | ]. split; [exact Ok | ].
  exact (proj1 (init_db_migrates_legacy_events "2024-06-01 08:00:00"
                  "2024-06-02 08:00:00" NoTagsFile json_with_a_duplicate
                  (mk_db_file (LegacyEvents rows) None) rows eq_refl ND) Ok).
Defined.

(** *** What [init_db] leaves is a well-formed store *)

Lemma migrate_loop_rowids old rows seq rows' seq' :
  migrate_loop old (rows, seq) = Some (rows', seq') →
  rowids_ok (map Event.id rows) seq → rowids_ok (map Event.id rows') seq'.
Proof.
  revert rows seq. induction old as [ | o old IH]; intros rows seq.
  - intros [= <- <-]. auto.
  - cbn [migrate_loop].
    destruct (migrate_times (Legacy.date o) (Legacy.time o)) as [[st en] | ];
      [ | discriminate ].
    simpl.
    destruct (existsb (λ e, Event.id e =? Legacy.id o) rows) eqn:Ex;
      [discriminate | ].
    simpl. intros Loop [ND Le]. apply (IH _ _ Loop). split.
    + rewrite map_app. simpl.
      apply List.NoDup_app; [exact ND | repeat constructor; intros [] | ].
      intros i (e & E & He)%in_map_iff [<- | []].
      assert (existsb (λ e, Event.id e =? Legacy.id o) rows = true) as Yes;
        [ | congruence ].
      apply existsb_exists. exists e. split; [exact He | now apply Z.eqb_eq].
    + rewrite map_app. apply Forall_app. split.
      * eapply Forall_impl; [exact Le | ]. simpl. intros; lia.
      * repeat constructor. simpl. lia.
Qed.

Lemma number_rows_names now k entries :
  map Tag.name (number_rows now k entries) = map (λ x, x.1.1) entries.
Proof.
  revert k. induction entries as [ | [[name color] order] rest IH]; intros k;
    [reflexivity | ].
  simpl. now rewrite IH.
Qed.

Lemma number_rows_ids now k entries :
  Forall (λ i, k < i <= k + Z.of_nat (length entries))
         (map Tag.id (number_rows now k entries))
  ∧ List.NoDup (map Tag.id (number_rows now k entries)).
Proof.
  revert k. induction entries as [ | [[name color] order] rest IH]; intros k.
  - split; constructor.
  - destruct (IH (k + 1)) as [In ND]. cbn [number_rows map length].
    rewrite Nat2Z.inj_succ. split.
    + constructor; [simpl; lia | ].
      eapply Forall_impl; [exact In | ]. simpl. intros; lia.
    + constructor; [ | exact ND ]. intros Hin.
      rewrite List.Forall_forall in In. specialize (In _ Hin). simpl in In. lia.
Qed.

Lemma seeded_names_distinct tags_file :
  List.NoDup (map (λ x, x.1.1) (seeded tags_file)).
Proof.
  assert (List.NoDup (map (λ x : string * string * Z, x.1.1) default_tags))
    as Default
    by (simpl;
        repeat (apply List.NoDup_cons; [simpl; intuition discriminate | ]);
        apply List.NoDup_nil).
  destruct tags_file as [ | | tags]; try exact Default.
  unfold seeded, importable_tags.
  destruct (mapM json_entry tags) as [entries | ]; [ | exact Default ].
  destruct (bool_decide (NoDup (map (λ x, x.1.1) entries))) eqn:Names;
    [ | exact Default ].
  apply bool_decide_eq_true in Names. now apply NoDup_ListNoDup.
Qed.

(** Whatever well-formed file it starts from, and whatever [tags.json]
    holds, the database [init_db] leaves is a well-formed store: the
    migration keeps ids distinct and within the counter, and the seeded
    tags have distinct names and ids. *)
Theorem init_db_establishes_store_ok (now : string) (tags_file : tags_json)
    (file : db_file) (db : database) :
  file_ok file → init_db now tags_file file = Some db → store_ok db.
Proof.
  destruct file as [evs table]. unfold file_ok, init_db. simpl.
  intros [Ev Tg].
  destruct (match evs with
            | NoEventsTable => _ | LegacyEvents rows => _
            | CurrentEvents rows seq => _ end) as [db0 | ] eqn:Events;
    [ | discriminate ].
  assert (rowids_ok (map Event.id (events db0)) (events_seq db0)
          ∧ tags db0 = (default ([], 0) table).1
          ∧ tags_seq db0 = (default ([], 0) table).2) as (Ev0 & T0 & S0).
  { destruct evs as [ | rows | rows seq].
    - injection Events as <-. simpl. repeat split; constructor.
    - unfold migrate_schema in Events. simpl in Events.
      destruct (migrate_loop rows ([], 0)) as [[news seq'] | ] eqn:Loop;
        [ | discriminate ].
      injection Events as <-. simpl. split; [ | now split ].
      apply (migrate_loop_rowids _ _ _ _ _ Loop). split; constructor.
    - injection Events as <-. simpl. now split. }
  destruct table as [[tgs seq] | ]; simpl in *.
  - intros [= <-]. split; [exact Ev0 | ]. rewrite T0, S0. exact Tg.
  - rewrite init_default_tags_spec by assumption. simpl. intros [= <-].
    split; [exact Ev0 | ]. simpl.
    destruct (number_rows_ids now 0 (seeded tags_file)) as [In ND].
    split; [split; [exact ND | ] | ].
    + eapply Forall_impl; [exact In | ]. simpl. intros; lia.
    + rewrite number_rows_names. apply seeded_names_distinct.
Qed.

Lemma init_db_establishes_store_ok_witness :
  file_ok new_file
  ∧ init_db "2024-06-01 08:00:00" json_with_a_duplicate new_file
    = Some (mk_db [] 0 (number_rows "2024-06-01 08:00:00" 0 default_tags) 4)
  ∧ store_ok (mk_db [] 0 (number_rows "2024-06-01 08:00:00" 0 default_tags) 4).
Proof.
  assert (file_ok new_file) as Ok by (split; exact I).
  split; [exact Ok | ]. split; [reflexivity | ].
  exact (init_db_establishes_store_ok "2024-06-01 08:00:00"
           json_with_a_duplicate new_file _ Ok eq_refl).
Defined.

(** * The hours of one event, over any number of days *)

Section EventAcrossDays.
Context {hnum : Type} {arith : HourArith hnum}.
Import Calendar Datetime Timestamp.
Import CalendarFacts TimestampFacts DatetimeFacts.
Import CalendarSpec TimestampSpec.

Lemma leb_false a b : leb a b = false ↔ ltb b a = true.
Proof.
  rewrite <- not_true_iff_false, leb_spec, ltb_spec. lia.
Qed.

Ltac order_facts :=
  repeat match goal with
         | H : leb _ _ = true |- _ => apply leb_spec in H; simpl in H
         | H : leb _ _ = false |- _ => apply leb_false, ltb_spec in H; simpl in H
         | H : ltb _ _ = true |- _ => apply ltb_spec in H; simpl in H
         | H : ltb _ _ = false |- _ => apply ltb_false, leb_spec in H; simpl in H
         end.

(** An event that does not end before it starts is credited to each day
    from its first to its last. *)
Lemma clipped_days s t D :
  0 <= time_us s < US_PER_DAY → 0 <= time_us t < US_PER_DAY →
  leb s t = true →
  clipped s t D
  = if decide (date_ord s <= D <= date_ord t) then Some (day_part s t D)
    else None.
Proof.
  intros Bs Bt Hst.
  unfold clipped, day_part, combine, day, time_min, time_max, min, max, sub.
  simpl date_ord.
  destruct (leb s (mk_datetime D (US_PER_DAY - 1))) eqn:L1;
    destruct (leb (mk_datetime D 0) t) eqn:L2; simpl;
    try destruct (ltb (mk_datetime D (US_PER_DAY - 1)) t) eqn:L3;
    try destruct (ltb s (mk_datetime D 0)) eqn:L4;
    order_facts;
    destruct (decide (date_ord s <= D <= date_ord t)); try lia;
    try reflexivity;
    destruct (decide (D = date_ord t)); destruct (decide (D = date_ord s));
    simpl; f_equal; lia.
Qed.

(** An event that ends before it starts: within one day it is credited
    the negative difference, over several days nothing. *)
Lemma clipped_reversed s t D :
  0 <= time_us s < US_PER_DAY → 0 <= time_us t < US_PER_DAY →
  ltb t s = true →
  clipped s t D
  = if decide (D = date_ord s ∧ date_ord t = date_ord s) then Some (sub t s)
    else None.
Proof.
  intros Bs Bt Hts.
  unfold clipped, combine, day, time_min, time_max, min, max, sub.
  simpl date_ord.
  destruct (leb s (mk_datetime D (US_PER_DAY - 1))) eqn:L1;
    destruct (leb (mk_datetime D 0) t) eqn:L2; simpl;
    try destruct (ltb (mk_datetime D (US_PER_DAY - 1)) t) eqn:L3;
    try destruct (ltb s (mk_datetime D 0)) eqn:L4;
    order_facts;
    destruct (decide (D = date_ord s ∧ date_ord t = date_ord s)); try lia;
    try reflexivity; simpl; f_equal; lia.
Qed.

Lemma sum_days_middle s t D (k : nat) :
  date_ord s < D → D + Z.of_nat k = date_ord t →
  sum_days (day_part s t) D (S k)
  = Z.of_nat k * (US_PER_DAY - 1) + time_us t.
Proof.
  revert D. induction k as [ | k IH]; intros D Lo Hi.
  - simpl. unfold day_part.
    rewrite decide_True by lia. rewrite decide_False by lia. lia.
  - change (sum_days (day_part s t) D (S (S k)))
      with (day_part s t D + sum_days (day_part s t) (D + 1) (S k)).
    rewrite IH by lia. unfold day_part.
    rewrite decide_False by lia. rewrite decide_False by lia. lia.
Qed.

(** The parts add up to the duration less one microsecond for each
    midnight the event crosses. *)
Lemma sum_days_parts s t :
  date_ord s <= date_ord t →
  sum_days (day_part s t) (date_ord s)
           (Z.to_nat (date_ord t - date_ord s + 1))
  = sub t s - (date_ord t - date_ord s).
Proof.
  intros Le. unfold sub.
  destruct (Z.eq_dec (date_ord t) (date_ord s)) as [E | N].
  - rewrite E. replace (date_ord s - date_ord s + 1) with 1 by lia.
    simpl. unfold day_part. rewrite decide_True by lia.
    rewrite decide_True by reflexivity. lia.
  - replace (Z.to_nat (date_ord t - date_ord s + 1))
      with (S (S (Z.to_nat (date_ord t - date_ord s - 1)))) by lia.
    change (sum_days (day_part s t) (date_ord s) (S (S ?k)))
      with (day_part s t (date_ord s)
            + sum_days (day_part s t) (date_ord s + 1) (S k)).
    rewrite sum_days_middle by lia. unfold day_part.
    rewrite decide_False by lia. rewrite decide_True by reflexivity.
    rewrite Z2Nat.id by lia. unfold US_PER_DAY, US_PER_SECOND. lia.
Qed.

(** With one event in the table, the bucket of each day of the range
    holds what the loop credits the event on that day, whether the query
    selects the event or not. *)
Lemma single_event_week start_date end_date (db : database) e a b s t :
  events db = [e] →
  strptime_date start_date = Some a → strptime_date end_date = Some b →
  strptime_datetime (Event.start_datetime e) = Some s →
  strptime_datetime (Event.end_datetime e) = Some t →
  ∃ r,
    get_tag_hours_for_week start_date end_date db = Some r
    ∧ ∀ D, date_ord a <= D < date_ord b →
           r !! day_key D
           = Some (credit s t (bucket_tag (Event.tag e)) D ∅).
Proof.
  intros He Ha Hb Hs Ht.
  destruct (strptime_datetime_range _ _ Hs) as (_ & Bs & _).
  destruct (strptime_datetime_range _ _ Ht) as (_ & Bt & _).
  assert (time_of 23 59 59 0 < US_PER_DAY) as Day by reflexivity.
  pose proof (selected_by_query start_date end_date a b e s t Ha Hb Hs Ht)
    as Query.
  assert (selected_events start_date end_date db
          = if String.ltb (Event.start_datetime e) end_date
               && String.ltb start_date (Event.end_datetime e)
            then [e] else []) as Sel.
  { unfold selected_events. rewrite He. simpl.
    now destruct (String.ltb (Event.start_datetime e) end_date
                  && String.ltb start_date (Event.end_datetime e)). }
  destruct (week_hours_spec start_date end_date db a b Ha Hb)
    as (r & Hr & Hdays & _).
  { rewrite Sel. destruct (_ && _); repeat constructor; eauto. }
  exists r. split; [exact Hr | ].
  intros D HD. rewrite (Hdays D HD), Sel.
  destruct (String.ltb (Event.start_datetime e) end_date
            && String.ltb start_date (Event.end_datetime e)) eqn:Q; simpl.
  - unfold event_credit. now rewrite Hs, Ht.
  - unfold credit, clipped, combine, day, time_min, time_max. simpl date_ord.
    destruct (leb s (mk_datetime D (US_PER_DAY - 1))) eqn:L1;
      [ | reflexivity ].
    destruct (leb (mk_datetime D 0) t) eqn:L2; [ | reflexivity ].
    exfalso. apply leb_spec in L1, L2. simpl in L1, L2.
    assert (date_ord s < date_ord b ∧ date_ord a <= date_ord t) as Yes by lia.
    apply Query in Yes. congruence.
Qed.

(** The hours of a single event that does not end before it starts,
    whatever number of days it spans and whether or not it lies within
    the range asked for: each day of the range from the event's first to
    its last holds, under the event's tag, the part of the event on that
    day, which stops at 23:59:59.999999 on every day but the last; the
    other days are empty.  Over all its days the parts add up to the
    duration less one microsecond for each midnight crossed. *)
Theorem event_hours_across_days start_date end_date (db : database) e a b s t :
  events db = [e] →
  strptime_date start_date = Some a → strptime_date end_date = Some b →
  strptime_datetime (Event.start_datetime e) = Some s →
  strptime_datetime (Event.end_datetime e) = Some t →
  leb s t = true →
  ∃ r,
    get_tag_hours_for_week start_date end_date db = Some r
    ∧ (∀ D, date_ord a <= D < date_ord b →
            r !! day_key D
            = Some (if decide (date_ord s <= D <= date_ord t)
                    then {[ bucket_tag (Event.tag e)
                            := hadd hzero (hours_of (day_part s t D)) ]}
                    else ∅))
    ∧ sum_days (day_part s t) (date_ord s)
               (Z.to_nat (date_ord t - date_ord s + 1))
      = sub t s - (date_ord t - date_ord s).
Proof.
  intros He Ha Hb Hs Ht Hst.
  destruct (strptime_datetime_range _ _ Hs) as (_ & Bs & _).
  destruct (strptime_datetime_range _ _ Ht) as (_ & Bt & _).
  assert (time_of 23 59 59 0 < US_PER_DAY) as Day by reflexivity.
  destruct (single_event_week _ _ _ _ _ _ _ _ He Ha Hb Hs Ht) as (r & Hr & Hdays).
  exists r. split; [exact Hr | ]. split.
  - intros D HD. rewrite (Hdays D HD). unfold credit.
    rewrite clipped_days; [ | lia | lia | exact Hst ].
    destruct (decide (date_ord s <= D <= date_ord t)); [ | reflexivity ].
    now rewrite add_hours_empty.
  - apply sum_days_parts. apply leb_spec in Hst. lia.
Qed.

(** The hours of a single event that ends before it starts, which the
    store accepts: when both ends are on one day, that day is credited
    the negative difference; when they are on different days, nothing is
    credited at all. *)
Theorem reversed_event_hours start_date end_date (db : database) e a b s t :
  events db = [e] →
  strptime_date start_date = Some a → strptime_date end_date = Some b →
  strptime_datetime (Event.start_datetime e) = Some s →
  strptime_datetime (Event.end_datetime e) = Some t →
  ltb t s = true →
  ∃ r,
    get_tag_hours_for_week start_date end_date db = Some r
    ∧ sub t s < 0
    ∧ ∀ D, date_ord a <= D < date_ord b →
           r !! day_key D
           = Some (if decide (D = date_ord s ∧ date_ord t = date_ord s)
                   then {[ bucket_tag (Event.tag e)
                           := hadd hzero (hours_of (sub t s)) ]}
                   else ∅).
Proof.
  intros He Ha Hb Hs Ht Hts.
  destruct (strptime_datetime_range _ _ Hs) as (_ & Bs & _).
  destruct (strptime_datetime_range _ _ Ht) as (_ & Bt & _).
  assert (time_of 23 59 59 0 < US_PER_DAY) as Day by reflexivity.
  destruct (single_event_week _ _ _ _ _ _ _ _ He Ha Hb Hs Ht) as (r & Hr & Hdays).
  exists r. split; [exact Hr | ]. split.
  { apply ltb_spec in Hts. unfold sub. unfold US_PER_DAY, US_PER_SECOND in *.
    nia. }
  intros D HD. rewrite (Hdays D HD). unfold credit.
  rewrite clipped_reversed; [ | lia | lia | exact Hts ].
  destruct (decide (D = date_ord s ∧ date_ord t = date_ord s)); [ | reflexivity ].
  now rewrite add_hours_empty.
Qed.

(** A range that ends on or before its first day gives the empty table. *)
Theorem backwards_week_is_empty start_date end_date (db : database) a b :
  strptime_date start_date = Some a → strptime_date end_date = Some b →
  date_ord b <= date_ord a →
  Forall parses (selected_events start_date end_date db) →
  get_tag_hours_for_week start_date end_date db = Some ∅.
Proof.
  intros Ha Hb Back Hparse.
  destruct (week_hours_spec start_date end_date db a b Ha Hb Hparse)
    as (r & -> & _ & Hrest).
  f_equal. apply map_eq. intros k. rewrite lookup_empty. apply Hrest.
  intros D HD. lia.
Qed.

End EventAcrossDays.

Section Binary64Days.
#[local] Existing Instance binary64_hours.

Lemma event_hours_across_days_witness :
  ∃ r,
    get_tag_hours_for_week "2024-05-27" "2024-06-03" trip_db = Some r
    ∧ r !! "2024-05-31" = Some ∅
    ∧ r !! "2024-06-01"
      = Some {[ "Personal" := hadd hzero (hours_of (86400000000 - 1 - 64800000000)) ]}
    ∧ r !! "2024-06-02"
      = Some {[ "Personal" := hadd hzero (hours_of (86400000000 - 1 - 0)) ]}
    ∧ sum_days (day_part (Datetime.mk_datetime 739038 64800000000)
                         (Datetime.mk_datetime 739040 34200000000))
               739038 3
      = 142200000000 - 2.
Proof.
  destruct (event_hours_across_days
              "2024-05-27" "2024-06-03" trip_db trip
              (Datetime.mk_datetime 739033 0) (Datetime.mk_datetime 739040 0)
              (Datetime.mk_datetime 739038 64800000000)
              (Datetime.mk_datetime 739040 34200000000)
              eq_refl eq_refl eq_refl eq_refl eq_refl eq_refl)
    as (r & Hr & Hdays & Hsum).
  exists r. split; [exact Hr | ].
  split; [exact (Hdays 739037 ltac:(simpl; lia)) | ].
  split; [exact (Hdays 739038 ltac:(simpl; lia)) | ].
  split; [exact (Hdays 739039 ltac:(simpl; lia)) | exact Hsum].
Defined.

Lemma reversed_event_hours_witness :
  ∃ r,
    get_tag_hours_for_week "2024-05-27" "2024-06-03" reversed_db = Some r
    ∧ -7200000000 < 0
    ∧ r !! "2024-06-01"
      = Some {[ "Work" := hadd hzero (hours_of (-7200000000)) ]}
    ∧ r !! "2024-06-02" = Some ∅.
Proof.
  destruct (reversed_event_hours
              "2024-05-27" "2024-06-03" reversed_db reversed_event
              (Datetime.mk_datetime 739033 0) (Datetime.mk_datetime 739040 0)
              (Datetime.mk_datetime 739038 43200000000)
              (Datetime.mk_datetime 739038 36000000000)
              eq_refl eq_refl eq_refl eq_refl eq_refl eq_refl)
    as (r & Hr & Hneg & Hdays).
  exists r. split; [exact Hr | ]. split; [exact Hneg | ].
  split; [exact (Hdays 739038 ltac:(simpl; lia)) | ].
  exact (Hdays 739039 ltac:(simpl; lia)).
Defined.

Lemma backwards_week_is_empty_witness :
  Datetime.date_ord (Datetime.mk_datetime 739033 0)
  <= Datetime.date_ord (Datetime.mk_datetime 739040 0)
  ∧ Forall parses (selected_events "2024-06-03" "2024-05-27" tagged_db)
  ∧ get_tag_hours_for_week "2024-06-03" "2024-05-27" tagged_db = Some ∅.
Proof.
  assert (Forall parses (selected_events "2024-06-03" "2024-05-27" tagged_db))
    as Hparse
    by (change (selected_events "2024-06-03" "2024-05-27" tagged_db)
          with (@nil Event.t); constructor).
  split; [simpl; lia | ]. split; [exact Hparse | ].
  exact (backwards_week_is_empty "2024-06-03" "2024-05-27" tagged_db
           (Datetime.mk_datetime 739040 0) (Datetime.mk_datetime 739033 0)
           eq_refl eq_refl ltac:(simpl; lia) Hparse).
Defined.

End Binary64Days.
